(** * Schema-registry federation core: a shallow embedding and its properties

    The development follows the Python sources:
    - [src/core/models.py]            -> Module [Models]
    - [tests/test_compatibility_transitions.py] (risk table)   -> Module [Transitions]
    - [src/plugins/unity_catalog/plugin.py] (schema evolution) -> Module [Iceberg]
    - [src/core/orchestrator.py]      -> Modules [Orchestrator], [Federation]
    - [src/core/plugin_registry.py]   -> Module [PluginRegistry]
    - [src/plugins/unity_catalog/plugin.py] (conversions, methods)
                                      -> Modules [UnityCatalog], [UnityPlugin]
    - [src/plugins/confluent/plugin.py]     -> Module [ConfluentPlugin]
    - [scripts/generate_test_report.py] (statistics)           -> Module [Report]

    Python dictionaries are finite maps ([gmap]); a local variable that a loop
    mutates is a component of an explicit state; [try]/[except Exception] is a
    combinator of a small state-and-exception monad, so that "the exception
    does not reach the caller" is a theorem and not a typing artefact. *)

From Stdlib Require Import Floats.
From stdpp Require Import gmap strings list fin_maps pretty.

(** ** Python exceptions and the state-and-exception monad *)

Module Py.

(** The classes of [Exception] that the modelled code raises or receives
    from a backend.  All of them derive from [Exception], hence all are
    caught by [except Exception]. *)
Inductive ExcClass :=
| KeyError | IndexError | ValueError | TypeError | AttributeError
| RuntimeError | RequestException.

(** An exception value: its class and the text that [str(e)] returns. *)
Record Exc := mkExc { exc_class : ExcClass; str : string }.

(** Outcome of a call: a returned value or a raised exception. *)
Inductive Outcome (A : Type) :=
| Returned (a : A)
| Raised (e : Exc).
Arguments Returned {A} a.
Arguments Raised {A} e.

(** A value of type [Any] as far as the modelled code builds one. *)
Inductive Any :=
| PyNone
| PyBool (b : bool)
| PyInt (z : Z)
| PyFloat (f : float)
| PyStr (s : string).

(** A block of statements reading and mutating local variables of type [S]:
    whatever was mutated before an exception is raised stays mutated. *)
Definition PyM (S A : Type) : Type := S -> Outcome A * S.

#[export] Instance PyM_ret {S} : MRet (PyM S) :=
  fun A a s => (Returned a, s).

#[export] Instance PyM_bind {S} : MBind (PyM S) :=
  fun A B k m s =>
    match m s with
    | (Returned a, s') => k a s'
    | (Raised e, s') => (Raised e, s')
    end.

(** A call into a backend: it does not touch the caller's locals. *)
Definition call {S A} (o : Outcome A) : PyM S A := fun s => (o, s).

(** An assignment to (a part of) the locals. *)
Definition modify {S} (f : S -> S) : PyM S unit := fun s => (Returned tt, f s).

(** Reading the locals. *)
Definition locals {S} : PyM S S := fun s => (Returned s, s).

(** [try: body  except Exception as e: handler e] *)
Definition try_except {S A} (body : PyM S A) (handler : Exc -> PyM S A) : PyM S A :=
  fun s => match body s with
           | (Returned a, s') => (Returned a, s')
           | (Raised e, s') => handler e s'
           end.

(** [for x in xs: body x] *)
Fixpoint for_each {S A} (xs : list A) (body : A -> PyM S unit) : PyM S unit :=
  match xs with
  | [] => mret tt
  | x :: xs' => body x ;; for_each xs' body
  end.

(** Run a function body from the initial locals; [result] builds the
    returned value from the final locals. *)
Definition run {S A R} (m : PyM S A) (init : S) (result : A -> S -> R) : Outcome R :=
  match m init with
  | (Returned a, s) => Returned (result a s)
  | (Raised e, _) => Raised e
  end.

(** A loop whose body, on the elements it meets, neither raises nor does
    anything but update the locals is a left fold. *)
Lemma for_each_steps {S A} (xs : list A) (body : A -> PyM S unit)
    (step : S -> A -> S) (s : S) :
  (forall x, x ∈ xs -> forall s', body x s' = (Returned tt, step s' x)) ->
  for_each xs body s = (Returned tt, foldl step s xs).
Proof.
  revert s. induction xs as [|x xs IH]; intros s Hbody; [done|].
  simpl. unfold mbind, PyM_bind.
  rewrite (Hbody x) by (by left).
  apply IH. intros y Hy. apply Hbody. by right.
Qed.

Lemma bind_returned {S A B} (m : PyM S A) (k : A -> PyM S B) s a s' :
  m s = (Returned a, s') -> (m ≫= k) s = k a s'.
Proof. intros H. unfold mbind, PyM_bind. by rewrite H. Qed.

End Py.

Import Py.

(** ** [src/core/models.py] *)

Module Models.

Inductive RegistryType :=
| CONFLUENT | UNITY_CATALOG | AWS_GLUE | AZURE_PURVIEW | APICURIO
| KARAPACE | PULSAR | REDPANDA | SNOWFLAKE | GCP_DATA_CATALOG.

Inductive SchemaFormat :=
| AVRO | PROTOBUF | JSON_SCHEMA | ICEBERG | PARQUET | OPENAPI | ASYNCAPI | SQL_DDL.

Inductive CompatibilityMode :=
| NONE | BACKWARD | BACKWARD_TRANSITIVE | FORWARD | FORWARD_TRANSITIVE
| FORWARD_FULL | FULL | FULL_TRANSITIVE.

(** [CompatibilityMode.value] *)
Definition value (m : CompatibilityMode) : string :=
  match m with
  | NONE => "NONE"
  | BACKWARD => "BACKWARD"
  | BACKWARD_TRANSITIVE => "BACKWARD_TRANSITIVE"
  | FORWARD => "FORWARD"
  | FORWARD_TRANSITIVE => "FORWARD_TRANSITIVE"
  | FORWARD_FULL => "FORWARD_FULL"
  | FULL => "FULL"
  | FULL_TRANSITIVE => "FULL_TRANSITIVE"
  end.

#[export] Instance CompatibilityMode_eq_dec : EqDecision CompatibilityMode.
Proof. solve_decision. Defined.

Record Schema := mkSchema {
  subject : string;
  version : Z;
  schema_format : SchemaFormat;
  schema_content : string;
  registry_type : RegistryType;
  id : option Z;
  metadata : gmap string Any;
  created_at : option string;
  created_by : option string
}.

Record CompatibilityResult := mkCompatibilityResult {
  is_compatible : bool;
  messages : list string;
  compatibility_level : CompatibilityMode;
  errors : list string
}.

(** The field [metadata] is [health_metadata] here, [Schema] having taken the
    name; the literal 0 that the orchestrator passes for [response_time_ms]
    is the float zero. *)
Record HealthStatus := mkHealthStatus {
  healthy : bool;
  status_code : Z;
  message : string;
  response_time_ms : float;
  health_metadata : gmap string Any
}.

(** One element of [BulkCheckResult.results]: the dictionary with the keys
    "registry_id", "subject", "is_compatible", "messages" and "errors". *)
Record ResultRecord := mkResultRecord {
  r_registry_id : string;
  r_subject : string;
  r_is_compatible : bool;
  r_messages : list string;
  r_errors : list string
}.

(** The field [errors] is [bulk_errors] here, [CompatibilityResult] having
    taken the name. *)
Record BulkCheckResult := mkBulkCheckResult {
  total_checked : nat;
  compatible : nat;
  incompatible : nat;
  bulk_errors : nat;
  duration_seconds : float;
  results : list ResultRecord
}.

End Models.

Import Models.

(** ** [tests/test_compatibility_transitions.py]: the transition-risk table *)

Module Transitions.

(** One row: (from_mode, to_mode, risk_level, requires_validation, description). *)
Definition Transition : Type := string * string * string * bool * string.

Definition from_mode (t : Transition) : string := t.1.1.1.1.
Definition to_mode (t : Transition) : string := t.1.1.1.2.
Definition risk_level (t : Transition) : string := t.1.1.2.
Definition requires_validation (t : Transition) : bool := t.1.2.
Definition description (t : Transition) : string := t.2.

Definition COMPATIBILITY_TRANSITIONS : list Transition := [
  (* NONE transitions *)
  ("NONE", "BACKWARD", "RISKY", true, "NONE allowed breaking changes, BACKWARD requires validation");
  ("NONE", "BACKWARD_TRANSITIVE", "RISKY", true, "Strictest backward check needed");
  ("NONE", "FORWARD", "RISKY", true, "Different compatibility direction");
  ("NONE", "FORWARD_TRANSITIVE", "RISKY", true, "Strictest forward check needed");
  ("NONE", "FULL", "DANGEROUS", true, "Both directions must be validated");
  ("NONE", "FULL_TRANSITIVE", "DANGEROUS", true, "Strictest mode - high risk from NONE");
  (* BACKWARD transitions *)
  ("BACKWARD", "NONE", "SAFE", false, "Removing restrictions is always safe");
  ("BACKWARD", "BACKWARD_TRANSITIVE", "SAFE", false, "Adding transitive check is safe");
  ("BACKWARD", "FORWARD", "DANGEROUS", true, "Opposite compatibility direction");
  ("BACKWARD", "FORWARD_TRANSITIVE", "DANGEROUS", true, "Opposite + transitive");
  ("BACKWARD", "FULL", "RISKY", true, "Adds forward compatibility requirement");
  ("BACKWARD", "FULL_TRANSITIVE", "DANGEROUS", true, "Adds forward + transitive");
  (* BACKWARD_TRANSITIVE transitions *)
  ("BACKWARD_TRANSITIVE", "NONE", "SAFE", false, "Removing restrictions");
  ("BACKWARD_TRANSITIVE", "BACKWARD", "SAFE", false, "Relaxing from transitive to single version");
  ("BACKWARD_TRANSITIVE", "FORWARD", "DANGEROUS", true, "Complete direction change");
  ("BACKWARD_TRANSITIVE", "FORWARD_TRANSITIVE", "DANGEROUS", true, "Complete direction change + transitive");
  ("BACKWARD_TRANSITIVE", "FULL", "DANGEROUS", true, "Adds forward compatibility");
  ("BACKWARD_TRANSITIVE", "FULL_TRANSITIVE", "DANGEROUS", true, "Adds forward + keeps transitive");
  (* FORWARD transitions *)
  ("FORWARD", "NONE", "SAFE", false, "Removing restrictions");
  ("FORWARD", "BACKWARD", "DANGEROUS", true, "Opposite direction");
  ("FORWARD", "BACKWARD_TRANSITIVE", "DANGEROUS", true, "Opposite direction + transitive");
  ("FORWARD", "FORWARD_TRANSITIVE", "SAFE", false, "Adding transitive is safe");
  ("FORWARD", "FULL", "RISKY", true, "Adds backward compatibility");
  ("FORWARD", "FULL_TRANSITIVE", "DANGEROUS", true, "Adds backward + transitive");
  (* FORWARD_TRANSITIVE transitions *)
  ("FORWARD_TRANSITIVE", "NONE", "SAFE", false, "Removing restrictions");
  ("FORWARD_TRANSITIVE", "BACKWARD", "DANGEROUS", true, "Opposite direction");
  ("FORWARD_TRANSITIVE", "BACKWARD_TRANSITIVE", "DANGEROUS", true, "Opposite direction");
  ("FORWARD_TRANSITIVE", "FORWARD", "SAFE", false, "Relaxing transitive requirement");
  ("FORWARD_TRANSITIVE", "FULL", "DANGEROUS", true, "Adds backward compatibility");
  ("FORWARD_TRANSITIVE", "FULL_TRANSITIVE", "RISKY", true, "Adds backward transitive requirement");
  (* FULL transitions *)
  ("FULL", "NONE", "SAFE", false, "Removing all restrictions");
  ("FULL", "BACKWARD", "SAFE", false, "Removing forward requirement");
  ("FULL", "BACKWARD_TRANSITIVE", "RISKY", true, "Removing forward, adding transitive");
  ("FULL", "FORWARD", "SAFE", false, "Removing backward requirement");
  ("FULL", "FORWARD_TRANSITIVE", "RISKY", true, "Removing backward, adding transitive");
  ("FULL", "FULL_TRANSITIVE", "SAFE", false, "Adding transitive to both directions");
  (* FULL_TRANSITIVE transitions (all safe - most restrictive mode) *)
  ("FULL_TRANSITIVE", "NONE", "SAFE", false, "From strictest to most permissive");
  ("FULL_TRANSITIVE", "BACKWARD", "SAFE", false, "Relaxing forward requirement");
  ("FULL_TRANSITIVE", "BACKWARD_TRANSITIVE", "SAFE", false, "Relaxing forward requirement");
  ("FULL_TRANSITIVE", "FORWARD", "SAFE", false, "Relaxing backward requirement");
  ("FULL_TRANSITIVE", "FORWARD_TRANSITIVE", "SAFE", false, "Relaxing backward requirement");
  ("FULL_TRANSITIVE", "FULL", "SAFE", false, "Relaxing transitive requirements")
].

(** The list [modes] of [print_transition_matrix] (the same seven names are
    the ones [test_compatibility_transition] asserts membership in). *)
Definition modes : list string := [
  "NONE"; "BACKWARD"; "BACKWARD_TRANSITIVE";
  "FORWARD"; "FORWARD_TRANSITIVE"; "FULL"; "FULL_TRANSITIVE"
].

(** The risk levels asserted by [test_compatibility_transition]. *)
Definition risk_levels : list string := ["SAFE"; "RISKY"; "DANGEROUS"].

(** [next((t for t in COMPATIBILITY_TRANSITIONS
          if t[0] == from_mode and t[1] == to_mode), None)] *)
Definition find_transition (from to : string) : option Transition :=
  List.find (fun t => bool_decide (from_mode t = from) && bool_decide (to_mode t = to))
            COMPATIBILITY_TRANSITIONS.

(** The body of the double loop of [print_transition_matrix]:
    the value stored at [matrix[from_mode][to_mode]]. *)
Definition matrix_entry (from to : string) : string :=
  if bool_decide (from = to) then "N/A"
  else match find_transition from to with
       | Some transition => risk_level transition
       | None => "?"
       end.

(** [matrix], a dictionary of dictionaries over [modes]. *)
Definition matrix : gmap string (gmap string string) :=
  foldl (fun m from =>
           <[from := foldl (fun row to => <[to := matrix_entry from to]> row) ∅ modes]> m)
        ∅ modes.

(** Number of rows of the table for the ordered pair [(from, to)]. *)
Definition occurrences (from to : string) : nat :=
  length (filter (fun t => from_mode t = from ∧ to_mode t = to) COMPATIBILITY_TRANSITIONS).

(** What the table says about [from -> to]: the risk level and the
    [requires_validation] flag of the row that the lookup finds. *)
Definition classification (from to : string) : option (string * bool) :=
  (fun t => (risk_level t, requires_validation t)) <$> find_transition from to.

(** The two single-direction families of modes. *)
Definition backward_family : list string := ["BACKWARD"; "BACKWARD_TRANSITIVE"].
Definition forward_family : list string := ["FORWARD"; "FORWARD_TRANSITIVE"].

(** Case enumeration over an explicit list. *)
Ltac elem_cases H :=
  repeat (apply elem_of_cons in H as [->|H]);
  [.. | by apply elem_of_nil in H].

Lemma modes_NoDup : NoDup modes.
Proof. compute_done. Qed.

Lemma table_rows_wellformed t :
  t ∈ COMPATIBILITY_TRANSITIONS →
  from_mode t ∈ modes ∧ to_mode t ∈ modes ∧ from_mode t ≠ to_mode t
  ∧ risk_level t ∈ risk_levels.
Proof.
  intros Ht. elem_cases Ht;
    (split_and!; [compute_done ..
                 | by vm_compute
                 | compute_done ]).
Qed.

Lemma cross_pairs_once a b :
  a ∈ modes → b ∈ modes → a ≠ b →
  occurrences a b = 1 ∧ matrix_entry a b ∈ risk_levels.
Proof.
  intros Ha Hb Hab. elem_cases Ha; elem_cases Hb; try done;
    (split; [by vm_compute | compute_done]).
Qed.

Lemma self_pairs_na a : a ∈ modes → matrix_entry a a = "N/A".
Proof. intros _. unfold matrix_entry. by rewrite bool_decide_eq_true_2. Qed.

Lemma matrix_lookup a b :
  a ∈ modes → b ∈ modes →
  matrix !! a ≫= (fun row => row !! b) = Some (matrix_entry a b).
Proof. intros Ha Hb. elem_cases Ha; elem_cases Hb; by vm_compute. Qed.

Lemma no_pair_unclassified a b :
  a ∈ modes → b ∈ modes → matrix_entry a b ≠ "?".
Proof. intros Ha Hb. elem_cases Ha; elem_cases Hb; by vm_compute. Qed.

(** The eighth member of [CompatibilityMode] is the only one whose name
    the table does not know. *)
Lemma value_in_modes (X : CompatibilityMode) : value X ∈ modes ↔ X ≠ FORWARD_FULL.
Proof.
  split.
  - intros H ->. apply (bool_decide_pack _) in H. by vm_compute in H.
  - intros H. destruct X; try done; compute_done.
Qed.

Lemma forward_full_not_in_table t :
  t ∈ COMPATIBILITY_TRANSITIONS →
  from_mode t ≠ value FORWARD_FULL ∧ to_mode t ≠ value FORWARD_FULL.
Proof.
  intros Ht. destruct (table_rows_wellformed t Ht) as (Hf & Hto & _).
  split; intros E; rewrite E in *; by apply value_in_modes in Hf || apply value_in_modes in Hto.
Qed.

(** C4: over the seven modes of the table, the table has exactly 42 rows,
    every row is an ordered pair of two distinct modes with a risk level
    among SAFE, RISKY and DANGEROUS, every ordered pair of distinct modes
    occurs in exactly one row, every self-pair is classified N/A by the
    matrix, and no pair of modes is left with the unclassified mark. *)
Theorem C4_risk_table_complete :
  length modes = 7 ∧ NoDup modes
  ∧ length COMPATIBILITY_TRANSITIONS = 42
  ∧ (∀ t, t ∈ COMPATIBILITY_TRANSITIONS →
       from_mode t ∈ modes ∧ to_mode t ∈ modes ∧ from_mode t ≠ to_mode t
       ∧ risk_level t ∈ risk_levels)
  ∧ (∀ a b, a ∈ modes → b ∈ modes → a ≠ b →
       occurrences a b = 1 ∧ matrix_entry a b ∈ risk_levels)
  ∧ (∀ a, a ∈ modes → matrix_entry a a = "N/A")
  ∧ (∀ a b, a ∈ modes → b ∈ modes →
       matrix_entry a b ≠ "?"
       ∧ matrix !! a ≫= (fun row => row !! b) = Some (matrix_entry a b)).
Proof.
  split_and!; [done | apply modes_NoDup | done | apply table_rows_wellformed
               | apply cross_pairs_once | apply self_pairs_na | ].
  intros a b Ha Hb. split; [by apply no_pair_unclassified | by apply matrix_lookup].
Qed.

Lemma C4_risk_table_complete_witness :
  occurrences "BACKWARD" "FULL" = 1 ∧ matrix_entry "BACKWARD" "FULL" ∈ risk_levels.
Proof.
  destruct C4_risk_table_complete as (_ & _ & _ & _ & H & _).
  apply H; [compute_done .. | done].
Defined.

(** C5 as stated fails: [FORWARD_FULL] is a compatibility mode different
    from [FULL_TRANSITIVE], and the table has no row for
    FULL_TRANSITIVE -> FORWARD_FULL. *)
Lemma C5_counterexample :
  ¬ (∀ X : CompatibilityMode, X ≠ FULL_TRANSITIVE →
       classification (value FULL_TRANSITIVE) (value X) = Some ("SAFE", false)).
Proof. intros H. by specialize (H FORWARD_FULL ltac:(done)). Qed.

(** C5 (amended): for every compatibility mode X that the table knows
    (every member of the enumeration but FORWARD_FULL) and that is not
    FULL_TRANSITIVE, the table classifies FULL_TRANSITIVE -> X as SAFE with
    requires_validation = false. *)
Theorem C5_full_transitive_relaxations_safe (X : CompatibilityMode) :
  value X ∈ modes → X ≠ FULL_TRANSITIVE →
  classification (value FULL_TRANSITIVE) (value X) = Some ("SAFE", false).
Proof.
  intros HX%value_in_modes Hne. by destruct X.
Qed.

Lemma C5_full_transitive_relaxations_safe_witness :
  classification (value FULL_TRANSITIVE) (value BACKWARD) = Some ("SAFE", false).
Proof.
  apply (C5_full_transitive_relaxations_safe BACKWARD);
    [compute_done | done].
Defined.

(** C6: every transition between the backward family and the forward
    family, in either order, is classified DANGEROUS with
    requires_validation = true. *)
Theorem C6_direction_reversal_dangerous (a b : string) :
  (a ∈ backward_family ∧ b ∈ forward_family)
  ∨ (a ∈ forward_family ∧ b ∈ backward_family) →
  classification a b = Some ("DANGEROUS", true).
Proof.
  intros [[Ha Hb]|[Ha Hb]]; elem_cases Ha; elem_cases Hb; by vm_compute.
Qed.

Lemma C6_direction_reversal_dangerous_witness :
  classification "FORWARD_TRANSITIVE" "BACKWARD_TRANSITIVE" = Some ("DANGEROUS", true).
Proof.
  apply C6_direction_reversal_dangerous. right.
  split; compute_done.
Defined.

End Transitions.

(** ** [src/plugins/unity_catalog/plugin.py]: Iceberg schema evolution *)

Module Iceberg.

Section Iceberg.

(** A nested type of Iceberg (a struct, a list, a map) is a dictionary where
    a primitive type is a string.  The check does three things with the
    value under "type": it compares it with another one, it looks the pair
    of both up in a set, which hashes them, and it formats it.  The nested
    types are left abstract, with the equality of Python, the text of the
    [TypeError] that hashing one raises ("unhashable type: 'dict'") and what
    [str] shows of one. *)
Context {Nested : Type} `{EqDecision Nested}.
Variable unhashable_text : Nested -> string.
Variable shown : Nested -> string.

(** The value under "type" of a field. *)
Inductive FieldType :=
| TypeName (name : string)
| NestedType (value : Nested).

#[export] Instance FieldType_eq_dec : EqDecision FieldType.
Proof. solve_decision. Defined.

(** A field of an Iceberg schema, a dictionary read from JSON: each of the
    keys "id", "name", "type" and "required" may be missing. *)
Record Field := mkField {
  f_id : option Z;
  f_name : option string;
  f_type : option FieldType;
  f_required : option bool
}.

(** A schema dictionary; the key "fields" may be missing. *)
Record IcebergSchema := mkIcebergSchema { fields : option (list Field) }.

(** [schema.get("fields", [])] *)
Definition get_fields (schema : IcebergSchema) : list Field := default [] (fields schema).

(** [d[key]] on a dictionary with string keys. *)
Definition item {A} (key : string) (o : option A) : Outcome A :=
  match o with
  | Some a => Returned a
  | None => Raised (mkExc KeyError ("'" +:+ key +:+ "'"))
  end.

(** [{f["id"]: f for f in ...}]: a later field replaces an earlier one with
    the same id; a field without "id" raises. *)
Definition by_id (fs : list Field) : Outcome (gmap Z Field) :=
  Py.run
    (Py.for_each fs (fun f =>
       field_id ← Py.call (item "id" (f_id f));
       Py.modify (fun m => <[field_id := f]> m)))
    ∅
    (fun _ m => m).

(** Truth value of [field.get("required")], the same as that of
    [field.get("required", False)]. *)
Definition is_required (f : Field) : bool := default false (f_required f).

(** [d[k]]: raises [KeyError] when the key is missing. *)
Definition subscript {V} (d : gmap Z V) (k : Z) : Outcome V :=
  match d !! k with
  | Some v => Returned v
  | None => Raised (mkExc KeyError (pretty k))
  end.

Definition safe_promotions : gset (string * string) :=
  {[ ("int", "long"); ("float", "double"); ("date", "timestamp") ]}.

(** What hashing a nested type raises. *)
Definition unhashable (value : Nested) : Exc :=
  mkExc TypeError (unhashable_text value).

(** [(old_type, new_type) in safe_promotions] hashes the pair, the old type
    first. *)
Definition _is_safe_type_promotion (old_type new_type : FieldType) : Outcome bool :=
  match old_type, new_type with
  | TypeName a, TypeName b => Returned (bool_decide ((a, b) ∈ safe_promotions))
  | NestedType value, _ => Raised (unhashable value)
  | TypeName _, NestedType value => Raised (unhashable value)
  end.

(** [f"{type}"] *)
Definition format (type : FieldType) : string :=
  match type with
  | TypeName name => name
  | NestedType value => shown value
  end.

(** The locals [is_compatible] and [messages]. *)
Record Verdict := mkVerdict { is_compatible : bool; messages : list string }.

(** [is_compatible = False] *)
Definition fail : PyM Verdict unit :=
  Py.modify (fun s => mkVerdict false (messages s)).

(** [messages.append(msg)] *)
Definition append (msg : string) : PyM Verdict unit :=
  Py.modify (fun s => mkVerdict (is_compatible s) (messages s ++ [msg])).

Definition removed_message (name : string) (field_id : Z) : string :=
  "Required field '" +:+ name +:+ "' (id=" +:+ pretty field_id +:+ ") was removed".

Definition type_change_message (name old_type new_type : string) : string :=
  "Incompatible type change for field '" +:+ name +:+ "': "
  +:+ old_type +:+ " → " +:+ new_type.

Definition nullability_message (name : string) : string :=
  "Field '" +:+ name +:+ "' changed from nullable to required".

Definition compatible_message : string := "Schema evolution is compatible".

(** The order in which a dictionary or a set of keys is traversed is the
    order of [map_to_list] and of [elements]; no statement below depends
    on it. *)
Definition _check_iceberg_evolution (old_schema new_schema : IcebergSchema)
  : Outcome (bool * list string) :=
  Py.run
    (old_fields ← Py.call (by_id (get_fields old_schema));
     new_fields ← Py.call (by_id (get_fields new_schema));
     (* removed required fields *)
     Py.for_each (map_to_list old_fields) (fun '(field_id, field) =>
       if bool_decide (field_id ∉ dom new_fields) && is_required field
       then fail ;;
            name ← Py.call (item "name" (f_name field));
            append (removed_message name field_id)
       else mret tt) ;;
     (* type changes *)
     Py.for_each (elements (dom old_fields ∩ dom new_fields)) (fun field_id =>
       old_field ← Py.call (subscript old_fields field_id);
       old_type ← Py.call (item "type" (f_type old_field));
       new_field ← Py.call (subscript new_fields field_id);
       new_type ← Py.call (item "type" (f_type new_field));
       if bool_decide (old_type ≠ new_type)
       then safe ← Py.call (_is_safe_type_promotion old_type new_type);
            if negb safe
            then fail ;;
                 old_field' ← Py.call (subscript old_fields field_id);
                 name ← Py.call (item "name" (f_name old_field'));
                 append (type_change_message name (format old_type) (format new_type))
            else mret tt
       else mret tt) ;;
     (* nullability changes *)
     Py.for_each (elements (dom old_fields ∩ dom new_fields)) (fun field_id =>
       old_field ← Py.call (subscript old_fields field_id);
       new_field ← Py.call (subscript new_fields field_id);
       let old_nullable := negb (is_required old_field) in
       let new_nullable := negb (is_required new_field) in
       if old_nullable && negb new_nullable
       then fail ;;
            old_field' ← Py.call (subscript old_fields field_id);
            name ← Py.call (item "name" (f_name old_field'));
            append (nullability_message name)
       else mret tt) ;;
     s ← Py.locals;
     if is_compatible s && bool_decide (messages s = [])
     then append compatible_message
     else mret tt)
    (mkVerdict true [])
    (fun _ s => (is_compatible s, messages s)).

(** *** Loops whose body may raise *)

(** The exception of the first element on which [fault] finds one. *)
Fixpoint first_fault {A} (fault : A -> option Exc) (xs : list A) : option Exc :=
  match xs with
  | [] => None
  | x :: rest =>
      match fault x with
      | Some e => Some e
      | None => first_fault fault rest
      end
  end.

(** A loop whose body raises on the elements with a fault, whatever the
    locals are, and updates the locals on the others: it raises the first
    fault, or is a left fold. *)
Lemma for_each_faults {S A} (xs : list A) (body : A -> PyM S unit)
    (fault : A -> option Exc) (step : S -> A -> S) (s : S) :
  (forall x, x ∈ xs -> forall s',
     match fault x with
     | Some e => (body x s').1 = Raised e
     | None => body x s' = (Returned tt, step s' x)
     end) ->
  match first_fault fault xs with
  | Some e => (Py.for_each xs body s).1 = Raised e
  | None => Py.for_each xs body s = (Returned tt, foldl step s xs)
  end.
Proof.
  revert s. induction xs as [|x xs IH]; intros s Hbody; [done|].
  simpl. unfold mbind, PyM_bind.
  pose proof (Hbody x ltac:(by left) s) as Hx.
  destruct (fault x) as [e|].
  - destruct (body x s) as [[u|e'] s']; simpl in *; [done|]. done.
  - rewrite Hx. apply IH. intros y Hy. apply Hbody. by right.
Qed.

Lemma first_fault_None {A} (fault : A -> option Exc) (xs : list A) :
  first_fault fault xs = None <-> forall x, x ∈ xs -> fault x = None.
Proof.
  induction xs as [|x xs IH]; simpl.
  - split; [|done]. by intros _ x ?%elem_of_nil.
  - destruct (fault x) as [e|] eqn:Hx.
    + split; [done|]. intros Hall. rewrite <-Hx. apply Hall. by left.
    + rewrite IH. split.
      * intros Hall y [->|Hy]%elem_of_cons; [done|by apply Hall].
      * intros Hall y Hy. apply Hall. by right.
Qed.

Lemma bind_raised {S A B} (m : PyM S A) (k : A -> PyM S B) s e :
  (m s).1 = Raised e -> ((m ≫= k) s).1 = Raised e.
Proof. unfold mbind, PyM_bind. by destruct (m s) as [[a|e'] s']; simpl; intros [= ->]. Qed.

Lemma run_raised {S A R} (m : PyM S A) (init : S) (result : A -> S -> R) e :
  (m init).1 = Raised e -> Py.run m init result = Raised e.
Proof. unfold Py.run. by destruct (m init) as [[a|e'] s']; simpl; intros [= ->]. Qed.

(** *** The dictionary of the fields *)

(** The dictionary that the comprehension builds when every field has an
    id. *)
Definition indexed (fs : list Field) : gmap Z Field :=
  foldl (fun m f => match f_id f with Some i => <[i := f]> m | None => m end) ∅ fs.

Definition missing_id (f : Field) : option Exc :=
  match f_id f with
  | Some _ => None
  | None => Some (mkExc KeyError "'id'")
  end.

Lemma by_id_eq (fs : list Field) :
  by_id fs = match first_fault missing_id fs with
             | Some e => Raised e
             | None => Returned (indexed fs)
             end.
Proof.
  unfold by_id.
  pose proof (for_each_faults fs
                (fun f => field_id ← Py.call (item "id" (f_id f));
                          Py.modify (fun m => <[field_id := f]> m))
                missing_id
                (fun m f => match f_id f with Some i => <[i := f]> m | None => m end)
                (∅ : gmap Z Field)) as Hloop.
  destruct (first_fault missing_id fs) as [e|].
  - apply run_raised, Hloop. intros f _ m. unfold missing_id, mbind, PyM_bind, Py.call.
    by destruct (f_id f).
  - unfold Py.run. rewrite Hloop; [done|]. intros f _ m.
    unfold missing_id, mbind, PyM_bind, Py.call. by destruct (f_id f).
Qed.

(** *** The three loops *)

(** A loop step that, when [trig] fires, rejects with the message [msg]. *)
Definition note {A} (trig : A -> bool) (msg : A -> string) (s : Verdict) (x : A) : Verdict :=
  if trig x then mkVerdict false (messages s ++ [msg x]) else s.

Lemma foldl_note {A} (trig : A -> bool) (msg : A -> string) xs s :
  foldl (note trig msg) s xs
  = mkVerdict (is_compatible s && forallb (fun x => negb (trig x)) xs)
              (messages s ++ (msg <$> List.filter trig xs)).
Proof.
  revert s. induction xs as [|x xs IH]; intros [ok ms]; simpl.
  - by rewrite andb_true_r, app_nil_r.
  - rewrite IH. unfold note. destruct (trig x); simpl; [|done].
    by rewrite andb_false_r, <-app_assoc.
Qed.

Lemma forallb_negb_false {A} (trig : A -> bool) xs :
  forallb (fun x => negb (trig x)) xs = false <-> exists x, x ∈ xs /\ trig x = true.
Proof.
  induction xs as [|x xs IH]; simpl.
  - split; [done|]. intros (x & Hx & _). by apply elem_of_nil in Hx.
  - rewrite andb_false_iff, IH, negb_false_iff. split.
    + intros [H0|(y & Hy & Ht)]; [exists x|exists y]; split; try done; by constructor.
    + intros (y & [->|Hy]%elem_of_cons & Ht); [by left|right; by exists y].
Qed.

Lemma forallb_negb_true_filter {A} (trig : A -> bool) xs :
  forallb (fun x => negb (trig x)) xs = true -> List.filter trig xs = [].
Proof.
  induction xs as [|x xs IH]; simpl; [done|].
  intros [Hx Hxs]%andb_true_iff. apply negb_true_iff in Hx. rewrite Hx. by apply IH.
Qed.

Lemma elem_of_noted {A} (trig : A -> bool) (msg : A -> string) xs x :
  x ∈ xs -> trig x = true -> msg x ∈ msg <$> List.filter trig xs.
Proof.
  intros Hx Ht. apply list_elem_of_fmap. exists x. split; [done|].
  apply list_elem_of_In, filter_In. split; [by apply list_elem_of_In|done].
Qed.

(** The name in a message, where the field has one. *)
Definition name_of (f : Field) : string := default "" (f_name f).

Definition no_name : Exc := mkExc KeyError "'name'".
Definition no_type : Exc := mkExc KeyError "'type'".

(** Whether the pair is in the set of safe promotions, for the types that
    can be hashed. *)
Definition promotes (old_type new_type : FieldType) : bool :=
  match old_type, new_type with
  | TypeName a, TypeName b => bool_decide ((a, b) ∈ safe_promotions)
  | _, _ => false
  end.

(** The three conditions that the loops test, as functions of the element
    that the loop visits, and the exception of an element on which the body
    raises. *)
Definition removed_required (new_fields : gmap Z Field) (p : Z * Field) : bool :=
  bool_decide (p.1 ∉ dom new_fields) && is_required p.2.

Definition removed_fault (new_fields : gmap Z Field) (p : Z * Field) : option Exc :=
  if removed_required new_fields p
  then match f_name p.2 with Some _ => None | None => Some no_name end
  else None.

Definition type_broken (old_fields new_fields : gmap Z Field) (i : Z) : bool :=
  match old_fields !! i, new_fields !! i with
  | Some f, Some g =>
      match f_type f, f_type g with
      | Some t, Some u => bool_decide (t ≠ u) && negb (promotes t u)
      | _, _ => false
      end
  | _, _ => false
  end.

Definition type_broken_message (old_fields new_fields : gmap Z Field) (i : Z) : string :=
  match old_fields !! i, new_fields !! i with
  | Some f, Some g =>
      match f_type f, f_type g with
      | Some t, Some u => type_change_message (name_of f) (format t) (format u)
      | _, _ => ""
      end
  | _, _ => ""
  end.

Definition type_fault (old_fields new_fields : gmap Z Field) (i : Z) : option Exc :=
  match old_fields !! i, new_fields !! i with
  | Some f, Some g =>
      match f_type f, f_type g with
      | None, _ => Some no_type
      | Some _, None => Some no_type
      | Some t, Some u =>
          if bool_decide (t ≠ u)
          then match _is_safe_type_promotion t u with
               | Raised e => Some e
               | Returned true => None
               | Returned false =>
                   match f_name f with Some _ => None | None => Some no_name end
               end
          else None
      end
  | _, _ => None
  end.

Definition tightened (old_fields new_fields : gmap Z Field) (i : Z) : bool :=
  match old_fields !! i, new_fields !! i with
  | Some f, Some g => negb (is_required f) && is_required g
  | _, _ => false
  end.

Definition tightened_message (old_fields : gmap Z Field) (i : Z) : string :=
  match old_fields !! i with
  | Some f => nullability_message (name_of f)
  | None => ""
  end.

Definition tightened_fault (old_fields new_fields : gmap Z Field) (i : Z) : option Exc :=
  match old_fields !! i with
  | Some f =>
      if tightened old_fields new_fields i
      then match f_name f with Some _ => None | None => Some no_name end
      else None
  | None => None
  end.

(** The locals after the three loops, when none of them raises. *)
Definition after_loops (old_fields new_fields : gmap Z Field) : Verdict :=
  let keys := elements (dom old_fields ∩ dom new_fields) in
  foldl (note (tightened old_fields new_fields) (tightened_message old_fields))
    (foldl (note (type_broken old_fields new_fields) (type_broken_message old_fields new_fields))
       (foldl (note (removed_required new_fields) (fun p => removed_message (name_of p.2) p.1))
          (mkVerdict true []) (map_to_list old_fields))
       keys)
    keys.

(** The exception that the loops raise, if any: that of the first loop that
    meets a fault. *)
Definition loops_fault (old_fields new_fields : gmap Z Field) : option Exc :=
  let keys := elements (dom old_fields ∩ dom new_fields) in
  match first_fault (removed_fault new_fields) (map_to_list old_fields) with
  | Some e => Some e
  | None =>
      match first_fault (type_fault old_fields new_fields) keys with
      | Some e => Some e
      | None => first_fault (tightened_fault old_fields new_fields) keys
      end
  end.

Lemma common_key (old_fields new_fields : gmap Z Field) i :
  i ∈ elements (dom old_fields ∩ dom new_fields) <->
  exists f g, old_fields !! i = Some f /\ new_fields !! i = Some g.
Proof.
  rewrite elem_of_elements, elem_of_intersection, !elem_of_dom. split.
  - intros [[f Hf] [g Hg]]. by exists f, g.
  - intros (f & g & Hf & Hg). split; by eexists.
Qed.

Lemma promotes_safe t u b :
  _is_safe_type_promotion t u = Returned b -> promotes t u = b.
Proof. destruct t, u; simpl; try done. by intros [= <-]. Qed.

(** The verdict that the function returns from the locals after the loops. *)
Definition verdict (s : Verdict) : bool * list string :=
  (is_compatible s,
   if is_compatible s && bool_decide (messages s = [])
   then messages s ++ [compatible_message] else messages s).

Lemma removed_loop old_fields new_fields (s : Verdict) :
  match first_fault (removed_fault new_fields) (map_to_list old_fields) with
  | Some e =>
      (Py.for_each (map_to_list old_fields) (fun '(field_id, field) =>
         if bool_decide (field_id ∉ dom new_fields) && is_required field
         then fail ;;
              name ← Py.call (item "name" (f_name field));
              append (removed_message name field_id)
         else mret tt) s).1 = Raised e
  | None =>
      Py.for_each (map_to_list old_fields) (fun '(field_id, field) =>
         if bool_decide (field_id ∉ dom new_fields) && is_required field
         then fail ;;
              name ← Py.call (item "name" (f_name field));
              append (removed_message name field_id)
         else mret tt) s
      = (Returned tt,
         foldl (note (removed_required new_fields)
                     (fun p => removed_message (name_of p.2) p.1)) s
               (map_to_list old_fields))
  end.
Proof.
  apply for_each_faults. intros [i f] _ s'.
  unfold removed_fault, note, removed_required, name_of. simpl.
  destruct (bool_decide (i ∉ dom new_fields) && is_required f); [|done].
  unfold fail, append, mbind, PyM_bind, Py.call, Py.modify, item.
  by destruct (f_name f).
Qed.

Lemma type_loop old_fields new_fields (s : Verdict) :
  let body := fun field_id : Z =>
    old_field ← Py.call (subscript old_fields field_id);
    old_type ← Py.call (item "type" (f_type old_field));
    new_field ← Py.call (subscript new_fields field_id);
    new_type ← Py.call (item "type" (f_type new_field));
    if bool_decide (old_type ≠ new_type)
    then safe ← Py.call (_is_safe_type_promotion old_type new_type);
         if negb safe
         then fail ;;
              old_field' ← Py.call (subscript old_fields field_id);
              name ← Py.call (item "name" (f_name old_field'));
              append (type_change_message name (format old_type) (format new_type))
         else mret tt
    else mret tt in
  let keys := elements (dom old_fields ∩ dom new_fields) in
  match first_fault (type_fault old_fields new_fields) keys with
  | Some e => (Py.for_each keys body s).1 = Raised e
  | None =>
      Py.for_each keys body s
      = (Returned tt,
         foldl (note (type_broken old_fields new_fields)
                     (type_broken_message old_fields new_fields)) s keys)
  end.
Proof.
  intros body keys. apply for_each_faults.
  intros i (f & g & Hf & Hg)%common_key s'.
  unfold body, type_fault, note, type_broken, type_broken_message, name_of,
    mbind, PyM_bind, Py.call, subscript, item, fail, append, Py.modify.
  rewrite Hf, Hg.
  destruct (f_type f) as [t|]; [|done].
  destruct (f_type g) as [u|]; [|done].
  destruct (bool_decide (t ≠ u)); simpl; [|done].
  destruct (_is_safe_type_promotion t u) as [[|]|e] eqn:Hsafe; simpl.
  - by rewrite (promotes_safe _ _ _ Hsafe).
  - rewrite (promotes_safe _ _ _ Hsafe). simpl. by destruct (f_name f).
  - done.
Qed.

Lemma tightened_loop old_fields new_fields (s : Verdict) :
  let body := fun field_id : Z =>
    old_field ← Py.call (subscript old_fields field_id);
    new_field ← Py.call (subscript new_fields field_id);
    let old_nullable := negb (is_required old_field) in
    let new_nullable := negb (is_required new_field) in
    if old_nullable && negb new_nullable
    then fail ;;
         old_field' ← Py.call (subscript old_fields field_id);
         name ← Py.call (item "name" (f_name old_field'));
         append (nullability_message name)
    else mret tt in
  let keys := elements (dom old_fields ∩ dom new_fields) in
  match first_fault (tightened_fault old_fields new_fields) keys with
  | Some e => (Py.for_each keys body s).1 = Raised e
  | None =>
      Py.for_each keys body s
      = (Returned tt,
         foldl (note (tightened old_fields new_fields) (tightened_message old_fields))
               s keys)
  end.
Proof.
  intros body keys. apply for_each_faults.
  intros i (f & g & Hf & Hg)%common_key s'.
  unfold body, tightened_fault, note, tightened, tightened_message, name_of,
    mbind, PyM_bind, Py.call, subscript, item, fail, append, Py.modify.
  rewrite Hf, Hg. simpl. rewrite negb_involutive.
  destruct (negb (is_required f) && is_required g); [|done].
  simpl. by destruct (f_name f).
Qed.

(** What the function does: it raises when a field has no id, or when one
    of the loops meets a fault; otherwise it returns the verdict from the
    locals after the loops. *)
Lemma check_iceberg_evolution_unfold old_schema new_schema :
  _check_iceberg_evolution old_schema new_schema =
  match by_id (get_fields old_schema) with
  | Raised e => Raised e
  | Returned old_fields =>
      match by_id (get_fields new_schema) with
      | Raised e => Raised e
      | Returned new_fields =>
          match loops_fault old_fields new_fields with
          | Some e => Raised e
          | None => Returned (verdict (after_loops old_fields new_fields))
          end
      end
  end.
Proof.
  unfold _check_iceberg_evolution.
  destruct (by_id (get_fields old_schema)) as [old_fields|e]; [|done].
  destruct (by_id (get_fields new_schema)) as [new_fields|e]; [|done].
  unfold loops_fault, after_loops. cbv zeta.
  set (keys := elements (dom old_fields ∩ dom new_fields)).
  unfold mbind at 1 2, PyM_bind at 1 2, Py.call at 1 2.
  pose proof (removed_loop old_fields new_fields (mkVerdict true [])) as H1.
  destruct (first_fault (removed_fault new_fields) (map_to_list old_fields)) as [e|].
  { by apply run_raised, bind_raised. }
  pose proof (type_loop old_fields new_fields
                (foldl (note (removed_required new_fields)
                          (fun p => removed_message (name_of p.2) p.1))
                   (mkVerdict true []) (map_to_list old_fields))) as H2.
  cbv zeta in H2. fold keys in H2.
  destruct (first_fault (type_fault old_fields new_fields) keys) as [e|].
  { apply run_raised. erewrite bind_returned by exact H1. by apply bind_raised. }
  pose proof (tightened_loop old_fields new_fields
                (foldl (note (type_broken old_fields new_fields)
                          (type_broken_message old_fields new_fields))
                   (foldl (note (removed_required new_fields)
                             (fun p => removed_message (name_of p.2) p.1))
                      (mkVerdict true []) (map_to_list old_fields)) keys)) as H3.
  cbv zeta in H3. fold keys in H3.
  destruct (first_fault (tightened_fault old_fields new_fields) keys) as [e|].
  { apply run_raised. erewrite bind_returned by exact H1.
    erewrite bind_returned by exact H2. by apply bind_raised. }
  unfold Py.run. erewrite bind_returned by exact H1.
  erewrite bind_returned by exact H2. erewrite bind_returned by exact H3.
  unfold verdict, mbind, PyM_bind, Py.locals, append, Py.modify, mret, PyM_ret.
  by destruct (is_compatible _ && bool_decide _).
Qed.

(** *** The verdict *)

(** The three causes of incompatibility, on the field sets keyed by id. *)
Definition required_field_removed (old_fields new_fields : gmap Z Field) : Prop :=
  exists i f, old_fields !! i = Some f /\ new_fields !! i = None /\ is_required f = true.

Definition unsafe_type_change (old_fields new_fields : gmap Z Field) : Prop :=
  exists i f g t u, old_fields !! i = Some f /\ new_fields !! i = Some g
    /\ f_type f = Some t /\ f_type g = Some u /\ t ≠ u /\ promotes t u = false.

Definition nullability_tightened (old_fields new_fields : gmap Z Field) : Prop :=
  exists i f g, old_fields !! i = Some f /\ new_fields !! i = Some g
    /\ is_required f = false /\ is_required g = true.

Lemma removed_required_true new_fields i f :
  removed_required new_fields (i, f) = true <->
  new_fields !! i = None /\ is_required f = true.
Proof.
  unfold removed_required. simpl.
  by rewrite andb_true_iff, bool_decide_eq_true, not_elem_of_dom.
Qed.

Lemma type_broken_true old_fields new_fields i f g :
  old_fields !! i = Some f -> new_fields !! i = Some g ->
  type_broken old_fields new_fields i = true <->
  exists t u, f_type f = Some t /\ f_type g = Some u /\ t ≠ u /\ promotes t u = false.
Proof.
  intros Hf Hg. unfold type_broken. rewrite Hf, Hg.
  destruct (f_type f) as [t|], (f_type g) as [u|]; try (split; [done|]);
    try (by intros (? & ? & ? & ? & _)).
  rewrite andb_true_iff, negb_true_iff, bool_decide_eq_true. split.
  - intros [Hne Hp]. by exists t, u.
  - by intros (? & ? & [= <-] & [= <-] & Hne & Hp).
Qed.

Lemma tightened_true old_fields new_fields i f g :
  old_fields !! i = Some f -> new_fields !! i = Some g ->
  tightened old_fields new_fields i = true <->
  is_required f = false /\ is_required g = true.
Proof.
  intros Hf Hg. unfold tightened. rewrite Hf, Hg.
  by rewrite andb_true_iff, negb_true_iff.
Qed.

Lemma after_loops_eq old_fields new_fields :
  let keys := elements (dom old_fields ∩ dom new_fields) in
  after_loops old_fields new_fields =
  mkVerdict
    (forallb (fun p => negb (removed_required new_fields p)) (map_to_list old_fields)
     && forallb (fun i => negb (type_broken old_fields new_fields i)) keys
     && forallb (fun i => negb (tightened old_fields new_fields i)) keys)
    (((fun p => removed_message (name_of p.2) p.1)
        <$> List.filter (removed_required new_fields) (map_to_list old_fields))
     ++ (type_broken_message old_fields new_fields
        <$> List.filter (type_broken old_fields new_fields) keys)
     ++ (tightened_message old_fields
        <$> List.filter (tightened old_fields new_fields) keys)).
Proof.
  intros keys. unfold after_loops. fold keys.
  rewrite !foldl_note. simpl. by rewrite <-app_assoc.
Qed.

Lemma after_loops_incompatible old_fields new_fields :
  is_compatible (after_loops old_fields new_fields) = false <->
  required_field_removed old_fields new_fields
  \/ unsafe_type_change old_fields new_fields
  \/ nullability_tightened old_fields new_fields.
Proof.
  rewrite after_loops_eq. simpl.
  rewrite !andb_false_iff, !forallb_negb_false. split.
  - intros [[([i f] & Hin & Ht)|(i & Hin & Ht)]|(i & Hin & Ht)].
    + left. apply elem_of_map_to_list in Hin. apply removed_required_true in Ht.
      exists i, f. by destruct Ht.
    + right; left. apply common_key in Hin as (f & g & Hf & Hg).
      eapply type_broken_true in Ht as (t & u & Ht & Hu & Hne & Hp); [|done..].
      by exists i, f, g, t, u.
    + right; right. apply common_key in Hin as (f & g & Hf & Hg).
      exists i, f, g. split_and!; [done..| |]; by eapply tightened_true in Ht as [? ?].
  - intros [(i & f & Hf & Hg & Hr)
           |[(i & f & g & t & u & Hf & Hg & Ht & Hu & Hne & Hp)
            |(i & f & g & Hf & Hg & Ht)]].
    + left; left. exists (i, f). split; [by apply elem_of_map_to_list|].
      by apply removed_required_true.
    + left; right. exists i. split; [apply common_key; by exists f, g|].
      eapply type_broken_true; [done..|]. by exists t, u.
    + right. exists i. split; [apply common_key; by exists f, g|].
      by eapply tightened_true.
Qed.

Lemma after_loops_compatible old_fields new_fields :
  is_compatible (after_loops old_fields new_fields) = true ->
  messages (after_loops old_fields new_fields) = [].
Proof.
  rewrite after_loops_eq. simpl.
  intros [[H1 H2]%andb_true_iff H3]%andb_true_iff.
  by rewrite !forallb_negb_true_filter.
Qed.

Lemma after_loops_messages old_fields new_fields :
  let msgs := messages (after_loops old_fields new_fields) in
  (forall i f, old_fields !! i = Some f -> new_fields !! i = None ->
     is_required f = true -> removed_message (name_of f) i ∈ msgs)
  /\ (forall i f g t u, old_fields !! i = Some f -> new_fields !! i = Some g ->
     f_type f = Some t -> f_type g = Some u -> t ≠ u -> promotes t u = false ->
     type_change_message (name_of f) (format t) (format u) ∈ msgs)
  /\ (forall i f g, old_fields !! i = Some f -> new_fields !! i = Some g ->
     is_required f = false -> is_required g = true ->
     nullability_message (name_of f) ∈ msgs).
Proof.
  rewrite after_loops_eq. simpl. split_and!.
  - intros i f Hf Hg Hr. apply elem_of_app. left.
    apply (elem_of_noted _ (fun p => removed_message (name_of p.2) p.1) _ (i, f)).
    + by apply elem_of_map_to_list.
    + by apply removed_required_true.
  - intros i f g t u Hf Hg Ht Hu Hne Hp. apply elem_of_app. right.
    apply elem_of_app. left.
    replace (type_change_message (name_of f) (format t) (format u))
      with (type_broken_message old_fields new_fields i)
      by (unfold type_broken_message; by rewrite Hf, Hg, Ht, Hu).
    apply elem_of_noted; [apply common_key; by exists f, g|].
    eapply type_broken_true; [done..|]. by exists t, u.
  - intros i f g Hf Hg Hn Hr. apply elem_of_app. right. apply elem_of_app. right.
    replace (nullability_message (name_of f)) with (tightened_message old_fields i)
      by (unfold tightened_message; by rewrite Hf).
    apply elem_of_noted; [apply common_key; by exists f, g|].
    by eapply tightened_true.
Qed.

(** The verdict that is returned has a message. *)
Lemma verdict_has_message old_fields new_fields :
  (verdict (after_loops old_fields new_fields)).2 ≠ [].
Proof.
  unfold verdict. simpl.
  destruct (is_compatible (after_loops old_fields new_fields)) eqn:Hc.
  - rewrite (after_loops_compatible _ _ Hc). done.
  - simpl. destruct (after_loops_messages old_fields new_fields) as (H1 & H2 & H3).
    intros Hnil. rewrite Hnil in H1, H2, H3.
    apply after_loops_incompatible in Hc
      as [(i & f & Hf & Hg & Hr)
         |[(i & f & g & t & u & Hf & Hg & Ht & Hu & Hne & Hp)
          |(i & f & g & Hf & Hg & Hn & Hr)]].
    + by eapply elem_of_nil, H1.
    + by eapply elem_of_nil, H2.
    + by eapply elem_of_nil, H3.
Qed.

(** The causes of incompatibility and the faults look at the new field set
    only at the ids that the old field set has. *)
Lemma causes_local old_fields new_fields new_fields' :
  (forall i, is_Some (old_fields !! i) -> new_fields' !! i = new_fields !! i) ->
  required_field_removed old_fields new_fields
  \/ unsafe_type_change old_fields new_fields
  \/ nullability_tightened old_fields new_fields ->
  required_field_removed old_fields new_fields'
  \/ unsafe_type_change old_fields new_fields'
  \/ nullability_tightened old_fields new_fields'.
Proof.
  intros Hagree
    [(i & f & Hf & Hg & Hr)
    |[(i & f & g & t & u & Hf & Hg & Ht & Hu & Hne & Hp)
     |(i & f & g & Hf & Hg & Hn & Hr)]].
  - left. exists i, f. by rewrite Hagree.
  - right; left. exists i, f, g, t, u. by rewrite Hagree.
  - right; right. exists i, f, g. by rewrite Hagree.
Qed.

Lemma first_fault_ext {A} (fault fault' : A -> option Exc) (xs : list A) :
  (forall x, x ∈ xs -> fault x = fault' x) ->
  first_fault fault xs = first_fault fault' xs.
Proof.
  induction xs as [|x xs IH]; intros Hext; [done|]. simpl.
  rewrite <-(Hext x) by (by left). rewrite IH; [done|].
  intros y Hy. apply Hext. by right.
Qed.

Lemma loops_fault_local old_fields new_fields new_fields' :
  (forall i, is_Some (old_fields !! i) -> new_fields' !! i = new_fields !! i) ->
  loops_fault old_fields new_fields' = loops_fault old_fields new_fields.
Proof.
  intros Hagree. unfold loops_fault. cbv zeta.
  assert (Hdom : dom old_fields ∩ dom new_fields' = dom old_fields ∩ dom new_fields).
  { apply set_eq. intros i. rewrite !elem_of_intersection, !elem_of_dom.
    split; intros [Ho Hn]; (split; [done|]).
    - by rewrite <-Hagree.
    - by rewrite Hagree. }
  rewrite Hdom.
  rewrite (first_fault_ext (removed_fault new_fields') (removed_fault new_fields)).
  2:{ intros [i f] Hin%elem_of_map_to_list. unfold removed_fault, removed_required.
      simpl. replace (bool_decide (i ∉ dom new_fields'))
        with (bool_decide (i ∉ dom new_fields)); [done|].
      apply bool_decide_ext. rewrite !not_elem_of_dom. by rewrite Hagree. }
  rewrite (first_fault_ext (type_fault old_fields new_fields')
             (type_fault old_fields new_fields)).
  2:{ intros i (f & g & Hf & Hg)%common_key. unfold type_fault.
      by rewrite Hagree. }
  rewrite (first_fault_ext (tightened_fault old_fields new_fields')
             (tightened_fault old_fields new_fields)); [done|].
  intros i (f & g & Hf & Hg)%common_key. unfold tightened_fault, tightened.
  by rewrite Hagree.
Qed.

(** Where no loop meets a fault, the fields that a message names have a
    name. *)
Lemma no_fault_names old_fields new_fields :
  loops_fault old_fields new_fields = None ->
  (forall i f, old_fields !! i = Some f -> new_fields !! i = None ->
     is_required f = true -> f_name f = Some (name_of f))
  /\ (forall i f g t u, old_fields !! i = Some f -> new_fields !! i = Some g ->
     f_type f = Some t -> f_type g = Some u -> t ≠ u -> promotes t u = false ->
     f_name f = Some (name_of f))
  /\ (forall i f g, old_fields !! i = Some f -> new_fields !! i = Some g ->
     is_required f = false -> is_required g = true -> f_name f = Some (name_of f)).
Proof.
  unfold loops_fault. cbv zeta.
  destruct (first_fault (removed_fault new_fields) _) eqn:H1; [done|].
  destruct (first_fault (type_fault old_fields new_fields) _) eqn:H2; [done|].
  intros H3. rewrite first_fault_None in H1. rewrite first_fault_None in H2.
  rewrite first_fault_None in H3. split_and!.
  - intros i f Hf Hg Hr.
    specialize (H1 (i, f) ltac:(by apply elem_of_map_to_list)).
    unfold removed_fault in H1.
    rewrite (proj2 (removed_required_true new_fields i f)) in H1 by done.
    simpl in H1. unfold name_of. by destruct (f_name f).
  - intros i f g t u Hf Hg Ht Hu Hne Hp.
    specialize (H2 i ltac:(apply common_key; by exists f, g)).
    unfold type_fault in H2. rewrite Hf, Hg, Ht, Hu in H2.
    rewrite bool_decide_eq_true_2 in H2 by done.
    destruct (_is_safe_type_promotion t u) as [b|e] eqn:Hsafe; [|done].
    rewrite <-(promotes_safe _ _ _ Hsafe), Hp in H2.
    unfold name_of. by destruct (f_name f).
  - intros i f g Hf Hg Hn Hr.
    specialize (H3 i ltac:(apply common_key; by exists f, g)).
    unfold tightened_fault in H3. rewrite Hf in H3.
    rewrite (proj2 (tightened_true old_fields new_fields i f g Hf Hg)) in H3 by done.
    unfold name_of. by destruct (f_name f).
Qed.

(** *** Schemas on which the check returns *)

(** A field with the three keys whose type is a type name. *)
Definition plain_field (f : Field) : Prop :=
  is_Some (f_id f) /\ is_Some (f_name f) /\ exists name, f_type f = Some (TypeName name).

Definition plain (schema : IcebergSchema) : Prop :=
  Forall plain_field (get_fields schema).

Lemma indexed_elem (fs : list Field) (i : Z) (f : Field) :
  indexed fs !! i = Some f -> f ∈ fs.
Proof.
  unfold indexed.
  assert (Hgen : forall m : gmap Z Field,
            foldl (fun m f => match f_id f with Some i => <[i := f]> m | None => m end)
                  m fs !! i = Some f ->
            f ∈ fs \/ m !! i = Some f).
  { induction fs as [|g fs IH]; intros m; simpl; [by right|].
    intros [Hin|Hm]%IH; [left; by right|].
    destruct (f_id g) as [j|]; [|by right].
    destruct (decide (i = j)) as [->|Hne].
    - rewrite lookup_insert_eq in Hm. injection Hm as ->. left. by left.
    - rewrite lookup_insert_ne in Hm by done. by right. }
  intros [Hin|Hm]%Hgen; [done|]. by rewrite lookup_empty in Hm.
Qed.

Lemma plain_by_id (schema : IcebergSchema) :
  plain schema ->
  by_id (get_fields schema) = Returned (indexed (get_fields schema))
  /\ forall i f, indexed (get_fields schema) !! i = Some f -> plain_field f.
Proof.
  intros Hplain. split.
  - rewrite by_id_eq.
    rewrite (proj2 (first_fault_None missing_id (get_fields schema))); [done|].
    intros f Hin. unfold plain, plain_field in Hplain. rewrite Forall_forall in Hplain.
    destruct (Hplain f Hin) as [[i Hi] _]. unfold missing_id. by rewrite Hi.
  - intros i f Hf%indexed_elem. unfold plain in Hplain.
    rewrite Forall_forall in Hplain. by apply Hplain.
Qed.

Lemma plain_no_fault (old_fields new_fields : gmap Z Field) :
  (forall i f, old_fields !! i = Some f -> plain_field f) ->
  (forall i f, new_fields !! i = Some f -> plain_field f) ->
  loops_fault old_fields new_fields = None.
Proof.
  intros Hold Hnew. unfold loops_fault. cbv zeta.
  rewrite (proj2 (first_fault_None (removed_fault new_fields) _)).
  2:{ intros [i f] Hin%elem_of_map_to_list. unfold removed_fault. simpl.
      destruct (Hold i f Hin) as (_ & [name ->] & _). by destruct (removed_required _ _). }
  rewrite (proj2 (first_fault_None (type_fault old_fields new_fields) _)).
  2:{ intros i (f & g & Hf & Hg)%common_key. unfold type_fault. rewrite Hf, Hg.
      destruct (Hold i f Hf) as (_ & [name ->] & [a ->]).
      destruct (Hnew i g Hg) as (_ & _ & [b ->]). simpl.
      destruct (bool_decide (TypeName a ≠ TypeName b)); [|done].
      by destruct (bool_decide ((a, b) ∈ safe_promotions)). }
  apply first_fault_None.
  intros i (f & g & Hf & Hg)%common_key. unfold tightened_fault. rewrite Hf.
  destruct (Hold i f Hf) as (_ & [name ->] & _). by destruct (tightened _ _ _).
Qed.


End Iceberg.

(** *** Concrete schemas *)

(** In the examples a nested type is a dictionary, given by what [str]
    shows of it. *)
Definition dict_unhashable (value : string) : string := "unhashable type: 'dict'".

Definition as_shown (value : string) : string := value.

(** The type of a list of strings. *)
Definition list_of_strings : string :=
  "{'type': 'list', 'element-id': 3, 'element-required': False, 'element': 'string'}".



End Iceberg.

(** ** [src/core/orchestrator.py] *)

Module Orchestrator.

Section Orchestrator.

(** The keyword arguments and the returned data of a dynamically chosen
    operation ([query_all]) are left abstract. *)
Context {Kwargs Data : Type}.

(** The part of [ISchemaRegistry] that the orchestrator calls.  A live
    instance is described by what each call gives during one orchestrator
    operation: a returned value or a raised exception.  [invoke] is
    [getattr(registry, operation)] called with the keyword arguments; it
    raises when the attribute is missing, when the arguments do not fit, or
    when the method does. *)
Record ISchemaRegistry := mkRegistry {
  invoke : string -> Kwargs -> Outcome Data;
  get_latest_schema : string -> Outcome Schema;
  health_check : Outcome HealthStatus;
  list_subjects : option string -> Outcome (list string);
  list_versions : string -> Outcome (list Z);
  get_schema_by_subject_version : string -> Z -> Outcome Schema;
  check_compatibility :
    string -> string -> SchemaFormat -> option Z -> Outcome CompatibilityResult
}.

(** A future of the pool, reduced to what [future.result()] does once the
    task is done: it returns the task's value or raises. *)
Record Future := mkFuture { future_result : Outcome CompatibilityResult }.

(** The dictionary [futures]: distinct future objects, each with its
    [(registry_id, subject)], in submission order. *)
Definition Futures : Type := list (Future * (string * string)).

(** [ThreadPoolExecutor(max_workers=10)], as long as [shutdown] has not been
    called: [submit] accepts the task, runs it and keeps its outcome in a
    future; [as_completed] hands the futures back in the order in which the
    pool finishes them, an order that the model leaves arbitrary. *)
Record ThreadPoolExecutor := mkExecutor {
  as_completed : Futures -> Futures
}.

Definition submit (task : Outcome CompatibilityResult) : Future := mkFuture task.

(** [as_completed] yields every future exactly once. *)
Definition yields_all (ex : ThreadPoolExecutor) : Prop :=
  forall futures, as_completed ex futures ≡ₚ futures.

Record MultiBackendOrchestrator := mkOrchestrator {
  active_registries : gmap string ISchemaRegistry;
  executor : ThreadPoolExecutor
}.

(** *** Cross-registry operations *)

(** An entry of the dictionary that [query_all] returns:
    [{"status": "success", "data": result}] or
    [{"status": "error", "error": str(e)}]. *)
Inductive QueryEntry :=
| success (data : Data)
| error (detail : string).

Definition query_all (self : MultiBackendOrchestrator) (operation : string)
    (kwargs : Kwargs) : Outcome (gmap string QueryEntry) :=
  Py.run
    (Py.for_each (map_to_list (active_registries self)) (fun '(instance_id, registry) =>
       Py.try_except
         (result ← Py.call (invoke registry operation kwargs);
          Py.modify (fun results => <[instance_id := success result]> results))
         (fun e =>
          Py.modify (fun results => <[instance_id := error (str e)]> results))))
    ∅
    (fun _ results => results).

Definition find_schema_across_registries (self : MultiBackendOrchestrator)
    (subject : string) : Outcome (gmap string Schema) :=
  Py.run
    (Py.for_each (map_to_list (active_registries self)) (fun '(instance_id, registry) =>
       Py.try_except
         (schema ← Py.call (get_latest_schema registry subject);
          Py.modify (fun results => <[instance_id := schema]> results))
         (fun e => mret tt)))
    ∅
    (fun _ results => results).

(** The status that [health_check_all] builds when the probe raises. *)
Definition exception_status (e : Exc) : HealthStatus :=
  mkHealthStatus false 0 ("Health check exception: " +:+ str e) PrimFloat.zero
                 {[ "error" := PyStr (str e) ]}.

Definition health_check_all (self : MultiBackendOrchestrator)
  : Outcome (gmap string HealthStatus) :=
  Py.run
    (Py.for_each (map_to_list (active_registries self)) (fun '(instance_id, registry) =>
       Py.try_except
         (health ← Py.call (health_check registry);
          Py.modify (fun results => <[instance_id := health]> results))
         (fun e =>
          Py.modify (fun results => <[instance_id := exception_status e]> results))))
    ∅
    (fun _ results => results).

(** *** Helper: the check of one subject *)

(** The locals [all_compatible] and [messages] of [_check_single_subject]. *)
Record CheckLocals := mkCheckLocals { all_compatible : bool; msgs : list string }.

(** [versions[-1]] *)
Definition last_item (versions : list Z) : Outcome Z :=
  match last versions with
  | Some v => Returned v
  | None => Raised (mkExc IndexError "list index out of range")
  end.

Definition check_failed_message (version : Z) (e : Exc) : string :=
  "Check failed for version " +:+ pretty version +:+ ": " +:+ str e.

Definition _check_single_subject (registry : ISchemaRegistry) (subject : string)
    (target_mode : CompatibilityMode) : Outcome CompatibilityResult :=
  Py.run
    (Py.try_except
       (versions ← Py.call (list_versions registry subject);
        if bool_decide (length versions < 2)
        then mret (mkCompatibilityResult true
                     ["Single version - no compatibility check needed"] target_mode [])
        else
          latest_version ← Py.call (last_item versions);
          latest ← Py.call (get_schema_by_subject_version registry subject latest_version);
          Py.modify (fun _ => mkCheckLocals true []) ;;
          Py.for_each (removelast versions) (fun version =>
            Py.try_except
              (result ← Py.call (check_compatibility registry subject
                                   (schema_content latest) (schema_format latest)
                                   (Some version));
               if negb (is_compatible result)
               then Py.modify (fun s => mkCheckLocals false (msgs s ++ messages result))
               else mret tt)
              (fun e =>
               Py.modify (fun s =>
                 mkCheckLocals false (msgs s ++ [check_failed_message version e])))) ;;
          s ← Py.locals;
          mret (mkCompatibilityResult (all_compatible s)
                  (if bool_decide (msgs s = []) then ["All versions compatible"] else msgs s)
                  target_mode []))
       (fun e => mret (mkCompatibilityResult false [] target_mode [str e])))
    (mkCheckLocals true [])
    (fun result _ => result).

(** *** Bulk operations *)

(** The locals [all_results], [compatible_count], [incompatible_count],
    [error_count] and [total_checked] of [bulk_check_compatibility]. *)
Record BulkLocals := mkBulkLocals {
  all_results : list ResultRecord;
  compatible_count : nat;
  incompatible_count : nat;
  error_count : nat;
  total_checked_count : nat
}.

Definition bulk_init : BulkLocals := mkBulkLocals [] 0 0 0 0.

Definition bulk_check_compatibility (self : MultiBackendOrchestrator)
    (registry_ids : list string) (target_mode : CompatibilityMode)
    (subject_filter : option string) (start_time end_time : float)
  : Outcome BulkCheckResult :=
  Py.run
    (Py.for_each registry_ids (fun registry_id =>
       match active_registries self !! registry_id with
       | None => mret tt
       | Some registry =>
         Py.try_except
           (subjects ← Py.call (list_subjects registry subject_filter);
            let futures : Futures :=
              (fun subject =>
                 (submit (_check_single_subject registry subject target_mode),
                  (registry_id, subject))) <$> subjects in
            Py.for_each (as_completed (executor self) futures)
              (fun '(future, (registry_id, subject)) =>
               Py.modify (fun s =>
                 mkBulkLocals (all_results s) (compatible_count s) (incompatible_count s)
                              (error_count s) (total_checked_count s + 1)) ;;
               Py.try_except
                 (result ← Py.call (future_result future);
                  Py.modify (fun s =>
                    mkBulkLocals
                      (all_results s ++ [mkResultRecord registry_id subject
                                           (is_compatible result) (messages result)
                                           (errors result)])
                      (compatible_count s) (incompatible_count s)
                      (error_count s) (total_checked_count s)) ;;
                  if is_compatible result
                  then Py.modify (fun s =>
                         mkBulkLocals (all_results s) (compatible_count s + 1)
                                      (incompatible_count s) (error_count s)
                                      (total_checked_count s))
                  else Py.modify (fun s =>
                         mkBulkLocals (all_results s) (compatible_count s)
                                      (incompatible_count s + 1) (error_count s)
                                      (total_checked_count s)))
                 (fun e =>
                  Py.modify (fun s =>
                    mkBulkLocals
                      (all_results s ++ [mkResultRecord registry_id subject false []
                                           [str e]])
                      (compatible_count s) (incompatible_count s)
                      (error_count s + 1) (total_checked_count s)))))
           (fun e =>
            Py.modify (fun s =>
              mkBulkLocals (all_results s) (compatible_count s) (incompatible_count s)
                           (error_count s + 1) (total_checked_count s)))
       end))
    bulk_init
    (fun _ s =>
       mkBulkCheckResult (total_checked_count s) (compatible_count s)
                         (incompatible_count s) (error_count s)
                         (PrimFloat.sub end_time start_time) (all_results s)).

(** *** Loops that fill a result dictionary from the instance map *)

(** [results[k] = x] when the body has an [x] to store, nothing otherwise. *)
Definition store {E} (k : string) (o : option E) (results : gmap string E)
  : gmap string E :=
  match o with
  | Some x => <[k := x]> results
  | None => results
  end.

Lemma foldl_store_lookup {V E} (g : string -> V -> option E)
    (l : list (string * V)) (r0 : gmap string E) (i : string) :
  NoDup l.*1 ->
  foldl (fun r p => store p.1 (g p.1 p.2) r) r0 l !! i
  = match (list_to_map l : gmap string V) !! i ≫= g i with
    | Some x => Some x
    | None => r0 !! i
    end.
Proof.
  revert r0. induction l as [|[k v] l IH]; intros r0 Hnd; [done|].
  apply NoDup_cons in Hnd as [Hk Hnd]. simpl. rewrite IH by done.
  destruct (decide (i = k)) as [->|Hne].
  - rewrite (not_elem_of_list_to_map_1 l k Hk), lookup_insert_eq. simpl.
    unfold store. destruct (g k v); [by rewrite lookup_insert_eq|done].
  - rewrite lookup_insert_ne by done.
    destruct (list_to_map l !! i ≫= g i); [done|].
    unfold store. destruct (g k v); [by rewrite lookup_insert_ne|done].
Qed.

Lemma run_collect {V E} (m : gmap string V)
    (body : string * V -> PyM (gmap string E) unit) (g : string -> V -> option E) :
  (forall k v r, body (k, v) r = (Returned tt, store k (g k v) r)) ->
  Py.run (Py.for_each (map_to_list m) body) ∅ (fun _ results => results)
  = Returned (map_imap g m).
Proof.
  intros Hbody. unfold Py.run.
  rewrite (for_each_steps _ _ (fun r p => store p.1 (g p.1 p.2) r))
    by (intros [k v] _ r; apply Hbody).
  f_equal. apply map_eq. intros i.
  rewrite foldl_store_lookup by apply NoDup_fst_map_to_list.
  rewrite list_to_map_to_list, map_lookup_imap, lookup_empty.
  by destruct (m !! i ≫= g i).
Qed.

Lemma imap_total_dom {V E} (g : string -> V -> E) (m : gmap string V) :
  dom (map_imap (fun k v => Some (g k v)) m) = dom m.
Proof.
  apply dom_imap_L. intros i. rewrite elem_of_dom. split.
  - intros [x Hx]. by exists x.
  - intros (x & Hx & _). by exists x.
Qed.

Lemma imap_total_size {V E} (g : string -> V -> E) (m : gmap string V) :
  size (map_imap (fun k v => Some (g k v)) m) = size m.
Proof. by rewrite <-!size_dom, imap_total_dom. Qed.

(** The entry that [query_all] stores for one instance. *)
Definition query_entry (operation : string) (kwargs : Kwargs)
    (registry : ISchemaRegistry) : QueryEntry :=
  match invoke registry operation kwargs with
  | Returned data => success data
  | Raised e => error (str e)
  end.

Lemma query_all_eq self operation kwargs :
  query_all self operation kwargs
  = Returned (map_imap (fun _ registry => Some (query_entry operation kwargs registry))
                       (active_registries self)).
Proof.
  apply run_collect. intros k v r.
  unfold Py.try_except, mbind, PyM_bind, Py.call, Py.modify, query_entry.
  by destruct (invoke v operation kwargs).
Qed.

(** C1: [query_all] returns a dictionary with exactly one entry per live
    instance: the success entry with the returned data if the call returns,
    the error entry with the text of the exception if it raises; the entry
    of an instance does not depend on the other instances, and the number of
    entries is the number of live instances. *)
Theorem C1_query_all_isolation (self : MultiBackendOrchestrator)
    (operation : string) (kwargs : Kwargs) :
  exists results,
    query_all self operation kwargs = Returned results
    /\ dom results = dom (active_registries self)
    /\ size results = size (active_registries self)
    /\ (forall instance_id registry data,
          active_registries self !! instance_id = Some registry ->
          invoke registry operation kwargs = Returned data ->
          results !! instance_id = Some (success data))
    /\ (forall instance_id registry e,
          active_registries self !! instance_id = Some registry ->
          invoke registry operation kwargs = Raised e ->
          results !! instance_id = Some (error (str e)))
    /\ (forall self' instance_id,
          active_registries self' !! instance_id = active_registries self !! instance_id ->
          exists results',
            query_all self' operation kwargs = Returned results'
            /\ results' !! instance_id = results !! instance_id).
Proof.
  eexists. split; [apply query_all_eq|]. split_and!.
  - apply imap_total_dom.
  - apply imap_total_size.
  - intros i reg data Hi Hcall. rewrite map_lookup_imap, Hi. simpl.
    unfold query_entry. by rewrite Hcall.
  - intros i reg e Hi Hcall. rewrite map_lookup_imap, Hi. simpl.
    unfold query_entry. by rewrite Hcall.
  - intros self' i Hi. eexists. split; [apply query_all_eq|].
    by rewrite !map_lookup_imap, Hi.
Qed.

(** The status that [health_check_all] stores for one instance. *)
Definition health_entry (registry : ISchemaRegistry) : HealthStatus :=
  match health_check registry with
  | Returned health => health
  | Raised e => exception_status e
  end.

Lemma health_check_all_eq self :
  health_check_all self
  = Returned (map_imap (fun _ registry => Some (health_entry registry))
                       (active_registries self)).
Proof.
  apply run_collect. intros k v r.
  unfold Py.try_except, mbind, PyM_bind, Py.call, Py.modify, health_entry.
  by destruct (health_check v).
Qed.

(** C2: [health_check_all] always returns, with one status per live
    instance: the status that the probe returned, or, when the probe raised,
    an unhealthy status whose message carries the text of the exception. *)
Theorem C2_health_check_all_never_fails (self : MultiBackendOrchestrator) :
  exists results,
    health_check_all self = Returned results
    /\ dom results = dom (active_registries self)
    /\ (forall instance_id registry health,
          active_registries self !! instance_id = Some registry ->
          health_check registry = Returned health ->
          results !! instance_id = Some health)
    /\ (forall instance_id registry e,
          active_registries self !! instance_id = Some registry ->
          health_check registry = Raised e ->
          exists status,
            results !! instance_id = Some status
            /\ healthy status = false
            /\ message status = "Health check exception: " +:+ str e
            /\ health_metadata status !! "error" = Some (PyStr (str e))).
Proof.
  eexists. split; [apply health_check_all_eq|]. split_and!.
  - apply imap_total_dom.
  - intros i reg health Hi Hcall. rewrite map_lookup_imap, Hi. simpl.
    unfold health_entry. by rewrite Hcall.
  - intros i reg e Hi Hcall. exists (exception_status e). split_and!; try done.
    rewrite map_lookup_imap, Hi. simpl. unfold health_entry. by rewrite Hcall.
Qed.

(** What [find_schema_across_registries] stores for one instance. *)
Definition found_schema (subject : string) (registry : ISchemaRegistry) : option Schema :=
  match get_latest_schema registry subject with
  | Returned schema => Some schema
  | Raised _ => None
  end.

Lemma find_schema_across_registries_eq self subject :
  find_schema_across_registries self subject
  = Returned (map_imap (fun _ registry => found_schema subject registry)
                       (active_registries self)).
Proof.
  apply run_collect. intros k v r.
  unfold Py.try_except, mbind, PyM_bind, Py.call, Py.modify, found_schema.
  by destruct (get_latest_schema v subject).
Qed.

(** The subject is absent from an instance: [get_latest_schema] raises the
    [KeyError] that the interface documents for a subject that is not found. *)
Definition subject_absent (registry : ISchemaRegistry) (subject : string) : Prop :=
  exists e, get_latest_schema registry subject = Raised e /\ exc_class e = KeyError.

(** C9 (amended): [find_schema_across_registries] always returns; the
    dictionary maps an instance id to the latest schema that the instance
    returned; a live instance is left out exactly when its
    [get_latest_schema] call raises, whatever the exception; in particular
    an instance where the subject is absent is left out. *)
Theorem C9_find_schema_omits_failing_instances (self : MultiBackendOrchestrator)
    (subject : string) :
  exists results,
    find_schema_across_registries self subject = Returned results
    /\ (forall instance_id schema,
          results !! instance_id = Some schema <->
          exists registry,
            active_registries self !! instance_id = Some registry
            /\ get_latest_schema registry subject = Returned schema)
    /\ (forall instance_id registry,
          active_registries self !! instance_id = Some registry ->
          results !! instance_id = None <->
          exists e, get_latest_schema registry subject = Raised e)
    /\ (forall instance_id registry,
          active_registries self !! instance_id = Some registry ->
          subject_absent registry subject ->
          results !! instance_id = None).
Proof.
  eexists. split; [apply find_schema_across_registries_eq|]. split_and!.
  - intros i schema. rewrite map_lookup_imap. unfold found_schema. split.
    + destruct (active_registries self !! i) as [reg|]; [|done]. simpl.
      destruct (get_latest_schema reg subject) eqn:E; [|done].
      intros [= <-]. by exists reg.
    + intros (reg & -> & Hcall). simpl. by rewrite Hcall.
  - intros i reg Hi. rewrite map_lookup_imap, Hi. simpl. unfold found_schema.
    destruct (get_latest_schema reg subject) as [schema|e]; split; try done.
    + by intros [e' ?].
    + by exists e.
  - intros i reg Hi (e & Hcall & _). rewrite map_lookup_imap, Hi. simpl.
    unfold found_schema. by rewrite Hcall.
Qed.

(** *** The check of one subject *)

(** The verdict and the messages that the check against one prior version
    contributes. *)
Definition version_compatible (registry : ISchemaRegistry) (subject : string)
    (latest : Schema) (version : Z) : bool :=
  match check_compatibility registry subject (schema_content latest)
          (schema_format latest) (Some version) with
  | Returned result => is_compatible result
  | Raised _ => false
  end.

Definition version_messages (registry : ISchemaRegistry) (subject : string)
    (latest : Schema) (version : Z) : list string :=
  match check_compatibility registry subject (schema_content latest)
          (schema_format latest) (Some version) with
  | Returned result => if is_compatible result then [] else messages result
  | Raised e => [check_failed_message version e]
  end.

Definition version_step (registry : ISchemaRegistry) (subject : string)
    (latest : Schema) (s : CheckLocals) (version : Z) : CheckLocals :=
  mkCheckLocals (all_compatible s && version_compatible registry subject latest version)
                (msgs s ++ version_messages registry subject latest version).

Lemma foldl_version_step registry subject latest prior s :
  foldl (version_step registry subject latest) s prior
  = mkCheckLocals
      (all_compatible s && forallb (version_compatible registry subject latest) prior)
      (msgs s ++ concat (version_messages registry subject latest <$> prior)).
Proof.
  revert s. induction prior as [|v prior IH]; intros [ok ms]; simpl.
  - by rewrite andb_true_r, app_nil_r.
  - rewrite IH. simpl. by rewrite andb_assoc, app_assoc.
Qed.

(** The result of [_check_single_subject] for a subject with at least two
    versions whose latest schema can be fetched. *)
Definition history_result (registry : ISchemaRegistry) (subject : string)
    (target_mode : CompatibilityMode) (latest : Schema) (prior : list Z)
  : CompatibilityResult :=
  let collected := concat (version_messages registry subject latest <$> prior) in
  mkCompatibilityResult
    (forallb (version_compatible registry subject latest) prior)
    (if bool_decide (collected = []) then ["All versions compatible"] else collected)
    target_mode [].

Lemma check_single_subject_history registry subject target_mode
    versions latest_version latest :
  list_versions registry subject = Returned versions ->
  2 <= length versions ->
  last versions = Some latest_version ->
  get_schema_by_subject_version registry subject latest_version = Returned latest ->
  _check_single_subject registry subject target_mode
  = Returned (history_result registry subject target_mode latest (removelast versions)).
Proof.
  intros Hv Hlen Hlast Hlatest.
  unfold _check_single_subject, Py.run, Py.try_except, mbind, PyM_bind, Py.call.
  rewrite Hv. rewrite bool_decide_eq_false_2 by lia.
  unfold last_item. rewrite Hlast, Hlatest. simpl.
  rewrite (for_each_steps _ _ (version_step registry subject latest)).
  - rewrite foldl_version_step. done.
  - intros v _ [ok ms].
    unfold version_step, version_compatible, version_messages, Py.modify, mret, PyM_ret.
    simpl.
    destruct (check_compatibility _ _ _ _ _) as [result|e]; simpl.
    + destruct (is_compatible result); simpl.
      * by rewrite andb_true_r, app_nil_r.
      * by rewrite andb_false_r.
    + by rewrite andb_false_r.
Qed.

Lemma forallb_false_intro {A} (p : A -> bool) (xs : list A) :
  (exists x, x ∈ xs /\ p x = false) -> forallb p xs = false.
Proof.
  intros (x & Hx & Hp). apply not_true_iff_false. intros Hall.
  rewrite forallb_forall in Hall. specialize (Hall x). rewrite Hp in Hall.
  discriminate Hall. by apply list_elem_of_In.
Qed.

(** [_check_single_subject] never raises. *)
Lemma check_single_subject_returns registry subject target_mode :
  exists result, _check_single_subject registry subject target_mode = Returned result.
Proof.
  destruct (list_versions registry subject) as [versions|e] eqn:Hv.
  - destruct (decide (length versions < 2)) as [Hlt|Hge].
    + unfold _check_single_subject, Py.run, Py.try_except, mbind, PyM_bind, Py.call.
      rewrite Hv, bool_decide_eq_true_2 by done. by eexists.
    + destruct (last versions) as [latest_version|] eqn:Hlast.
      * destruct (get_schema_by_subject_version registry subject latest_version)
          as [latest|e] eqn:Hlatest.
        -- eexists. eapply check_single_subject_history; [done|lia|done|done].
        -- unfold _check_single_subject, Py.run, Py.try_except, mbind, PyM_bind, Py.call.
           rewrite Hv, bool_decide_eq_false_2 by done.
           unfold last_item. rewrite Hlast, Hlatest. by eexists.
      * apply last_None in Hlast. subst versions. simpl in Hge. lia.
  - unfold _check_single_subject, Py.run, Py.try_except, mbind, PyM_bind, Py.call.
    rewrite Hv. by eexists.
Qed.

(** A check that raises counts as an incompatibility, leaves a message that
    names the version, and does not stop the checks of the other versions:
    the messages of every incompatible prior version are in the result. *)
Lemma check_single_subject_raising_version registry subject target_mode
    versions latest_version latest version e :
  list_versions registry subject = Returned versions ->
  2 <= length versions ->
  last versions = Some latest_version ->
  get_schema_by_subject_version registry subject latest_version = Returned latest ->
  version ∈ removelast versions ->
  check_compatibility registry subject (schema_content latest) (schema_format latest)
    (Some version) = Raised e ->
  exists result,
    _check_single_subject registry subject target_mode = Returned result
    /\ is_compatible result = false
    /\ check_failed_message version e ∈ messages result
    /\ errors result = []
    /\ (forall version' m,
          version' ∈ removelast versions ->
          m ∈ version_messages registry subject latest version' ->
          m ∈ messages result).
Proof.
  intros Hv Hlen Hlast Hlatest Hin Hraise.
  eexists. split; [by eapply check_single_subject_history|].
  assert (Hall : forall version' m,
            version' ∈ removelast versions ->
            m ∈ version_messages registry subject latest version' ->
            m ∈ messages (history_result registry subject target_mode latest
                            (removelast versions))).
  { intros v' m Hv' Hm. simpl.
    assert (Hc : m ∈ concat (version_messages registry subject latest
                               <$> removelast versions)).
    { apply list_elem_of_In, in_concat. eexists. split; [|by apply list_elem_of_In].
      apply list_elem_of_In, list_elem_of_fmap. by exists v'. }
    case_bool_decide as Hnil; [|done]. rewrite Hnil in Hc. by apply elem_of_nil in Hc. }
  split_and!; [| |done|done].
  - simpl. apply forallb_false_intro. exists version. split; [done|].
    unfold version_compatible. by rewrite Hraise.
  - apply (Hall version); [done|]. unfold version_messages. rewrite Hraise.
    by apply list_elem_of_singleton.
Qed.

Lemma compatible_versions_no_messages registry subject latest (prior : list Z) :
  (forall version, version ∈ prior ->
     version_compatible registry subject latest version = true) ->
  concat (version_messages registry subject latest <$> prior) = [].
Proof.
  induction prior as [|v prior IH]; intros Hall; [done|].
  rewrite fmap_cons, concat_cons.
  rewrite IH by (intros v' Hv'; apply Hall; by right).
  specialize (Hall v ltac:(by left)).
  unfold version_compatible in Hall. unfold version_messages.
  destruct (check_compatibility _ _ _ _ _); [by rewrite Hall|done].
Qed.

(** When the latest schema is compatible with every prior version, the
    result is compatible with the default message. *)
Lemma check_single_subject_all_compatible registry subject target_mode
    versions latest_version latest :
  list_versions registry subject = Returned versions ->
  2 <= length versions ->
  last versions = Some latest_version ->
  get_schema_by_subject_version registry subject latest_version = Returned latest ->
  (forall version, version ∈ removelast versions ->
     version_compatible registry subject latest version = true) ->
  _check_single_subject registry subject target_mode
  = Returned (mkCompatibilityResult true ["All versions compatible"] target_mode []).
Proof.
  intros Hv Hlen Hlast Hlatest Hall.
  rewrite (check_single_subject_history _ _ _ _ _ _ Hv Hlen Hlast Hlatest).
  unfold history_result.
  assert (Hok : forallb (version_compatible registry subject latest)
                  (removelast versions) = true).
  { apply forallb_forall. intros v Hin. by apply Hall, list_elem_of_In. }
  by rewrite Hok, compatible_versions_no_messages.
Qed.

(** *** Bulk check: what every future and every registry adds *)

(** The locals after adding the records and the counts of [d] to [s]. *)
Definition plus (s d : BulkLocals) : BulkLocals :=
  mkBulkLocals (all_results s ++ all_results d)
               (compatible_count s + compatible_count d)
               (incompatible_count s + incompatible_count d)
               (error_count s + error_count d)
               (total_checked_count s + total_checked_count d).

(** What collecting one future adds. *)
Definition future_delta (x : Future * (string * string)) : BulkLocals :=
  let '(future, (registry_id, subject)) := x in
  match future_result future with
  | Returned result =>
      mkBulkLocals [mkResultRecord registry_id subject (is_compatible result)
                      (messages result) (errors result)]
                   (if is_compatible result then 1 else 0)
                   (if is_compatible result then 0 else 1)
                   0 1
  | Raised e =>
      mkBulkLocals [mkResultRecord registry_id subject false [] [str e]] 0 0 1 1
  end.

(** What a failed listing adds. *)
Definition listing_error : BulkLocals := mkBulkLocals [] 0 0 1 0.

Definition tally (futures : Futures) : BulkLocals :=
  foldr (fun x acc => plus (future_delta x) acc) bulk_init futures.

Definition submitted (registry : ISchemaRegistry) (registry_id : string)
    (target_mode : CompatibilityMode) (subjects : list string) : Futures :=
  (fun subject =>
     (submit (_check_single_subject registry subject target_mode),
      (registry_id, subject))) <$> subjects.

(** What one element of [registry_ids] adds. *)
Definition contribution (self : MultiBackendOrchestrator)
    (target_mode : CompatibilityMode) (subject_filter : option string)
    (registry_id : string) : BulkLocals :=
  match active_registries self !! registry_id with
  | None => bulk_init
  | Some registry =>
      match list_subjects registry subject_filter with
      | Raised _ => listing_error
      | Returned subjects =>
          tally (as_completed (executor self)
                   (submitted registry registry_id target_mode subjects))
      end
  end.

Definition bulk_total (self : MultiBackendOrchestrator)
    (target_mode : CompatibilityMode) (subject_filter : option string)
    (registry_ids : list string) : BulkLocals :=
  foldr (fun registry_id acc => plus (contribution self target_mode subject_filter registry_id) acc)
        bulk_init registry_ids.

(** 1 when the listing of a requested live registry fails, 0 otherwise. *)
Definition listing_failure (self : MultiBackendOrchestrator)
    (subject_filter : option string) (registry_id : string) : nat :=
  match active_registries self !! registry_id with
  | Some registry =>
      match list_subjects registry subject_filter with
      | Raised _ => 1
      | Returned _ => 0
      end
  | None => 0
  end.

Definition listing_failures (self : MultiBackendOrchestrator)
    (subject_filter : option string) (registry_ids : list string) : nat :=
  sum_list (listing_failure self subject_filter <$> registry_ids).

Lemma plus_assoc s d1 d2 : plus (plus s d1) d2 = plus s (plus d1 d2).
Proof. unfold plus. simpl. f_equal; [by rewrite app_assoc|lia..]. Qed.

Lemma plus_init_r s : plus s bulk_init = s.
Proof. destruct s. unfold plus. simpl. f_equal; [by rewrite app_nil_r|lia..]. Qed.

Lemma plus_init_l s : plus bulk_init s = s.
Proof. by destruct s. Qed.

Lemma foldl_plus {A} (d : A -> BulkLocals) (xs : list A) (s : BulkLocals) :
  foldl (fun s x => plus s (d x)) s xs
  = plus s (foldr (fun x acc => plus (d x) acc) bulk_init xs).
Proof.
  revert s. induction xs as [|x xs IH]; intros s; simpl.
  - by rewrite plus_init_r.
  - by rewrite IH, plus_assoc.
Qed.

Lemma bulk_total_app self target_mode subject_filter l1 l2 :
  bulk_total self target_mode subject_filter (l1 ++ l2)
  = plus (bulk_total self target_mode subject_filter l1)
         (bulk_total self target_mode subject_filter l2).
Proof.
  induction l1 as [|r l1 IH]; simpl.
  - by rewrite plus_init_l.
  - unfold bulk_total in *. simpl. by rewrite IH, plus_assoc.
Qed.

(** The collection loop adds [tally] of the futures it is given. *)
Lemma collect_loop (futures : Futures) (s : BulkLocals) :
  Py.for_each futures
    (fun '(future, (registry_id, subject)) =>
       Py.modify (fun s =>
         mkBulkLocals (all_results s) (compatible_count s) (incompatible_count s)
                      (error_count s) (total_checked_count s + 1)) ;;
       Py.try_except
         (result ← Py.call (future_result future);
          Py.modify (fun s =>
            mkBulkLocals
              (all_results s ++ [mkResultRecord registry_id subject
                                   (is_compatible result) (messages result)
                                   (errors result)])
              (compatible_count s) (incompatible_count s)
              (error_count s) (total_checked_count s)) ;;
          if is_compatible result
          then Py.modify (fun s =>
                 mkBulkLocals (all_results s) (compatible_count s + 1)
                              (incompatible_count s) (error_count s)
                              (total_checked_count s))
          else Py.modify (fun s =>
                 mkBulkLocals (all_results s) (compatible_count s)
                              (incompatible_count s + 1) (error_count s)
                              (total_checked_count s)))
         (fun e =>
          Py.modify (fun s =>
            mkBulkLocals
              (all_results s ++ [mkResultRecord registry_id subject false []
                                   [str e]])
              (compatible_count s) (incompatible_count s)
              (error_count s + 1) (total_checked_count s))))
    s
  = (Returned tt, plus s (tally futures)).
Proof.
  rewrite (for_each_steps _ _ (fun s x => plus s (future_delta x))).
  - by rewrite foldl_plus.
  - intros [[task] [registry_id subject]] _ [rs c i e t].
    unfold Py.try_except, mbind, PyM_bind, Py.call, Py.modify, plus, future_delta.
    simpl. destruct task as [result|exc]; simpl.
    + destruct (is_compatible result); simpl; do 2 f_equal; lia.
    + do 2 f_equal; lia.
Qed.

(** [bulk_check_compatibility] always returns, and its result is read off
    the sum of the contributions of the requested registries. *)
Lemma bulk_check_compatibility_eq self registry_ids target_mode subject_filter
    start_time end_time :
  bulk_check_compatibility self registry_ids target_mode subject_filter
    start_time end_time
  = let s := bulk_total self target_mode subject_filter registry_ids in
    Returned (mkBulkCheckResult (total_checked_count s) (compatible_count s)
                (incompatible_count s) (error_count s)
                (PrimFloat.sub end_time start_time) (all_results s)).
Proof.
  unfold bulk_check_compatibility, Py.run.
  rewrite (for_each_steps _ _
             (fun s r => plus s (contribution self target_mode subject_filter r))).
  - rewrite foldl_plus, plus_init_l. done.
  - intros r _ s. unfold contribution.
    destruct (active_registries self !! r) as [registry|].
    + unfold Py.try_except, mbind at 1, PyM_bind at 1, Py.call.
      destruct (list_subjects registry subject_filter) as [subjects|e].
      * fold (submitted registry r target_mode subjects). by rewrite collect_loop.
      * unfold Py.modify, plus, listing_error. simpl.
        do 2 f_equal; [by rewrite app_nil_r|lia..].
    + by rewrite plus_init_r.
Qed.

(** *** Counting *)

(** The counts of [d] add up once [n] failed listings are set aside, and
    every attempted check has left one record. *)
Definition balanced (n : nat) (d : BulkLocals) : Prop :=
  total_checked_count d + n
  = compatible_count d + incompatible_count d + error_count d
  /\ total_checked_count d = length (all_results d).

Lemma balanced_init : balanced 0 bulk_init.
Proof. by split. Qed.

Lemma balanced_plus n m s d :
  balanced n s -> balanced m d -> balanced (n + m) (plus s d).
Proof.
  intros [Hs1 Hs2] [Hd1 Hd2]. split; simpl; [lia|].
  rewrite length_app. lia.
Qed.

Lemma balanced_future_delta x : balanced 0 (future_delta x).
Proof.
  destruct x as [[task] [registry_id subject]]. unfold future_delta. simpl.
  destruct task as [result|e]; [destruct (is_compatible result)|]; by split.
Qed.

Lemma balanced_tally futures : balanced 0 (tally futures).
Proof.
  induction futures as [|x futures IH]; [apply balanced_init|].
  apply (balanced_plus 0 0); [apply balanced_future_delta|apply IH].
Qed.

Lemma balanced_contribution self target_mode subject_filter registry_id :
  balanced (listing_failure self subject_filter registry_id)
           (contribution self target_mode subject_filter registry_id).
Proof.
  unfold listing_failure, contribution.
  destruct (active_registries self !! registry_id) as [registry|];
    [|apply balanced_init].
  destruct (list_subjects registry subject_filter); [apply balanced_tally|by split].
Qed.

Lemma balanced_bulk_total self target_mode subject_filter registry_ids :
  balanced (listing_failures self subject_filter registry_ids)
           (bulk_total self target_mode subject_filter registry_ids).
Proof.
  induction registry_ids as [|r registry_ids IH]; [apply balanced_init|].
  apply balanced_plus; [apply balanced_contribution|apply IH].
Qed.

Lemma listing_failures_le_errors self target_mode subject_filter registry_ids :
  listing_failures self subject_filter registry_ids
  <= error_count (bulk_total self target_mode subject_filter registry_ids).
Proof.
  unfold listing_failures, bulk_total.
  induction registry_ids as [|r registry_ids IH]; simpl; [lia|].
  assert (listing_failure self subject_filter r
          <= error_count (contribution self target_mode subject_filter r)).
  { unfold listing_failure, contribution.
    destruct (active_registries self !! r) as [registry|]; [|simpl; lia].
    destruct (list_subjects registry subject_filter); simpl; lia. }
  unfold fmap in *. lia.
Qed.

(** C10: every result of [bulk_check_compatibility] satisfies
    compatible + incompatible <= total_checked
    <= compatible + incompatible + errors; total_checked is the number of
    records, one per attempted check, and the errors that exceed
    total_checked - compatible - incompatible are exactly the failed
    listings of requested registries. *)
Theorem C10_bulk_counts (self : MultiBackendOrchestrator) (registry_ids : list string)
    (target_mode : CompatibilityMode) (subject_filter : option string)
    (start_time end_time : float) :
  exists res,
    bulk_check_compatibility self registry_ids target_mode subject_filter
      start_time end_time = Returned res
    /\ compatible res + incompatible res <= total_checked res
    /\ total_checked res <= compatible res + incompatible res + bulk_errors res
    /\ total_checked res = length (results res)
    /\ total_checked res + listing_failures self subject_filter registry_ids
       = compatible res + incompatible res + bulk_errors res.
Proof.
  eexists. split; [apply bulk_check_compatibility_eq|]. cbv zeta. simpl.
  destruct (balanced_bulk_total self target_mode subject_filter registry_ids)
    as [Hsum Hlen].
  pose proof (listing_failures_le_errors self target_mode subject_filter registry_ids)
    as Hfail.
  split_and!; [lia|lia|done|done].
Qed.

(** Since [_check_single_subject] never raises, no future of the pool does:
    the handler of a failed [future.result()] does not run, and the errors
    are the failed listings. *)
Lemma tally_no_errors (futures : Futures) :
  (forall x, x ∈ futures -> exists result, future_result x.1 = Returned result) ->
  error_count (tally futures) = 0.
Proof.
  induction futures as [|x futures IH]; intros Hall; [done|].
  simpl. rewrite IH by (intros y Hy; apply Hall; by right).
  destruct (Hall x ltac:(by left)) as [result Hx].
  destruct x as [future [registry_id subject]]. simpl in *. by rewrite Hx.
Qed.

Lemma errors_are_listing_failures self target_mode subject_filter registry_ids :
  yields_all (executor self) ->
  error_count (bulk_total self target_mode subject_filter registry_ids)
  = listing_failures self subject_filter registry_ids.
Proof.
  intros Hall. unfold bulk_total, listing_failures.
  induction registry_ids as [|r registry_ids IH]; [done|].
  simpl. unfold fmap in *. rewrite IH. f_equal.
  unfold contribution, listing_failure.
  destruct (active_registries self !! r) as [registry|]; [|done].
  destruct (list_subjects registry subject_filter) as [subjects|e]; [|done].
  apply tally_no_errors. intros x Hx. rewrite (Hall _) in Hx.
  apply list_elem_of_fmap in Hx as (subject & -> & _). simpl.
  apply check_single_subject_returns.
Qed.

(** *** Isolation of a failed listing *)

Lemma tally_record (futures : Futures) future registry_id subject result :
  (future, (registry_id, subject)) ∈ futures ->
  future_result future = Returned result ->
  mkResultRecord registry_id subject (is_compatible result) (messages result)
                 (errors result) ∈ all_results (tally futures).
Proof.
  intros Hin Hres. induction futures as [|x futures IH]; [by apply elem_of_nil in Hin|].
  simpl. apply elem_of_app. apply elem_of_cons in Hin as [<-|Hin].
  - left. simpl. rewrite Hres. by apply list_elem_of_singleton.
  - right. by apply IH.
Qed.

Lemma bulk_total_records self target_mode subject_filter registry_ids registry_id rec :
  registry_id ∈ registry_ids ->
  rec ∈ all_results (contribution self target_mode subject_filter registry_id) ->
  rec ∈ all_results (bulk_total self target_mode subject_filter registry_ids).
Proof.
  intros Hin Hrec. induction registry_ids as [|r registry_ids IH];
    [by apply elem_of_nil in Hin|].
  simpl. apply elem_of_app. apply elem_of_cons in Hin as [<-|Hin].
  - by left.
  - right. by apply IH.
Qed.

(** C3: when the listing of one requested registry fails, the result is the
    one of the same request without that registry, except for one more
    error: same records, same compatible and incompatible counts; and, the
    pool yielding every future, the records of every subject of every other
    requested registry are there. *)
Theorem C3_listing_failure_isolated (self : MultiBackendOrchestrator)
    (before after : list string) (failed : string) (registry : ISchemaRegistry)
    (e : Exc) (target_mode : CompatibilityMode) (subject_filter : option string)
    (start_time end_time : float) :
  active_registries self !! failed = Some registry ->
  list_subjects registry subject_filter = Raised e ->
  exists res res',
    bulk_check_compatibility self (before ++ failed :: after) target_mode
      subject_filter start_time end_time = Returned res
    /\ bulk_check_compatibility self (before ++ after) target_mode
      subject_filter start_time end_time = Returned res'
    /\ results res = results res'
    /\ compatible res = compatible res'
    /\ incompatible res = incompatible res'
    /\ total_checked res = total_checked res'
    /\ bulk_errors res = bulk_errors res' + 1
    /\ (yields_all (executor self) ->
        forall other registry' subjects subject,
          other ∈ before ++ after ->
          active_registries self !! other = Some registry' ->
          list_subjects registry' subject_filter = Returned subjects ->
          subject ∈ subjects ->
          exists result,
            _check_single_subject registry' subject target_mode = Returned result
            /\ mkResultRecord other subject (is_compatible result) (messages result)
                 (errors result) ∈ results res).
Proof.
  intros Hlive Hfail.
  eexists _, _. split; [apply bulk_check_compatibility_eq|].
  split; [apply bulk_check_compatibility_eq|]. cbv zeta. simpl.
  assert (Hsplit :
    bulk_total self target_mode subject_filter (before ++ failed :: after)
    = plus (bulk_total self target_mode subject_filter (before ++ after)) listing_error).
  { rewrite !bulk_total_app. simpl.
    unfold contribution at 1. rewrite Hlive, Hfail.
    unfold plus, listing_error. simpl. f_equal; [by rewrite app_nil_r|lia..]. }
  rewrite Hsplit. simpl. split_and!; [by rewrite app_nil_r|lia..|].
  intros Hall other registry' subjects subject Hother Hlive' Hlist Hsubject.
  destruct (check_single_subject_returns registry' subject target_mode)
    as [result Hresult].
  exists result. split; [done|]. rewrite app_nil_r.
  apply (bulk_total_records _ _ _ _ other); [done|].
  unfold contribution. rewrite Hlive', Hlist.
  apply (tally_record _ (submit (_check_single_subject registry' subject target_mode)));
    [|done].
  rewrite (Hall _). apply list_elem_of_fmap. by exists subject.
Qed.

End Orchestrator.

(** *** Concrete backends *)

Definition orders_v2 : Schema :=
  mkSchema "orders-value" 2 AVRO "{}" CONFLUENT None ∅ None None.

Definition timeout : Exc := mkExc RequestException "Read timed out.".

(** A backend that hosts the subject "orders-value" with two versions and
    whose compatibility endpoint is out of order: like the Confluent plugin
    on a [RequestException], [check_compatibility] returns an incompatible
    result with no message and the text of the exception in [errors]. *)
Definition confluent_like : @ISchemaRegistry unit string :=
  mkRegistry
    (fun _ _ => Returned "ok")
    (fun _ => Returned orders_v2)
    (Returned (mkHealthStatus true 200 "Schema Registry is healthy" PrimFloat.one ∅))
    (fun _ => Returned ["orders-value"])
    (fun _ => Returned [1; 2]%Z)
    (fun _ _ => Returned orders_v2)
    (fun _ _ _ _ => Returned (mkCompatibilityResult false [] NONE [str timeout])).

(** A backend that lists the subject "orders-value" but times out when asked
    for its latest schema. *)
Definition degraded : @ISchemaRegistry unit string :=
  mkRegistry
    (fun _ _ => Raised timeout)
    (fun _ => Raised timeout)
    (Raised timeout)
    (fun _ => Returned ["orders-value"])
    (fun _ => Returned [1; 2]%Z)
    (fun _ _ => Raised timeout)
    (fun _ _ _ _ => Raised timeout).

(** A backend that cannot be reached at all. *)
Definition unreachable : @ISchemaRegistry unit string :=
  mkRegistry
    (fun _ _ => Raised timeout)
    (fun _ => Raised timeout)
    (Raised timeout)
    (fun _ => Raised timeout)
    (fun _ => Raised timeout)
    (fun _ _ => Raised timeout)
    (fun _ _ _ _ => Raised timeout).

(** A pool that finishes the tasks in the reverse of the submission order. *)
Definition reversing_pool : @ThreadPoolExecutor := mkExecutor (@rev _).

Definition federation : @MultiBackendOrchestrator unit string :=
  mkOrchestrator
    {[ "reg1" := confluent_like; "reg2" := unreachable; "reg3" := degraded ]}
    reversing_pool.

Lemma reversing_pool_yields_all : yields_all reversing_pool.
Proof. intros futures. simpl. symmetry. apply Permutation_rev. Qed.

Lemma C3_listing_failure_isolated_witness :
  exists res,
    bulk_check_compatibility federation ["reg2"; "reg1"] BACKWARD None
      PrimFloat.zero PrimFloat.one = Returned res
    /\ bulk_errors res = 1 /\ compatible res = 0 /\ incompatible res = 1
    /\ mkResultRecord "reg1" "orders-value" false ["All versions compatible"] []
       ∈ results res.
Proof.
  destruct (C3_listing_failure_isolated federation [] ["reg1"] "reg2" unreachable
              timeout BACKWARD None PrimFloat.zero PrimFloat.one)
    as (res & res' & Hres & Hres' & _ & Hc & Hi & _ & He & Hrec);
    [by vm_compute | done |].
  exists res. split; [done|].
  vm_compute in Hres'. injection Hres' as <-.
  split_and!; [by rewrite He | by rewrite Hc | by rewrite Hi |].
  destruct (Hrec reversing_pool_yields_all "reg1" confluent_like ["orders-value"]
              "orders-value") as (result & Hresult & Hin);
    [compute_done | by vm_compute | done | compute_done |].
  vm_compute in Hresult. injection Hresult as <-. exact Hin.
Defined.

(** C8, the failing input: both versions of "orders-value" are there, the
    check of the latest schema against version 1 comes back incompatible
    without a message, and the result says incompatible together with
    "All versions compatible". *)
Theorem C8_default_message_on_incompatible_history :
  _check_single_subject confluent_like "orders-value" BACKWARD
  = Returned (mkCompatibilityResult false ["All versions compatible"] BACKWARD []).
Proof. by vm_compute. Qed.

(** C9 as stated fails: [degraded] is live, lists "orders-value" among its
    subjects and does not signal its absence, yet it is left out of the
    result. *)
Lemma C9_counterexample :
  exists results,
    find_schema_across_registries federation "orders-value" = Returned results
    /\ active_registries federation !! "reg3" = Some degraded
    /\ list_subjects degraded None = Returned ["orders-value"]
    /\ ¬ subject_absent degraded "orders-value"
    /\ results !! "reg3" = None.
Proof.
  eexists. split; [apply find_schema_across_registries_eq|].
  split_and!; [by vm_compute | done | | by vm_compute].
  intros (e & Hraise & Hclass). simpl in Hraise. injection Hraise as <-.
  discriminate Hclass.
Qed.

End Orchestrator.

(** ** Python strings: [split], [join], [upper], [startswith] *)

From Stdlib Require Import Ascii.

Module Text.

(** [s.split(sep)] for a separator of one character: the parts between the
    occurrences of [sep], one more than there are occurrences. *)
Fixpoint split (sep : Ascii.ascii) (s : string) : list string :=
  match s with
  | EmptyString => [EmptyString]
  | String c rest =>
      if Ascii.eqb c sep then EmptyString :: split sep rest
      else match split sep rest with
           | part :: parts => String c part :: parts
           | [] => [String c EmptyString]
           end
  end.

(** [sep.join(parts)] *)
Definition join (sep : Ascii.ascii) (parts : list string) : string :=
  String.concat (String sep EmptyString) parts.

(** The characters of [s] are all different from [sep]. *)
Definition free_of (sep : Ascii.ascii) (s : string) : Prop :=
  sep ∉ String.list_ascii_of_string s.

(** [c.upper()] and [s.upper()] on ASCII text: the letters a-z become A-Z,
    every other byte stays. *)
Definition upper_char (c : Ascii.ascii) : Ascii.ascii :=
  let n := Ascii.nat_of_ascii c in
  if bool_decide (97 <= n <= 122) then Ascii.ascii_of_nat (n - 32) else c.

Fixpoint upper (s : string) : string :=
  match s with
  | EmptyString => EmptyString
  | String c rest => String (upper_char c) (upper rest)
  end.

(** [s.startswith(p)] *)
Definition startswith (s p : string) : bool := String.prefix p s.

(** [s.endswith(p)] *)
Definition endswith (s p : string) : bool :=
  bool_decide (String.length p <= String.length s)
  && String.eqb (String.substring (String.length s - String.length p) (String.length p) s) p.

Lemma split_nonempty sep s : split sep s ≠ [].
Proof.
  destruct s as [|c rest]; simpl; [done|].
  destruct (Ascii.eqb c sep); [done|]. by destruct (split sep rest).
Qed.

Lemma join_cons sep p q parts :
  join sep (p :: q :: parts) = p +:+ String sep (join sep (q :: parts)).
Proof. done. Qed.

(** Joining the parts of a split gives the string back. *)
Lemma join_split sep s : join sep (split sep s) = s.
Proof.
  induction s as [|c rest IH]; [done|]. simpl.
  destruct (Ascii.eqb c sep) eqn:E.
  - apply Ascii.eqb_eq in E as ->.
    pose proof (split_nonempty sep rest) as Hne.
    destruct (split sep rest) as [|q parts] eqn:Hs; [done|].
    rewrite join_cons. by rewrite IH.
  - pose proof (split_nonempty sep rest) as Hne.
    destruct (split sep rest) as [|p [|q parts]] eqn:Hs; [done| |].
    + unfold join in *. simpl in *. by rewrite IH.
    + by rewrite <-IH, !join_cons.
Qed.

Lemma split_free sep s : free_of sep s -> split sep s = [s].
Proof.
  unfold free_of. induction s as [|c rest IH]; [done|]. simpl.
  intros Hfree. apply not_elem_of_cons in Hfree as [Hc Hrest].
  destruct (Ascii.eqb c sep) eqn:E; [apply Ascii.eqb_eq in E; congruence|].
  by rewrite IH.
Qed.

Lemma split_app_sep sep p s :
  free_of sep p -> split sep (p +:+ String sep s) = p :: split sep s.
Proof.
  unfold free_of. induction p as [|c rest IH]; simpl.
  - intros _. by rewrite Ascii.eqb_refl.
  - intros Hfree. apply not_elem_of_cons in Hfree as [Hc Hrest].
    destruct (Ascii.eqb c sep) eqn:E; [apply Ascii.eqb_eq in E; congruence|].
    by rewrite IH.
Qed.

(** The parts of a split hold no separator. *)
Lemma split_parts_free sep s p : p ∈ split sep s -> free_of sep p.
Proof.
  unfold free_of. revert p. induction s as [|c rest IH]; simpl; intros p Hp.
  - apply list_elem_of_singleton in Hp as ->. simpl. apply not_elem_of_nil.
  - destruct (Ascii.eqb c sep) eqn:E.
    + apply elem_of_cons in Hp as [->|Hp]; [apply not_elem_of_nil|by apply IH].
    + pose proof (split_nonempty sep rest) as Hne.
      destruct (split sep rest) as [|q parts] eqn:Hs; [done|].
      apply elem_of_cons in Hp as [->|Hp].
      * simpl. apply not_elem_of_cons. split.
        -- intros ->. by rewrite Ascii.eqb_refl in E.
        -- apply IH. by left.
      * apply IH. by right.
Qed.

End Text.

(** ** [src/plugins/unity_catalog/plugin.py]: subjects, types and columns *)

Module UnityCatalog.

(** *** [_parse_subject] *)

(** [parts[i]] *)
Definition item (parts : list string) (i : nat) : Outcome string :=
  match parts !! i with
  | Some p => Returned p
  | None => Raised (mkExc IndexError "list index out of range")
  end.

Definition _parse_subject (subject : string) : Outcome (string * string * string) :=
  let parts := Text.split "."%char subject in
  if bool_decide (length parts ≠ 3)
  then Raised (mkExc ValueError
                 ("Subject must be in format catalog.schema.table, got: " +:+ subject))
  else
    match item parts 0, item parts 1, item parts 2 with
    | Returned catalog, Returned schema_name, Returned table_name =>
        Returned (catalog, schema_name, table_name)
    | Raised e, _, _ | _, Raised e, _ | _, _, Raised e => Raised e
    end.

(** [f"{catalog}.{schema_name}.{table_name}"] *)
Definition full_name (catalog schema_name table_name : string) : string :=
  catalog +:+ "." +:+ schema_name +:+ "." +:+ table_name.

(** *** Types *)

(** The value under "type" of an Iceberg field, as far as the type
    conversions look at it: a string, a dictionary (of which only the string
    under its own "type" key is read, if there is one), or anything else. *)
Inductive IcebergType :=
| TStr (name : string)
| TDict (type_name : option string)
| TOther.

(** [mapping.get(key, default)] on a literal dictionary. *)
Fixpoint lookup_default (mapping : list (string * string)) (key default : string) : string :=
  match mapping with
  | [] => default
  | (k, v) :: rest => if String.eqb k key then v else lookup_default rest key default
  end.

Definition iceberg_to_uc : list (string * string) := [
  ("boolean", "BOOLEAN"); ("int", "INT"); ("long", "BIGINT"); ("float", "FLOAT");
  ("double", "DOUBLE"); ("string", "STRING"); ("binary", "BINARY"); ("date", "DATE");
  ("timestamp", "TIMESTAMP")
].

Definition _iceberg_type_to_uc_type (iceberg_type : IcebergType) : string :=
  match iceberg_type with
  | TStr name => lookup_default iceberg_to_uc name "STRING"
  | TDict type_name =>
      if bool_decide (type_name = Some "struct") then "STRUCT"
      else if bool_decide (type_name = Some "list") then "ARRAY"
      else if bool_decide (type_name = Some "map") then "MAP"
      else "STRING"
  | TOther => "STRING"
  end.

Definition uc_type_names : list (string * string) := [
  ("BOOLEAN", "BOOLEAN"); ("INT", "INT"); ("BIGINT", "LONG"); ("FLOAT", "FLOAT");
  ("DOUBLE", "DOUBLE"); ("STRING", "STRING"); ("BINARY", "BINARY"); ("DATE", "DATE");
  ("TIMESTAMP", "TIMESTAMP"); ("STRUCT", "STRUCT"); ("ARRAY", "ARRAY"); ("MAP", "MAP")
].

Definition _iceberg_type_to_uc_type_name (iceberg_type : IcebergType) : string :=
  let type_str := _iceberg_type_to_uc_type iceberg_type in
  lookup_default uc_type_names type_str "STRING".

Definition uc_to_iceberg : list (string * string) := [
  ("BOOLEAN", "boolean"); ("INT", "int"); ("LONG", "long"); ("BIGINT", "long");
  ("FLOAT", "float"); ("DOUBLE", "double"); ("STRING", "string"); ("BINARY", "binary");
  ("DATE", "date"); ("TIMESTAMP", "timestamp")
].

Definition _uc_type_to_iceberg_type (uc_type : string) : string :=
  lookup_default uc_to_iceberg (Text.upper uc_type) "string".

(** The primitive Iceberg type names that the conversions know. *)
Definition iceberg_primitives : list string :=
  ["boolean"; "int"; "long"; "float"; "double"; "string"; "binary"; "date"; "timestamp"].

(** *** Columns *)

(** A field of an Iceberg schema as [_iceberg_to_uc_columns] reads it: the
    keys "name" and "type" are subscripted, the others have defaults. *)
Record IcebergField := mkIcebergField {
  if_name : option string;
  if_type : option IcebergType;
  if_id : option Z;
  if_required : option bool;
  if_doc : option string
}.

(** A Unity Catalog column as [_uc_columns_to_iceberg] reads it: the keys
    "name" and "type_name" are subscripted, the others have defaults. *)
Record Column := mkColumn {
  col_name : option string;
  col_type_text : option string;
  col_type_name : option string;
  col_position : option Z;
  col_nullable : option bool;
  col_comment : option string
}.

(** [d[key]] on a dictionary that may lack the key. *)
Definition required_key {A} (key : string) (o : option A) : Outcome A :=
  match o with
  | Some a => Returned a
  | None => Raised (mkExc KeyError ("'" +:+ key +:+ "'"))
  end.

(** One step of the loop of [_iceberg_to_uc_columns]. *)
Definition field_to_column (field : IcebergField) : PyM (list Column) unit :=
  name ← Py.call (required_key "name" (if_name field));
  type ← Py.call (required_key "type" (if_type field));
  Py.modify (fun columns =>
    columns ++ [mkColumn (Some name)
                         (Some (_iceberg_type_to_uc_type type))
                         (Some (_iceberg_type_to_uc_type_name type))
                         (Some (default 0%Z (if_id field)))
                         (Some (negb (default false (if_required field))))
                         (Some (default "" (if_doc field)))]).

(** [iceberg_schema.get("fields", [])] is the argument [fields]. *)
Definition _iceberg_to_uc_columns (fields : list IcebergField) : Outcome (list Column) :=
  Py.run (Py.for_each fields field_to_column) [] (fun _ columns => columns).

(** The fields that [_uc_columns_to_iceberg] builds. *)
Record BuiltField := mkBuiltField {
  bf_id : Z;
  bf_name : string;
  bf_type : string;
  bf_required : bool;
  bf_doc : string
}.

(** One step of the loop of [_uc_columns_to_iceberg], for the column at
    index [idx]. *)
Definition column_to_field (x : nat * Column) : PyM (list BuiltField) unit :=
  let '(idx, column) := x in
  name ← Py.call (required_key "name" (col_name column));
  type_name ← Py.call (required_key "type_name" (col_type_name column));
  Py.modify (fun fields =>
    fields ++ [mkBuiltField (default (Z.of_nat idx + 1)%Z (col_position column))
                            name
                            (_uc_type_to_iceberg_type type_name)
                            (negb (default true (col_nullable column)))
                            (default "" (col_comment column))]).

(** [enumerate(columns)] *)
Definition enumerate {A} (xs : list A) : list (nat * A) := imap (fun i x => (i, x)) xs.

(** The value under "fields" of the returned dictionary, whose "type" is
    "struct". *)
Definition _uc_columns_to_iceberg (columns : list Column) : Outcome (list BuiltField) :=
  Py.run (Py.for_each (enumerate columns) column_to_field) [] (fun _ fields => fields).

(** The field of the evolution check that a built field is, once written
    out and read back. *)
Definition as_field {Nested : Type} (f : BuiltField) : @Iceberg.Field Nested :=
  Iceberg.mkField (Some (bf_id f)) (Some (bf_name f))
                  (Some (Iceberg.TypeName (bf_type f))) (Some (bf_required f)).

(** *** Properties of [_parse_subject] *)

(** Case analysis on the tests of a literal dictionary. *)
Ltac by_keys :=
  cbv [lookup_default];
  repeat (match goal with
          | |- context [if String.eqb ?k ?x then _ else _] =>
              destruct (String.eqb_spec k x); try subst; cbv iota
          end);
  try done.

(** X1: A subject is accepted exactly when it is three parts without a dot,
    joined by dots (a part may be empty); the three parts are returned, so
    that [full_name] gives the subject back; any other subject raises the
    [ValueError] that quotes it. *)
Theorem parse_subject_round_trip (subject : string) :
  (forall catalog schema_name table_name,
     _parse_subject subject = Returned (catalog, schema_name, table_name) <->
     subject = full_name catalog schema_name table_name
     /\ Text.free_of "." catalog /\ Text.free_of "." schema_name
     /\ Text.free_of "." table_name)
  /\ ((exists catalog schema_name table_name,
         _parse_subject subject = Returned (catalog, schema_name, table_name))
      \/ _parse_subject subject
         = Raised (mkExc ValueError
                     ("Subject must be in format catalog.schema.table, got: "
                      +:+ subject))).
Proof.
  split.
  - intros a b c. unfold _parse_subject, full_name. split.
    + case_bool_decide as Hlen; [done|].
      destruct (Text.split "." subject) as [|p [|q [|r [|? ?]]]] eqn:Hs;
        simpl in Hlen; try (exfalso; apply Hlen; done); try lia.
      simpl. intros [= <- <- <-].
      pose proof (Text.join_split "." subject) as Hj. rewrite Hs in Hj.
      split; [by rewrite <-Hj|].
      split_and!; apply (Text.split_parts_free "." subject); rewrite Hs;
        repeat constructor.
    + intros (-> & Ha & Hb & Hc).
      change (a +:+ "." +:+ b +:+ "." +:+ c)
        with (a +:+ String "." (b +:+ String "." c)).
      rewrite (Text.split_app_sep "." a) by done.
      rewrite (Text.split_app_sep "." b) by done.
      rewrite (Text.split_free "." c) by done. done.
  - unfold _parse_subject. case_bool_decide as Hlen; [by right|]. left.
    destruct (Text.split "." subject) as [|p [|q [|r [|? ?]]]];
      simpl in Hlen; try (exfalso; apply Hlen; done); try lia.
    by exists p, q, r.
Qed.

(** *** Properties of the type conversions *)

Lemma uc_to_iceberg_primitive (key : string) :
  lookup_default uc_to_iceberg key "string" ∈ iceberg_primitives.
Proof. unfold uc_to_iceberg. by_keys; compute_done. Qed.

Lemma type_round_trip_eq (iceberg_type : IcebergType) :
  _uc_type_to_iceberg_type (_iceberg_type_to_uc_type_name iceberg_type)
  = match iceberg_type with
    | TStr name => if bool_decide (name ∈ iceberg_primitives) then name else "string"
    | _ => "string"
    end.
Proof.
  destruct iceberg_type as [name|type_name|].
  - unfold _uc_type_to_iceberg_type, _iceberg_type_to_uc_type_name,
      _iceberg_type_to_uc_type, iceberg_to_uc.
    by_keys.
    rewrite bool_decide_eq_false_2; [done|].
    intros Hin. repeat (apply elem_of_cons in Hin as [->|Hin]; [done|]).
    by apply elem_of_nil in Hin.
  - unfold _uc_type_to_iceberg_type, _iceberg_type_to_uc_type_name,
      _iceberg_type_to_uc_type.
    repeat case_bool_decide; done.
  - done.
Qed.

(** X2: Iceberg type -> Unity Catalog type name -> Iceberg type gives back each
    of the nine primitive type names and turns everything else, the nested
    types struct, list and map among it, into "string"; and whatever type
    name Unity Catalog reports, the Iceberg type is one of the nine. *)
Theorem type_conversion_round_trip :
  (forall name, name ∈ iceberg_primitives ->
     _uc_type_to_iceberg_type (_iceberg_type_to_uc_type_name (TStr name)) = name)
  /\ (forall iceberg_type,
        (forall name, iceberg_type = TStr name -> name ∉ iceberg_primitives) ->
        _uc_type_to_iceberg_type (_iceberg_type_to_uc_type_name iceberg_type) = "string")
  /\ (forall uc_type, _uc_type_to_iceberg_type uc_type ∈ iceberg_primitives).
Proof.
  split_and!.
  - intros name Hin. rewrite type_round_trip_eq. by rewrite bool_decide_eq_true_2.
  - intros ty Hnot. rewrite type_round_trip_eq. destruct ty as [name| |]; try done.
    rewrite bool_decide_eq_false_2; [done|]. by apply Hnot.
  - intros uc_type. apply uc_to_iceberg_primitive.
Qed.

Lemma type_conversion_round_trip_witness :
  _uc_type_to_iceberg_type (_iceberg_type_to_uc_type_name (TStr "long")) = "long"
  /\ _uc_type_to_iceberg_type (_iceberg_type_to_uc_type_name (TDict (Some "map")))
     = "string".
Proof.
  destruct type_conversion_round_trip as (Hprim & Hother & _). split.
  - apply Hprim. compute_done.
  - apply Hother. intros name Heq. discriminate Heq.
Defined.

(** *** Properties of the column conversions *)

Lemma foldl_snoc {A B} (g : A -> B) (xs : list A) (s : list B) :
  foldl (fun s x => s ++ [g x]) s xs = s ++ (g <$> xs).
Proof.
  revert s. induction xs as [|x xs IH]; intros s; simpl.
  - by rewrite app_nil_r.
  - by rewrite IH, <-app_assoc.
Qed.

(** The column that [_iceberg_to_uc_columns] builds from a field with a
    name and a type. *)
Definition column_of (name : string) (type : IcebergType) (field : IcebergField) : Column :=
  mkColumn (Some name) (Some (_iceberg_type_to_uc_type type))
           (Some (_iceberg_type_to_uc_type_name type))
           (Some (default 0%Z (if_id field)))
           (Some (negb (default false (if_required field))))
           (Some (default "" (if_doc field))).

Definition column_of_field (field : IcebergField) : Column :=
  column_of (default "" (if_name field)) (default TOther (if_type field)) field.

Definition complete (field : IcebergField) : Prop :=
  is_Some (if_name field) /\ is_Some (if_type field).

Lemma iceberg_to_uc_columns_complete (fields : list IcebergField) :
  Forall complete fields ->
  _iceberg_to_uc_columns fields = Returned (column_of_field <$> fields).
Proof.
  intros Hall. unfold _iceberg_to_uc_columns, Py.run.
  rewrite (for_each_steps _ _ (fun s f => s ++ [column_of_field f])).
  - by rewrite foldl_snoc.
  - intros f Hf s. rewrite Forall_forall in Hall.
    destruct (Hall f Hf) as [[name Hn] [type Ht]].
    unfold field_to_column, column_of_field, column_of, mbind, PyM_bind, Py.call,
      Py.modify, required_key.
    by rewrite Hn, Ht.
Qed.

(** The field that [_uc_columns_to_iceberg] builds from the column at
    index [idx], if it has a name and a type name. *)
Definition field_of_column (idx : nat) (column : Column) : BuiltField :=
  mkBuiltField (default (Z.of_nat idx + 1)%Z (col_position column))
               (default "" (col_name column))
               (_uc_type_to_iceberg_type (default "" (col_type_name column)))
               (negb (default true (col_nullable column)))
               (default "" (col_comment column)).

Definition named (column : Column) : Prop :=
  is_Some (col_name column) /\ is_Some (col_type_name column).

Lemma uc_columns_to_iceberg_named (columns : list Column) :
  Forall named columns ->
  _uc_columns_to_iceberg columns = Returned (imap field_of_column columns).
Proof.
  intros Hall. unfold _uc_columns_to_iceberg, Py.run.
  rewrite (for_each_steps _ _ (fun s x => s ++ [field_of_column x.1 x.2])).
  - rewrite foldl_snoc. simpl. f_equal. unfold enumerate.
    rewrite fmap_imap. by apply imap_ext.
  - intros [idx c] Hin s. rewrite Forall_forall in Hall.
    apply elem_of_lookup_imap_1 in Hin as (i & c' & [= -> ->] & Hc).
    destruct (Hall c' (list_elem_of_lookup_2 _ _ _ Hc)) as [[name Hn] [type Ht]].
    unfold column_to_field, field_of_column, mbind, PyM_bind, Py.call,
      Py.modify, required_key.
    simpl. by rewrite Hn, Ht.
Qed.

(** A column without a name or without a type name stops the conversion
    with a [KeyError]; which column comes first decides the key. *)
Lemma uc_columns_to_iceberg_raises (columns : list Column) :
  ¬ Forall named columns ->
  exists key, _uc_columns_to_iceberg columns = Raised (mkExc KeyError key).
Proof.
  intros Hnot.
  assert (Haux : forall (n : nat) (s : list BuiltField),
            exists key s',
              Py.for_each (imap (fun i x => (n + i, x)) columns) column_to_field s
              = (Raised (mkExc KeyError key), s')).
  { induction columns as [|c columns IH]; intros n s.
    - exfalso. apply Hnot. constructor.
    - rewrite imap_cons. simpl. unfold mbind at 1, PyM_bind at 1.
      unfold column_to_field at 1, mbind, PyM_bind, Py.call, Py.modify, required_key.
      destruct (col_name c) as [name|] eqn:Hn; [|by eexists _, _].
      destruct (col_type_name c) as [type|] eqn:Ht; [|by eexists _, _].
      rewrite (imap_ext _ (fun i x => (S n + i, x)))
        by (intros i x _; simpl; f_equal; lia).
      apply IH. intros Hall. apply Hnot. constructor; [|done].
      split; by eexists. }
  destruct (Haux 0 []) as (key & s' & Hrun).
  exists key. unfold _uc_columns_to_iceberg, Py.run, enumerate.
  change (imap (fun i x => (i, x)) columns)
    with (imap (fun i (x : Column) => (0 + i, x)) columns).
  by rewrite Hrun.
Qed.

#[local] Instance named_dec (column : Column) : Decision (named column).
Proof. unfold named. apply _. Defined.

(** X3: The schema built from the columns of a table: if every column has a
    name and a type name there is one field per column, in order, with the
    column's name, one of the nine primitive types, required exactly when
    the column says it is not nullable (a column that does not say is
    nullable), and the position as id, or the rank counted from 1 where the
    position is missing; otherwise the conversion raises a [KeyError]. *)
Theorem uc_columns_to_iceberg_fields (columns : list Column) :
  (Forall named columns
   /\ exists fields,
        _uc_columns_to_iceberg columns = Returned fields
        /\ length fields = length columns
        /\ forall i column, columns !! i = Some column ->
             exists field,
               fields !! i = Some field
               /\ col_name column = Some (bf_name field)
               /\ bf_type field ∈ iceberg_primitives
               /\ bf_required field = negb (default true (col_nullable column))
               /\ bf_id field = default (Z.of_nat i + 1)%Z (col_position column))
  \/ (¬ Forall named columns
      /\ exists key, _uc_columns_to_iceberg columns = Raised (mkExc KeyError key)).
Proof.
  destruct (decide (Forall named columns)) as [Hall|Hnot].
  - left. split; [done|]. eexists. split; [by apply uc_columns_to_iceberg_named|].
    split; [by rewrite length_imap|].
    intros i column Hi. exists (field_of_column i column).
    rewrite list_lookup_imap, Hi. split; [done|].
    rewrite Forall_forall in Hall.
    destruct (Hall column (list_elem_of_lookup_2 _ _ _ Hi)) as [[name Hn] _].
    unfold field_of_column. simpl. rewrite Hn. split_and!; try done.
    apply uc_to_iceberg_primitive.
  - right. split; [done|]. by apply uc_columns_to_iceberg_raises.
Qed.

(** X4: Writing the fields of an Iceberg schema as columns and reading the
    columns back keeps, for every field and in order, the name, the id (0
    for a field without one), whether it is required, the doc text and the
    type if it is one of the nine primitive names; any other type comes
    back as "string". *)
Theorem columns_round_trip (fields : list IcebergField) :
  Forall complete fields ->
  exists columns built,
    _iceberg_to_uc_columns fields = Returned columns
    /\ _uc_columns_to_iceberg columns = Returned built
    /\ Forall2 (fun field b =>
                  if_name field = Some (bf_name b)
                  /\ bf_id b = default 0%Z (if_id field)
                  /\ bf_required b = default false (if_required field)
                  /\ bf_doc b = default "" (if_doc field)
                  /\ (forall name, if_type field = Some (TStr name) ->
                         name ∈ iceberg_primitives -> bf_type b = name)
                  /\ (forall type, if_type field = Some type ->
                         (forall name, type = TStr name -> name ∉ iceberg_primitives) ->
                         bf_type b = "string"))
               fields built.
Proof.
  intros Hall.
  exists (column_of_field <$> fields),
         ((fun f => field_of_column 0 (column_of_field f)) <$> fields).
  split; [by apply iceberg_to_uc_columns_complete|]. split.
  - rewrite uc_columns_to_iceberg_named.
    + f_equal. rewrite imap_fmap.
      rewrite (imap_ext _ (const (fun f => field_of_column 0 (column_of_field f))))
        by done.
      by rewrite imap_const.
    + apply Forall_fmap. eapply Forall_impl; [done|]. intros f _. split; by eexists.
  - apply Forall2_fmap_r, Forall_Forall2_diag. eapply Forall_impl; [done|].
    intros f [[name Hn] [type Ht]]. simpl.
    rewrite Hn, Ht, negb_involutive. simpl. split_and!; try done.
    + intros t [= ->] Hin. rewrite type_round_trip_eq. by rewrite bool_decide_eq_true_2.
    + intros ty [= <-] Hnot. rewrite type_round_trip_eq. destruct type as [t| |]; try done.
      rewrite bool_decide_eq_false_2; [done|]. by apply Hnot.
Qed.

Lemma columns_round_trip_witness :
  exists columns,
    _iceberg_to_uc_columns
      [mkIcebergField (Some "id") (Some (TStr "long")) (Some 7%Z) (Some true) None]
    = Returned columns
    /\ _uc_columns_to_iceberg columns = Returned [mkBuiltField 7 "id" "long" true ""].
Proof.
  destruct (columns_round_trip
              [mkIcebergField (Some "id") (Some (TStr "long")) (Some 7%Z) (Some true) None])
    as (columns & built & Hc & Hb & _).
  - repeat constructor; by eexists.
  - exists columns. split; [done|]. rewrite Hb.
    vm_compute in Hc. injection Hc as <-. vm_compute in Hb. by injection Hb as <-.
Defined.

End UnityCatalog.

(** ** Dictionaries whose order of insertion is observed *)

Module ODict.

Section ODict.

Context {K V : Type} `{EqDecision K}.

(** A dictionary is the list of its items in insertion order. *)
Local Abbreviation odict := (list (K * V)).

(** [d.get(k)] *)
Fixpoint get (d : odict) (k : K) : option V :=
  match d with
  | [] => None
  | (k', v) :: rest => if decide (k' = k) then Some v else get rest k
  end.

(** [d[k] = v]: an existing key keeps its place, a new key goes last. *)
Fixpoint set (d : odict) (k : K) (v : V) : odict :=
  match d with
  | [] => [(k, v)]
  | (k', v') :: rest =>
      if decide (k' = k) then (k, v) :: rest else (k', v') :: set rest k v
  end.

(** [del d[k]], for a key that may be missing. *)
Definition del (d : odict) (k : K) : odict := filter (fun p => p.1 ≠ k) d.

(** [list(d.keys())] *)
Definition keys (d : odict) : list K := d.*1.

Lemma get_set_eq d k v : get (set d k v) k = Some v.
Proof.
  induction d as [|[k' v'] d IH]; simpl.
  - by rewrite decide_True.
  - destruct (decide (k' = k)); simpl; [by rewrite decide_True|].
    by rewrite decide_False.
Qed.

Lemma get_set_ne d k k' v : k ≠ k' -> get (set d k v) k' = get d k'.
Proof.
  intros Hne. induction d as [|[k0 v0] d IH]; simpl.
  - by rewrite decide_False.
  - destruct (decide (k0 = k)) as [->|]; simpl.
    + by rewrite !decide_False.
    + destruct (decide (k0 = k')); [done|apply IH].
Qed.

Lemma get_del_eq d k : get (del d k) k = None.
Proof.
  unfold del. induction d as [|[k0 v0] d IH]; [done|].
  rewrite filter_cons. simpl. destruct (decide (k0 ≠ k)); [|done].
  simpl. by rewrite decide_False.
Qed.

Lemma get_del_ne d k k' : k ≠ k' -> get (del d k) k' = get d k'.
Proof.
  intros Hne. unfold del. induction d as [|[k0 v0] d IH]; [done|].
  rewrite filter_cons. simpl. destruct (decide (k0 ≠ k)) as [|Heq]; simpl.
  - by rewrite IH.
  - apply dec_stable in Heq. subst k0. by rewrite decide_False.
Qed.

Lemma get_None_keys d k : get d k = None <-> k ∉ keys d.
Proof.
  unfold keys. induction d as [|[k0 v0] d IH]; simpl.
  - split; [intros _; apply not_elem_of_nil|done].
  - rewrite not_elem_of_cons. destruct (decide (k0 = k)) as [->|Hne].
    + split; [done|]. by intros [? _].
    + rewrite IH. split; [by split|by intros [_ ?]].
Qed.

Lemma del_absent d k : get d k = None -> del d k = d.
Proof.
  unfold del. induction d as [|[k0 v0] d IH]; [done|]. simpl.
  destruct (decide (k0 = k)) as [->|Hne]; [done|]. intros Hd.
  rewrite filter_cons. simpl. rewrite decide_True by done. by rewrite IH.
Qed.

Lemma keys_set d k v :
  keys (set d k v) = if bool_decide (is_Some (get d k)) then keys d else keys d ++ [k].
Proof.
  unfold keys. induction d as [|[k0 v0] d IH]; [done|]. simpl.
  destruct (decide (k0 = k)) as [->|Hne].
  - by rewrite bool_decide_eq_true_2.
  - rewrite fmap_cons, IH. by case_bool_decide.
Qed.

Lemma keys_del d k : keys (del d k) = filter (fun k' => k' ≠ k) (keys d).
Proof.
  unfold keys, del. induction d as [|[k0 v0] d IH]; [done|].
  rewrite fmap_cons, !filter_cons. simpl.
  destruct (decide (k0 ≠ k)); [rewrite fmap_cons|]; by rewrite IH.
Qed.

End ODict.

End ODict.

(** ** [src/core/models.py]: [RegistryConfig] and the enumeration values *)

Module Config.

Record RegistryConfig := mkRegistryConfig {
  id : string;
  type : RegistryType;
  url : string;
  auth : gmap string Any;
  ssl_config : gmap string Any;
  timeout : Z;
  max_retries : Z;
  metadata : gmap string Any;
  enabled : bool
}.

(** [RegistryType.value] *)
Definition registry_type_value (t : RegistryType) : string :=
  match t with
  | CONFLUENT => "confluent"
  | UNITY_CATALOG => "unity_catalog"
  | AWS_GLUE => "aws_glue"
  | AZURE_PURVIEW => "azure_purview"
  | APICURIO => "apicurio"
  | KARAPACE => "karapace"
  | PULSAR => "pulsar"
  | REDPANDA => "redpanda"
  | SNOWFLAKE => "snowflake"
  | GCP_DATA_CATALOG => "gcp_data_catalog"
  end.

(** [SchemaFormat.value] *)
Definition schema_format_value (f : SchemaFormat) : string :=
  match f with
  | AVRO => "avro"
  | PROTOBUF => "protobuf"
  | JSON_SCHEMA => "json_schema"
  | ICEBERG => "iceberg"
  | PARQUET => "parquet"
  | OPENAPI => "openapi"
  | ASYNCAPI => "asyncapi"
  | SQL_DDL => "sql_ddl"
  end.

#[global] Instance RegistryType_eq_dec : EqDecision RegistryType.
Proof. solve_decision. Defined.

#[global] Instance SchemaFormat_eq_dec : EqDecision SchemaFormat.
Proof. solve_decision. Defined.

(** [repr] of a list of strings that hold no quote, backslash or control
    character, as the values of an enumeration do: ['a', 'b']. *)
Definition repr_values (values : list string) : string :=
  "[" +:+ String.concat ", " ((fun s => "'" +:+ s +:+ "'") <$> values) +:+ "]".

End Config.

(** ** [src/core/plugin_registry.py] *)

Module PluginRegistry.

Section PluginRegistry.

(** The live instances are left abstract: the registry only stores them. *)
Context {Instance : Type}.

(** A plugin class: the text of [f"{plugin_class}"], whether it is a subclass
    of [ISchemaRegistry], and what calling it on a configuration gives. *)
Record PluginClass := mkPluginClass {
  class_text : string;
  implements_ISchemaRegistry : bool;
  construct : Config.RegistryConfig -> Outcome Instance
}.

(** The two dictionaries of a [PluginRegistry]. *)
Record PluginRegistry := mkPluginRegistry {
  _plugins : list (RegistryType * PluginClass);
  _instances : list (string * Instance)
}.

(** [PluginRegistry()] *)
Definition init : PluginRegistry := mkPluginRegistry [] [].

Definition register_plugin (registry_type : RegistryType) (plugin_class : PluginClass)
  : PyM PluginRegistry unit :=
  if negb (implements_ISchemaRegistry plugin_class)
  then Py.call (Raised (mkExc ValueError
                  ("Plugin " +:+ class_text plugin_class
                   +:+ " must implement ISchemaRegistry")))
  else Py.modify (fun self =>
         mkPluginRegistry (ODict.set (_plugins self) registry_type plugin_class)
                          (_instances self)).

Definition no_plugin_message (self : PluginRegistry) (t : RegistryType) : string :=
  "No plugin registered for " +:+ Config.registry_type_value t +:+ ". "
  +:+ "Available: "
  +:+ Config.repr_values (Config.registry_type_value <$> ODict.keys (_plugins self)).

(** [instance_id] is [None] when the argument is left out; [if instance_id:]
    is false for [None] and for the empty string. *)
Definition create_instance (config : Config.RegistryConfig) (instance_id : option string)
  : PyM PluginRegistry Instance :=
  self ← Py.locals;
  match ODict.get (_plugins self) (Config.type config) with
  | None =>
      Py.call (Raised (mkExc ValueError (no_plugin_message self (Config.type config))))
  | Some plugin_class =>
      instance ← Py.call (construct plugin_class config);
      match instance_id with
      | Some (String c rest as name) =>
          Py.modify (fun self =>
            mkPluginRegistry (_plugins self) (ODict.set (_instances self) name instance))
      | _ => mret tt
      end ;;
      mret instance
  end.

Definition get_instance (self : PluginRegistry) (instance_id : string) : option Instance :=
  ODict.get (_instances self) instance_id.

Definition list_instances (self : PluginRegistry) : list string :=
  ODict.keys (_instances self).

Definition list_available_plugins (self : PluginRegistry) : list RegistryType :=
  ODict.keys (_plugins self).

Definition unregister_plugin (registry_type : RegistryType) : PyM PluginRegistry unit :=
  self ← Py.locals;
  if bool_decide (is_Some (ODict.get (_plugins self) registry_type))
  then Py.modify (fun self =>
         mkPluginRegistry (ODict.del (_plugins self) registry_type) (_instances self))
  else mret tt.

Definition remove_instance (instance_id : string) : PyM PluginRegistry unit :=
  self ← Py.locals;
  if bool_decide (is_Some (ODict.get (_instances self) instance_id))
  then Py.modify (fun self =>
         mkPluginRegistry (_plugins self) (ODict.del (_instances self) instance_id))
  else mret tt.

Definition clear_instances : PyM PluginRegistry unit :=
  Py.modify (fun self => mkPluginRegistry (_plugins self) []).

(** *** Properties *)

Ltac run_registry :=
  unfold create_instance, register_plugin, unregister_plugin, remove_instance,
    clear_instances, mbind, PyM_bind, Py.locals, Py.call, Py.modify, mret, PyM_ret.

Lemma create_then_get_lemma (self self' : PluginRegistry)
    (config : Config.RegistryConfig) (instance_id : string) (instance : Instance) :
  instance_id ≠ "" ->
  create_instance config (Some instance_id) self = (Returned instance, self') ->
  get_instance self' instance_id = Some instance
  /\ _plugins self' = _plugins self.
Proof.
  intros Hne. run_registry.
  destruct (ODict.get (_plugins self) (Config.type config)) as [cls|]; [|done].
  destruct (construct cls config) as [inst|e]; [|done].
  destruct instance_id as [|c rest]; [done|].
  intros [= <- <-]. unfold get_instance. simpl. split; [apply ODict.get_set_eq|done].
Qed.

(** X5: The instance that [create_instance] returns under a non-empty id is the
    one that [get_instance] finds afterwards; the other ids and the plugin
    classes are as before, and the id is listed once: where it was, or last
    if it is new. *)
Theorem create_then_get (self self' : PluginRegistry) (config : Config.RegistryConfig)
    (instance_id : string) (instance : Instance) :
  instance_id ≠ "" ->
  create_instance config (Some instance_id) self = (Returned instance, self') ->
  get_instance self' instance_id = Some instance
  /\ (forall other, other ≠ instance_id ->
        get_instance self' other = get_instance self other)
  /\ _plugins self' = _plugins self
  /\ list_instances self'
     = if bool_decide (is_Some (get_instance self instance_id))
       then list_instances self else list_instances self ++ [instance_id].
Proof.
  intros Hne. run_registry.
  destruct (ODict.get (_plugins self) (Config.type config)) as [cls|]; [|done].
  destruct (construct cls config) as [inst|e]; [|done].
  destruct instance_id as [|c rest]; [done|].
  intros [= <- <-]. unfold get_instance, list_instances. simpl. split_and!.
  - apply ODict.get_set_eq.
  - intros other Hother. by apply ODict.get_set_ne.
  - done.
  - apply ODict.keys_set.
Qed.

(** X6: [create_instance] changes the registry in one case only: the call
    returns and the id is a non-empty string.  It raises, leaving the
    registry as it was, when no class is registered for the type of the
    configuration (a [ValueError] that lists the registered types) and when
    the class raises on the configuration; without an id, or with the empty
    id, the instance is returned and not stored. *)
Theorem create_instance_unchanged (self : PluginRegistry) (config : Config.RegistryConfig)
    (instance_id : option string) :
  (ODict.get (_plugins self) (Config.type config) = None ->
     create_instance config instance_id self
     = (Raised (mkExc ValueError (no_plugin_message self (Config.type config))), self))
  /\ (forall cls e,
        ODict.get (_plugins self) (Config.type config) = Some cls ->
        construct cls config = Raised e ->
        create_instance config instance_id self = (Raised e, self))
  /\ (forall cls instance,
        ODict.get (_plugins self) (Config.type config) = Some cls ->
        construct cls config = Returned instance ->
        instance_id = None \/ instance_id = Some "" ->
        create_instance config instance_id self = (Returned instance, self)).
Proof.
  split_and!.
  - intros Hnone. run_registry. by rewrite Hnone.
  - intros cls e Hcls He. run_registry. by rewrite Hcls, He.
  - intros cls inst Hcls Hinst [-> | ->]; run_registry; by rewrite Hcls, Hinst.
Qed.

(** X7: [register_plugin] refuses a class that does not implement the interface
    and leaves the registry as it was; a class that it accepts is the one
    that [create_instance] calls for that type from then on, whatever class
    was registered for the type before, while the classes of the other
    types stay. *)
Theorem register_then_create (self : PluginRegistry) (registry_type : RegistryType)
    (plugin_class : PluginClass) :
  (implements_ISchemaRegistry plugin_class = false ->
     register_plugin registry_type plugin_class self
     = (Raised (mkExc ValueError ("Plugin " +:+ class_text plugin_class
                                   +:+ " must implement ISchemaRegistry")), self))
  /\ (implements_ISchemaRegistry plugin_class = true ->
      exists self',
        register_plugin registry_type plugin_class self = (Returned tt, self')
        /\ _instances self' = _instances self
        /\ (forall config instance_id,
              Config.type config = registry_type ->
              (create_instance config instance_id self').1
              = construct plugin_class config)
        /\ (forall other, other ≠ registry_type ->
              ODict.get (_plugins self') other = ODict.get (_plugins self) other)).
Proof.
  split.
  - intros Hno. run_registry. by rewrite Hno.
  - intros Hyes. run_registry. rewrite Hyes. simpl. eexists. split; [done|].
    simpl. split_and!; [done| |].
    + intros config instance_id <-. rewrite ODict.get_set_eq.
      destruct (construct plugin_class config) as [inst|e]; [|done].
      by destruct instance_id as [[|c rest]|].
    + intros other Hother. by apply ODict.get_set_ne.
Qed.

(** X8: After [unregister_plugin] no instance of that type can be created, while
    the instances created before are still found and the other types are
    still served; unregistering a type that is not registered changes
    nothing. *)
Theorem unregister_then_create (self : PluginRegistry) (registry_type : RegistryType) :
  exists self',
    unregister_plugin registry_type self = (Returned tt, self')
    /\ _instances self' = _instances self
    /\ (forall config instance_id,
          Config.type config = registry_type ->
          create_instance config instance_id self'
          = (Raised (mkExc ValueError (no_plugin_message self' registry_type)), self'))
    /\ (forall other, other ≠ registry_type ->
          ODict.get (_plugins self') other = ODict.get (_plugins self) other)
    /\ (ODict.get (_plugins self) registry_type = None -> self' = self).
Proof.
  run_registry. case_bool_decide as Hreg; simpl.
  - eexists. split; [done|]. simpl. split_and!; [done| | |].
    + intros config instance_id <-. by rewrite ODict.get_del_eq.
    + intros other Hother. by apply ODict.get_del_ne.
    + intros Hnone. rewrite Hnone in Hreg. by destruct Hreg.
  - exists self. split; [done|].
    assert (Hnone : ODict.get (_plugins self) registry_type = None).
    { destruct (ODict.get (_plugins self) registry_type); [|done].
      exfalso. apply Hreg. by eexists. }
    split_and!; [done| |done|done].
    intros config instance_id <-. by rewrite Hnone.
Qed.

(** X9: [remove_instance] makes the id unknown and keeps every other instance
    and the order of the listing; removing an unknown id changes nothing;
    [clear_instances] leaves no instance and keeps the plugin classes. *)
Theorem remove_instance_effect (self : PluginRegistry) (instance_id : string) :
  (exists self',
     remove_instance instance_id self = (Returned tt, self')
     /\ get_instance self' instance_id = None
     /\ (forall other, other ≠ instance_id ->
           get_instance self' other = get_instance self other)
     /\ list_instances self' = filter (fun k => k ≠ instance_id) (list_instances self)
     /\ _plugins self' = _plugins self
     /\ (get_instance self instance_id = None -> self' = self))
  /\ (exists cleared,
       clear_instances self = (Returned tt, cleared)
       /\ list_instances cleared = []
       /\ (forall any, get_instance cleared any = None)
       /\ _plugins cleared = _plugins self).
Proof.
  split.
  - run_registry. unfold get_instance, list_instances.
    case_bool_decide as Hin; simpl.
    + eexists. split; [done|]. simpl. split_and!.
      * apply ODict.get_del_eq.
      * intros other Hother. by apply ODict.get_del_ne.
      * apply ODict.keys_del.
      * done.
      * intros Hnone. rewrite Hnone in Hin. by destruct Hin.
    + exists self. split; [done|].
      assert (Hnone : ODict.get (_instances self) instance_id = None).
      { destruct (ODict.get (_instances self) instance_id); [|done].
        exfalso. apply Hin. by eexists. }
      split_and!; try done.
      rewrite <-(ODict.del_absent _ _ Hnone) at 1. apply ODict.keys_del.
  - run_registry. by eexists.
Qed.

End PluginRegistry.

(** A registry of plugins whose instances are their names. *)
Definition named_class (name : string) : @PluginClass string :=
  mkPluginClass ("<class '" +:+ name +:+ "'>") true (fun _ => Returned name).

Definition reg1_config : Config.RegistryConfig :=
  Config.mkRegistryConfig "reg1" CONFLUENT "http://localhost:8081" ∅ ∅ 30 3 ∅ true.

Lemma create_then_get_witness :
  get_instance
    (create_instance reg1_config (Some "reg1")
       (mkPluginRegistry [(CONFLUENT, named_class "ConfluentSchemaRegistryPlugin")] [])).2
    "reg1"
  = Some "ConfluentSchemaRegistryPlugin".
Proof.
  eapply (create_then_get
            (mkPluginRegistry [(CONFLUENT, named_class "ConfluentSchemaRegistryPlugin")] [])
            _ reg1_config "reg1" "ConfluentSchemaRegistryPlugin"); [done|].
  by vm_compute.
Defined.

End PluginRegistry.

(** ** [src/core/orchestrator.py]: registry management and mode operations *)

Module Federation.

Section Federation.

Context {Kwargs Data : Type}.

(** A live instance with the further methods of [ISchemaRegistry] that
    these operations call, each given by its outcome. *)
Record Backend := mkBackend {
  contract : @Orchestrator.ISchemaRegistry Kwargs Data;
  get_registry_type : Outcome RegistryType;
  get_supported_formats : Outcome (list SchemaFormat);
  get_compatibility_mode : option string -> Outcome CompatibilityMode;
  set_compatibility_mode : CompatibilityMode -> option string -> Outcome bool;
  get_all_compatibility_modes : Outcome (gmap string CompatibilityMode)
}.

(** The attributes of a [MultiBackendOrchestrator]. *)
Record Self := mkSelf {
  plugin_registry : @PluginRegistry.PluginRegistry Backend;
  active_registries : gmap string Backend;
  executor : Orchestrator.ThreadPoolExecutor
}.

(** The orchestrator as the cross-registry and bulk-check operations see it. *)
Definition core (self : Self) : @Orchestrator.MultiBackendOrchestrator Kwargs Data :=
  Orchestrator.mkOrchestrator (contract <$> active_registries self) (executor self).

(** A method of the plugin registry called on [self.plugin_registry]. *)
Definition on_plugin_registry {A} (m : PyM (@PluginRegistry.PluginRegistry Backend) A)
  : PyM Self A :=
  fun self =>
    let '(o, registry') := m (plugin_registry self) in
    (o, mkSelf registry' (active_registries self) (executor self)).

Definition add_registry (config : Config.RegistryConfig) : PyM Self unit :=
  instance ← on_plugin_registry
               (PluginRegistry.create_instance config (Some (Config.id config)));
  Py.modify (fun self =>
    mkSelf (plugin_registry self)
           (<[Config.id config := instance]> (active_registries self))
           (executor self)).

Definition get_registry (self : Self) (instance_id : string) : option Backend :=
  active_registries self !! instance_id.

Definition remove_registry (instance_id : string) : PyM Self unit :=
  self ← Py.locals;
  if bool_decide (is_Some (active_registries self !! instance_id))
  then Py.modify (fun self =>
         mkSelf (plugin_registry self) (delete instance_id (active_registries self))
                (executor self))
  else mret tt.

(** An element of the list that [list_registries] returns. *)
Record RegistryInfo := mkRegistryInfo {
  info_id : string;
  info_type : string;
  info_supported_formats : list string
}.

Definition list_registries (self : Self) : Outcome (list RegistryInfo) :=
  Py.run
    (Py.for_each (map_to_list (active_registries self)) (fun '(instance_id, registry) =>
       registry_type ← Py.call (get_registry_type registry);
       formats ← Py.call (get_supported_formats registry);
       Py.modify (fun registries =>
         registries ++ [mkRegistryInfo instance_id
                          (Config.registry_type_value registry_type)
                          (Config.schema_format_value <$> formats)])))
    []
    (fun _ registries => registries).

(** An entry of the dictionary that [compare_compatibility_modes] returns:
    the dictionary with "global" and "subjects", or the one with "error". *)
Inductive ModesEntry :=
| modes (global : string) (subjects : gmap string string)
| modes_error (detail : string).

Definition compare_compatibility_modes (self : Self) : Outcome (gmap string ModesEntry) :=
  Py.run
    (Py.for_each (map_to_list (active_registries self)) (fun '(instance_id, registry) =>
       Py.try_except
         (global_mode ← Py.call (get_compatibility_mode registry None);
          subject_modes ← Py.call (get_all_compatibility_modes registry);
          Py.modify (fun results =>
            <[instance_id := modes (value global_mode) (value <$> subject_modes)]> results))
         (fun e =>
          Py.modify (fun results => <[instance_id := modes_error (str e)]> results))))
    ∅
    (fun _ results => results).

(** The locals [results] and [registry_results] of [bulk_set_compatibility]. *)
Record SetLocals := mkSetLocals {
  results : gmap string (gmap string string);
  registry_results : gmap string string
}.

(** [registry_results[key] = status] *)
Definition record_status (key status : string) : PyM SetLocals unit :=
  Py.modify (fun s => mkSetLocals (results s) (<[key := status]> (registry_results s))).

(** ["success" if success else "failed"] *)
Definition status_of (success : bool) : string :=
  if success then "success" else "failed".

(** [if subject_filter:] *)
Definition given (subject_filter : option string) : bool :=
  match subject_filter with
  | Some (String _ _) => true
  | _ => false
  end.

Definition bulk_set_compatibility (self : Self) (registry_ids : list string)
    (mode : CompatibilityMode) (subject_filter : option string)
  : Outcome (gmap string (gmap string string)) :=
  Py.run
    (Py.for_each registry_ids (fun registry_id =>
       match active_registries self !! registry_id with
       | None => mret tt
       | Some registry =>
         Py.modify (fun s => mkSetLocals (results s) ∅) ;;
         Py.try_except
           ((if given subject_filter
             then
               subjects ← Py.call (Orchestrator.list_subjects (contract registry)
                                     subject_filter);
               Py.for_each subjects (fun subject =>
                 Py.try_except
                   (success ← Py.call (set_compatibility_mode registry mode (Some subject));
                    record_status subject (status_of success))
                   (fun e => record_status subject ("error: " +:+ str e)))
             else
               Py.try_except
                 (success ← Py.call (set_compatibility_mode registry mode None);
                  record_status "global" (status_of success))
                 (fun e => record_status "global" ("error: " +:+ str e))) ;;
            Py.modify (fun s =>
              mkSetLocals (<[registry_id := registry_results s]> (results s))
                          (registry_results s)))
           (fun e =>
            Py.modify (fun s =>
              mkSetLocals (<[registry_id := {[ "error" := str e ]}]> (results s))
                          (registry_results s)))
       end))
    (mkSetLocals ∅ ∅)
    (fun _ s => results s).

(** *** Properties of the mode operations *)

(** The entry that [compare_compatibility_modes] stores for one instance. *)
Definition modes_entry (registry : Backend) : ModesEntry :=
  match get_compatibility_mode registry None with
  | Raised e => modes_error (str e)
  | Returned global_mode =>
      match get_all_compatibility_modes registry with
      | Raised e => modes_error (str e)
      | Returned subject_modes => modes (value global_mode) (value <$> subject_modes)
      end
  end.

Lemma compare_compatibility_modes_eq self :
  compare_compatibility_modes self
  = Returned (map_imap (fun _ registry => Some (modes_entry registry))
                       (active_registries self)).
Proof.
  apply Orchestrator.run_collect. intros k v r.
  unfold Py.try_except, mbind, PyM_bind, Py.call, Py.modify, modes_entry.
  destruct (get_compatibility_mode v None); [|done].
  by destruct (get_all_compatibility_modes v).
Qed.

(** X10: [compare_compatibility_modes] always returns, with one entry per live
    instance: the global mode and the subject overrides by name when both
    queries return, the text of the exception when the first or the second
    raises; no instance's failure changes the entry of another. *)
Theorem compare_modes_isolated (self : Self) :
  exists results,
    compare_compatibility_modes self = Returned results
    /\ dom results = dom (active_registries self)
    /\ (forall instance_id registry global_mode subject_modes,
          active_registries self !! instance_id = Some registry ->
          get_compatibility_mode registry None = Returned global_mode ->
          get_all_compatibility_modes registry = Returned subject_modes ->
          results !! instance_id
          = Some (modes (value global_mode) (value <$> subject_modes)))
    /\ (forall instance_id registry e,
          active_registries self !! instance_id = Some registry ->
          get_compatibility_mode registry None = Raised e ->
          results !! instance_id = Some (modes_error (str e)))
    /\ (forall instance_id registry global_mode e,
          active_registries self !! instance_id = Some registry ->
          get_compatibility_mode registry None = Returned global_mode ->
          get_all_compatibility_modes registry = Raised e ->
          results !! instance_id = Some (modes_error (str e)))
    /\ (forall self' instance_id,
          active_registries self' !! instance_id = active_registries self !! instance_id ->
          exists results',
            compare_compatibility_modes self' = Returned results'
            /\ results' !! instance_id = results !! instance_id).
Proof.
  eexists. split; [apply compare_compatibility_modes_eq|]. split_and!.
  - apply Orchestrator.imap_total_dom.
  - intros i reg g sm Hi Hg Hsm. rewrite map_lookup_imap, Hi. simpl.
    unfold modes_entry. by rewrite Hg, Hsm.
  - intros i reg e Hi Hg. rewrite map_lookup_imap, Hi. simpl.
    unfold modes_entry. by rewrite Hg.
  - intros i reg g e Hi Hg Hsm. rewrite map_lookup_imap, Hi. simpl.
    unfold modes_entry. by rewrite Hg, Hsm.
  - intros self' i Hi. eexists. split; [apply compare_compatibility_modes_eq|].
    by rewrite !map_lookup_imap, Hi.
Qed.

(** The status recorded for one subject, and for the global mode. *)
Definition status_for (registry : Backend) (mode : CompatibilityMode)
    (subject : option string) : string :=
  match set_compatibility_mode registry mode subject with
  | Returned success => status_of success
  | Raised e => "error: " +:+ str e
  end.

(** The dictionary recorded for one registry. *)
Definition set_entry (registry : Backend) (mode : CompatibilityMode)
    (subject_filter : option string) : gmap string string :=
  if given subject_filter
  then match Orchestrator.list_subjects (contract registry) subject_filter with
       | Raised e => {[ "error" := str e ]}
       | Returned subjects =>
           foldl (fun m subject => <[subject := status_for registry mode (Some subject)]> m)
                 ∅ subjects
       end
  else {[ "global" := status_for registry mode None ]}.

Lemma foldl_insert_lookup {V} (f : string -> option V) (ks : list string)
    (r0 : gmap string V) (i : string) :
  foldl (fun r k => match f k with Some v => <[k := v]> r | None => r end) r0 ks !! i
  = if bool_decide (i ∈ ks)
    then match f i with Some v => Some v | None => r0 !! i end
    else r0 !! i.
Proof.
  revert r0. induction ks as [|k ks IH]; intros r0; [done|]. simpl. rewrite IH.
  destruct (decide (i = k)) as [->|Hne].
  - rewrite (bool_decide_eq_true_2 (k ∈ k :: ks)) by (by left).
    destruct (f k) as [v|] eqn:Hf.
    + rewrite lookup_insert_eq. by case_bool_decide.
    + by case_bool_decide.
  - assert (Hiff : i ∈ k :: ks <-> i ∈ ks).
    { rewrite elem_of_cons. split; [by intros [?|?]|by right]. }
    rewrite (bool_decide_ext _ _ Hiff).
    destruct (f k) as [v|]; [by rewrite lookup_insert_ne|done].
Qed.

(** The locals after the iteration for one registry id. *)
Definition set_step (self : Self) (mode : CompatibilityMode)
    (subject_filter : option string) (s : SetLocals) (registry_id : string) : SetLocals :=
  match active_registries self !! registry_id with
  | Some registry =>
      mkSetLocals
        (<[registry_id := set_entry registry mode subject_filter]> (results s))
        (if given subject_filter
         then match Orchestrator.list_subjects (contract registry) subject_filter with
              | Raised _ => ∅
              | Returned _ => set_entry registry mode subject_filter
              end
         else set_entry registry mode subject_filter)
  | None => s
  end.

Lemma subjects_loop registry mode (subjects : list string) (s : SetLocals) :
  Py.for_each subjects (fun subject =>
    Py.try_except
      (success ← Py.call (set_compatibility_mode registry mode (Some subject));
       record_status subject (status_of success))
      (fun e => record_status subject ("error: " +:+ str e))) s
  = (Returned tt,
     mkSetLocals (results s)
       (foldl (fun m subject => <[subject := status_for registry mode (Some subject)]> m)
              (registry_results s) subjects)).
Proof.
  revert s. induction subjects as [|subject subjects IH]; intros [r rr]; [done|].
  simpl. unfold mbind at 1, PyM_bind at 1.
  unfold Py.try_except at 1, mbind at 1, PyM_bind at 1, Py.call at 1, record_status at 1 2,
    Py.modify, status_for.
  destruct (set_compatibility_mode registry mode (Some subject)); simpl; by rewrite IH.
Qed.

Lemma results_foldl_set_step self mode subject_filter (ids : list string) (s : SetLocals) :
  results (foldl (set_step self mode subject_filter) s ids)
  = foldl (fun r registry_id =>
             match (fun registry => set_entry registry mode subject_filter)
                     <$> active_registries self !! registry_id with
             | Some entry => <[registry_id := entry]> r
             | None => r
             end) (results s) ids.
Proof.
  revert s. induction ids as [|k ids IH]; intros s; [done|]. simpl. rewrite IH.
  unfold set_step. by destruct (active_registries self !! k).
Qed.

Lemma bulk_set_compatibility_eq self registry_ids mode subject_filter :
  bulk_set_compatibility self registry_ids mode subject_filter
  = Returned
      (foldl (fun r registry_id =>
                match (fun registry => set_entry registry mode subject_filter)
                        <$> active_registries self !! registry_id with
                | Some entry => <[registry_id := entry]> r
                | None => r
                end) ∅ registry_ids).
Proof.
  unfold bulk_set_compatibility, Py.run.
  rewrite (for_each_steps _ _ (set_step self mode subject_filter)).
  - by rewrite results_foldl_set_step.
  - intros registry_id _ [r rr]. unfold set_step, set_entry.
    destruct (active_registries self !! registry_id) as [registry|]; [|done].
    unfold mbind at 1, PyM_bind at 1, Py.modify at 1.
    unfold Py.try_except at 1, mbind at 1, PyM_bind at 1.
    destruct (given subject_filter).
    + unfold mbind at 1, PyM_bind at 1, Py.call at 1.
      destruct (Orchestrator.list_subjects (contract registry) subject_filter)
        as [subjects|e]; [|done].
      by rewrite subjects_loop.
    + unfold Py.try_except, mbind, PyM_bind, Py.call, record_status, Py.modify,
        status_for.
      by destruct (set_compatibility_mode registry mode None).
Qed.

(** X11: [bulk_set_compatibility] always returns; its result has an entry exactly
    for the requested ids that are live, and the entry of a registry is the
    same whatever the other requested registries are and do. *)
Theorem bulk_set_isolated (self : Self) (registry_ids : list string)
    (mode : CompatibilityMode) (subject_filter : option string) :
  exists results,
    bulk_set_compatibility self registry_ids mode subject_filter = Returned results
    /\ (forall registry_id,
          is_Some (results !! registry_id) <->
          registry_id ∈ registry_ids /\ is_Some (active_registries self !! registry_id))
    /\ (forall self' registry_ids' registry_id,
          registry_id ∈ registry_ids -> registry_id ∈ registry_ids' ->
          active_registries self' !! registry_id = active_registries self !! registry_id ->
          exists results',
            bulk_set_compatibility self' registry_ids' mode subject_filter
            = Returned results'
            /\ results' !! registry_id = results !! registry_id).
Proof.
  eexists. split; [apply bulk_set_compatibility_eq|]. split.
  - intros i. rewrite foldl_insert_lookup, lookup_empty.
    case_bool_decide as Hin.
    + destruct (active_registries self !! i); simpl; split;
        try done; try (by intros [_ [? ?]]); by intros [? ?].
    + split; [by intros [? ?]|by intros [? _]].
  - intros self' ids' i Hin Hin' Heq. eexists.
    split; [apply bulk_set_compatibility_eq|].
    rewrite !foldl_insert_lookup, !lookup_empty, Heq.
    by rewrite !bool_decide_eq_true_2.
Qed.

(** X12: Without a subject filter, and with the empty string as filter, the
    global mode is set: the entry of every requested live registry has the
    single key "global", with "success" or "failed" as the call returns true
    or false, and "error: " followed by the text of the exception if it
    raises. *)
Theorem bulk_set_global (self : Self) (registry_ids : list string)
    (mode : CompatibilityMode) (subject_filter : option string) :
  subject_filter = None \/ subject_filter = Some "" ->
  exists results,
    bulk_set_compatibility self registry_ids mode subject_filter = Returned results
    /\ forall registry_id registry,
         registry_id ∈ registry_ids ->
         active_registries self !! registry_id = Some registry ->
         (forall success,
            set_compatibility_mode registry mode None = Returned success ->
            results !! registry_id
            = Some {[ "global" := if success then "success" else "failed" ]})
         /\ (forall e,
              set_compatibility_mode registry mode None = Raised e ->
              results !! registry_id = Some {[ "global" := "error: " +:+ str e ]}).
Proof.
  intros Hfilter. eexists. split; [apply bulk_set_compatibility_eq|].
  intros i reg Hin Hlive.
  rewrite foldl_insert_lookup, lookup_empty, bool_decide_eq_true_2, Hlive by done.
  simpl. unfold set_entry, status_for, status_of.
  assert (Hgiven : given subject_filter = false) by (by destruct Hfilter as [-> | ->]).
  rewrite Hgiven. split.
  - intros success Hset. by rewrite Hset.
  - intros e Hset. by rewrite Hset.
Qed.

(** X13: With a subject filter, the entry of a requested live registry is the
    single key "error" with the text of the exception if listing its
    subjects raises; otherwise it has one key per listed subject, with
    "success", "failed" or "error: ..." as the call for that subject returns
    true, returns false or raises, so that the failure for one subject
    leaves the statuses of the others as they are. *)
Theorem bulk_set_per_subject (self : Self) (registry_ids : list string)
    (mode : CompatibilityMode) (subject_filter : string) :
  subject_filter ≠ "" ->
  exists results,
    bulk_set_compatibility self registry_ids mode (Some subject_filter)
    = Returned results
    /\ forall registry_id registry,
         registry_id ∈ registry_ids ->
         active_registries self !! registry_id = Some registry ->
         (forall e,
            Orchestrator.list_subjects (contract registry) (Some subject_filter)
            = Raised e ->
            results !! registry_id = Some {[ "error" := str e ]})
         /\ (forall subjects,
              Orchestrator.list_subjects (contract registry) (Some subject_filter)
              = Returned subjects ->
              exists entry,
                results !! registry_id = Some entry
                /\ (forall subject, is_Some (entry !! subject) <-> subject ∈ subjects)
                /\ (forall subject success,
                      subject ∈ subjects ->
                      set_compatibility_mode registry mode (Some subject)
                      = Returned success ->
                      entry !! subject
                      = Some (if success then "success" else "failed"))
                /\ (forall subject e,
                      subject ∈ subjects ->
                      set_compatibility_mode registry mode (Some subject) = Raised e ->
                      entry !! subject = Some ("error: " +:+ str e))).
Proof.
  intros Hfilter. eexists. split; [apply bulk_set_compatibility_eq|].
  intros i reg Hin Hlive.
  rewrite foldl_insert_lookup, lookup_empty, bool_decide_eq_true_2, Hlive by done.
  simpl. unfold set_entry.
  assert (Hgiven : given (Some subject_filter) = true) by (by destruct subject_filter).
  rewrite Hgiven. split.
  - intros e Hlist. by rewrite Hlist.
  - intros subjects Hlist. rewrite Hlist. eexists. split; [done|].
    pose proof (foldl_insert_lookup
                  (fun subject => Some (status_for reg mode (Some subject)))
                  subjects ∅) as Hlookup.
    simpl in Hlookup. split_and!.
    + intros subject. rewrite Hlookup, lookup_empty.
      case_bool_decide; split; try done; by intros [? ?].
    + intros subject success Hs Hset. rewrite Hlookup, bool_decide_eq_true_2 by done.
      unfold status_for, status_of. by rewrite Hset.
    + intros subject e Hs Hset. rewrite Hlookup, bool_decide_eq_true_2 by done.
      unfold status_for. by rewrite Hset.
Qed.

(** *** Properties of the registry management *)

Ltac run_self :=
  unfold add_registry, remove_registry, on_plugin_registry, mbind, PyM_bind,
    Py.locals, Py.call, Py.modify, mret, PyM_ret.


(** X15: An [add_registry] that raises leaves the orchestrator and the plugin
    registry as they were. *)
Theorem add_registry_failure (self self' : Self) (config : Config.RegistryConfig)
    (e : Exc) :
  add_registry config self = (Raised e, self') -> self' = self.
Proof.
  run_self.
  destruct (PluginRegistry.create_instance config (Some (Config.id config))
              (plugin_registry self)) as [[instance|e'] registry'] eqn:Hcreate; [done|].
  intros [= <- <-]. destruct self as [registry active ex]. simpl in *. f_equal.
  revert Hcreate. unfold PluginRegistry.create_instance, mbind, PyM_bind, Py.locals,
    Py.call, Py.modify, mret, PyM_ret.
  destruct (ODict.get (PluginRegistry._plugins registry) (Config.type config))
    as [cls|]; [|by intros [= _ <-]].
  destruct (PluginRegistry.construct cls config); [|by intros [= _ <-]].
  by destruct (Config.id config) as [|c rest].
Qed.

(** X16: [remove_registry] takes the id out of the orchestrator and nothing
    else: the other instances stay, an unknown id changes nothing, the
    plugin registry still holds the instance it created, and [query_all]
    afterwards has no entry for the id. *)
Theorem remove_registry_effect (self : Self) (instance_id : string) :
  exists self',
    remove_registry instance_id self = (Returned tt, self')
    /\ get_registry self' instance_id = None
    /\ (forall other, other ≠ instance_id ->
          get_registry self' other = get_registry self other)
    /\ plugin_registry self' = plugin_registry self
    /\ (get_registry self instance_id = None -> self' = self)
    /\ (forall operation kwargs,
          exists answers,
            Orchestrator.query_all (core self') operation kwargs = Returned answers
            /\ answers !! instance_id = None).
Proof.
  run_self. unfold get_registry. case_bool_decide as Hin; simpl.
  - eexists. split; [done|]. simpl. split_and!.
    + apply lookup_delete_eq.
    + intros other Hother. by apply lookup_delete_ne.
    + done.
    + intros Hnone. rewrite Hnone in Hin. by destruct Hin.
    + intros operation kwargs. eexists.
      split; [apply Orchestrator.query_all_eq|]. unfold core. simpl.
      by rewrite map_lookup_imap, lookup_fmap, lookup_delete_eq.
  - assert (Hnone : active_registries self !! instance_id = None).
    { destruct (active_registries self !! instance_id); [|done].
      exfalso. apply Hin. by eexists. }
    exists self. split; [done|]. split_and!; try done.
    intros operation kwargs. eexists.
    split; [apply Orchestrator.query_all_eq|]. unfold core. simpl.
    by rewrite map_lookup_imap, lookup_fmap, Hnone.
Qed.

Lemma for_each_raises {S A} (xs : list A) (body : A -> PyM S unit) (x : A) :
  x ∈ xs ->
  (forall s, exists e s', body x s = (Raised e, s')) ->
  forall s, exists e s', Py.for_each xs body s = (Raised e, s').
Proof.
  intros Hin Hraise. induction xs as [|y xs IH]; intros s;
    [by apply elem_of_nil in Hin|].
  simpl. unfold mbind, PyM_bind.
  destruct (body y s) as [[[]|e] s1] eqn:Hy; [|by eexists _, _].
  apply elem_of_cons in Hin as [->|Hin]; [|by apply IH].
  destruct (Hraise s) as (e & s' & Hx). congruence.
Qed.

(** The value that a call returned, [d] if it raised. *)
Definition returned_or {A} (d : A) (o : Outcome A) : A :=
  match o with
  | Returned a => a
  | Raised _ => d
  end.

Definition info_of (p : string * Backend) : RegistryInfo :=
  mkRegistryInfo p.1
    (Config.registry_type_value (returned_or CONFLUENT (get_registry_type p.2)))
    (Config.schema_format_value <$> returned_or [] (get_supported_formats p.2)).

(** X17: [list_registries] has no handler: when every live instance tells its
    type and its formats, the list has exactly one element per instance,
    with the id, the value of the type and the values of the formats; when
    one instance raises on either question, the whole call raises. *)
Theorem list_registries_all_or_nothing (self : Self) :
  ((forall instance_id registry,
      active_registries self !! instance_id = Some registry ->
      (exists t, get_registry_type registry = Returned t)
      /\ (exists fs, get_supported_formats registry = Returned fs)) ->
   exists infos,
     list_registries self = Returned infos
     /\ length infos = size (active_registries self)
     /\ NoDup (info_id <$> infos)
     /\ forall info,
          info ∈ infos <->
          exists registry t fs,
            active_registries self !! info_id info = Some registry
            /\ get_registry_type registry = Returned t
            /\ get_supported_formats registry = Returned fs
            /\ info_type info = Config.registry_type_value t
            /\ info_supported_formats info = Config.schema_format_value <$> fs)
  /\ (forall instance_id registry,
        active_registries self !! instance_id = Some registry ->
        (exists e, get_registry_type registry = Raised e)
        \/ (exists e, get_supported_formats registry = Raised e) ->
        exists e, list_registries self = Raised e).
Proof.
  split.
  - intros Hall. exists (info_of <$> map_to_list (active_registries self)).
    split_and!.
    + unfold list_registries, Py.run.
      rewrite (for_each_steps _ _ (fun s p => s ++ [info_of p])).
      * by rewrite UnityCatalog.foldl_snoc.
      * intros [i reg] Hin s. apply elem_of_map_to_list in Hin.
        destruct (Hall i reg Hin) as [[t Ht] [fs Hfs]].
        unfold mbind, PyM_bind, Py.call, Py.modify, info_of. simpl.
        by rewrite Ht, Hfs.
    + by rewrite length_fmap, length_map_to_list.
    + rewrite <-list_fmap_compose.
      apply (NoDup_fst_map_to_list (active_registries self)).
    + intros info. rewrite list_elem_of_fmap. split.
      * intros ([i reg] & -> & Hin). apply elem_of_map_to_list in Hin.
        destruct (Hall i reg Hin) as [[t Ht] [fs Hfs]].
        exists reg, t, fs. unfold info_of. simpl. by rewrite Ht, Hfs.
      * intros (reg & t & fs & Hlive & Ht & Hfs & Htype & Hformats).
        exists (info_id info, reg). split; [|by apply elem_of_map_to_list].
        destruct info as [i ty fo]. unfold info_of. simpl in *.
        by rewrite Ht, Hfs, Htype, Hformats.
  - intros i reg Hlive Hraise. unfold list_registries, Py.run.
    destruct (for_each_raises (map_to_list (active_registries self))
                (fun '(instance_id, registry) =>
                   registry_type ← Py.call (get_registry_type registry);
                   formats ← Py.call (get_supported_formats registry);
                   Py.modify (fun registries =>
                     registries ++ [mkRegistryInfo instance_id
                                      (Config.registry_type_value registry_type)
                                      (Config.schema_format_value <$> formats)]))
                (i, reg)) with (s := @nil RegistryInfo) as (e & s' & Hrun).
    + by apply elem_of_map_to_list.
    + intros s. unfold mbind, PyM_bind, Py.call.
      destruct Hraise as [[e He]|[e He]].
      * rewrite He. by eexists _, _.
      * destruct (get_registry_type reg); rewrite ?He; by eexists _, _.
    + rewrite Hrun. by eexists.
Qed.

End Federation.

(** *** Concrete backends *)

(** The backend [confluent_like] with its further methods: the mode of
    "orders-value" can be set, that of any other subject times out. *)
Definition confluent_backend : @Backend unit string :=
  mkBackend Orchestrator.confluent_like
    (Returned CONFLUENT)
    (Returned [AVRO; PROTOBUF; JSON_SCHEMA])
    (fun _ => Returned BACKWARD)
    (fun _ subject =>
       match subject with
       | Some name => if bool_decide (name = "orders-value") then Returned true
                      else Raised Orchestrator.timeout
       | None => Returned false
       end)
    (Returned {[ "orders-value" := FULL ]}).

Definition confluent_class : @PluginRegistry.PluginClass (@Backend unit string) :=
  PluginRegistry.mkPluginClass "<class 'ConfluentSchemaRegistryPlugin'>" true
    (fun _ => Returned confluent_backend).

(** An orchestrator that knows the Confluent plugin and has no instance. *)
Definition started : @Self unit string :=
  mkSelf (PluginRegistry.mkPluginRegistry [(CONFLUENT, confluent_class)] [])
         ∅ Orchestrator.reversing_pool.

Definition unity_config : Config.RegistryConfig :=
  Config.mkRegistryConfig "uc1" UNITY_CATALOG "https://dbc.example" ∅ ∅ 30 3 ∅ true.

(** The orchestrator [started] with the instance "reg1". *)
Definition running : @Self unit string :=
  (add_registry PluginRegistry.reg1_config started).2.


Lemma add_registry_failure_witness :
  (add_registry unity_config started).2 = started.
Proof.
  eapply (add_registry_failure started _ unity_config). by vm_compute.
Defined.

Lemma bulk_set_global_witness :
  exists results,
    bulk_set_compatibility running ["reg1"; "reg9"] FULL (Some "") = Returned results
    /\ results !! "reg1" = Some {[ "global" := "failed" ]}.
Proof.
  destruct (bulk_set_global running ["reg1"; "reg9"] FULL (Some ""))
    as (results & Hres & Hentry); [by right|].
  exists results. split; [done|].
  destruct (Hentry "reg1" confluent_backend) as [Hreturned _];
    [compute_done|by vm_compute|].
  by apply (Hreturned false).
Defined.

Lemma bulk_set_per_subject_witness :
  exists results entry,
    bulk_set_compatibility running ["reg1"] FULL (Some "orders") = Returned results
    /\ results !! "reg1" = Some entry
    /\ entry !! "orders-value" = Some "success".
Proof.
  destruct (bulk_set_per_subject running ["reg1"] FULL "orders")
    as (results & Hres & Hentry); [done|].
  destruct (Hentry "reg1" confluent_backend) as [_ Hlisted];
    [compute_done|by vm_compute|].
  destruct (Hlisted ["orders-value"]) as (entry & Hlookup & _ & Hok & _); [done|].
  exists results, entry. split_and!; [done|done|].
  apply (Hok "orders-value" true); [compute_done|done].
Defined.

End Federation.

(** ** The HTTP session of a plugin *)

Module Http.

(** What a request of the session followed by [response.raise_for_status()]
    gives: a response that passes, with its status code and with what
    [response.json()] does; an [HTTPError] raised by [raise_for_status],
    with [e.response.status_code] and [str(e)]; or an exception raised by
    the request itself, which is no [HTTPError]: a connection error or a
    timeout, of class [RequestException], or whatever else a session
    raises. *)
Inductive Reply (Body : Type) :=
| Response (status_code : Z) (json : Outcome Body)
| HTTPError (status_code : Z) (message : string)
| NoReply (e : Exc).
Arguments Response {Body} status_code json.
Arguments HTTPError {Body} status_code message.
Arguments NoReply {Body} e.

(** The exception value of an [HTTPError], a [RequestException]. *)
Definition http_error (message : string) : Exc := mkExc RequestException message.

#[global] Instance ExcClass_eq_dec : EqDecision ExcClass.
Proof. solve_decision. Defined.

(** [isinstance(e, cls)] for a class without modelled subclasses. *)
Definition isinstance (e : Exc) (cls : ExcClass) : bool :=
  bool_decide (exc_class e = cls).

#[global] Instance Outcome_ret : MRet Outcome := fun A a => Returned a.

#[global] Instance Outcome_bind : MBind Outcome :=
  fun A B k o => match o with Returned a => k a | Raised e => Raised e end.

(** [try: body  except cls: handler], the other exceptions passing. *)
Definition except {A} (body : Outcome A) (cls : ExcClass) (handler : Exc -> Outcome A)
  : Outcome A :=
  match body with
  | Returned a => Returned a
  | Raised e => if isinstance e cls then handler e else Raised e
  end.

End Http.

Import Http.

Module UnityPlugin.

Section UnityPlugin.

Context {Kwargs Data : Type}.

(** The nested types of the schemas that are checked, as the evolution
    check sees them. *)
Context {Nested : Type} `{EqDecision Nested}.

(** [repr] of a string, which is what [str] of a [KeyError] shows;
    [json.dumps] of the schema dictionary with "type" "struct" and the given
    fields; [json.loads] of a schema text, which raises on a text that is
    no JSON and returns the schema's fields otherwise; the text of the
    [TypeError] that hashing a nested type raises and what [str] shows of
    it. *)
Variable repr : string -> string.
Variable json_dumps : list UnityCatalog.BuiltField -> string.
Variable json_loads : string -> Outcome (@Iceberg.IcebergSchema Nested).
Variable unhashable_text : Nested -> string.
Variable shown : Nested -> string.

(** The JSON object of a table, with the keys that the plugin reads. *)
Record Table := mkTable {
  columns : option (list UnityCatalog.Column);
  table_id : option string;
  table_type : option string;
  data_source_format : option string;
  storage_location : option string
}.

(** An element of "tables" in the listing of a catalog. *)
Record TableEntry := mkTableEntry {
  catalog_name : option string;
  schema_name : option string;
  name : option string
}.

Record Listing := mkListing { tables : option (list TableEntry) }.

(** The server behind [self.session], during one call of a method: what it
    answers to a GET of a table's URL, of the tables' URL with the parameter
    "catalog_name", and of the catalogs' URL. *)
Record Session := mkSession {
  get_table : string -> Reply Table;
  get_tables : string -> string -> Reply Listing;
  get_catalogs : string -> Reply unit
}.

Record UnityCatalogPlugin := mkPlugin {
  base_url : string;
  catalog : string;
  session : Session
}.

Definition get_registry_type : RegistryType := UNITY_CATALOG.

Definition get_supported_formats : list SchemaFormat := [ICEBERG; AVRO].

(** [data.get(key)] as a value of the metadata. *)
Definition get_or_none (o : option string) : Any :=
  match o with
  | Some s => PyStr s
  | None => PyNone
  end.

Definition not_found (subject : string) : Exc :=
  mkExc KeyError (repr ("Table " +:+ subject +:+ " not found")).

Definition get_schema_by_subject_version (self : UnityCatalogPlugin)
    (subject : string) (version : Z) : Outcome Schema :=
  '(catalog, schema_name, table_name) ← UnityCatalog._parse_subject subject;
  let full_name := UnityCatalog.full_name catalog schema_name table_name in
  let url := base_url self +:+ "/api/2.1/unity-catalog/tables/" +:+ full_name in
  match get_table (session self) url with
  | Response _ json =>
      data ← json;
      fields ← UnityCatalog._uc_columns_to_iceberg (default [] (columns data));
      mret (mkSchema subject version ICEBERG (json_dumps fields) get_registry_type None
              {[ "table_id" := get_or_none (table_id data);
                 "table_type" := get_or_none (table_type data);
                 "data_source_format" := get_or_none (data_source_format data);
                 "storage_location" := get_or_none (storage_location data) ]}
              None None)
  | HTTPError status_code message =>
      if bool_decide (status_code = 404%Z) then Raised (not_found subject)
      else Raised (http_error message)
  | NoReply e => Raised e
  end.

Definition get_latest_schema (self : UnityCatalogPlugin) (subject : string)
  : Outcome Schema :=
  get_schema_by_subject_version self subject 1.

(** [if prefix and not subject.startswith(prefix): continue] *)
Definition skipped (prefix : option string) (subject : string) : bool :=
  match prefix with
  | Some (String c rest) => negb (Text.startswith subject (String c rest))
  | _ => false
  end.

(** One step of the loop of [list_subjects]. *)
Definition list_table (prefix : option string) (table : TableEntry)
  : PyM (list string) unit :=
  catalog_name ← Py.call (UnityCatalog.required_key "catalog_name" (catalog_name table));
  schema_name ← Py.call (UnityCatalog.required_key "schema_name" (schema_name table));
  name ← Py.call (UnityCatalog.required_key "name" (name table));
  let subject := UnityCatalog.full_name catalog_name schema_name name in
  if skipped prefix subject then mret tt
  else Py.modify (fun subjects => subjects ++ [subject]).

Definition list_subjects (self : UnityCatalogPlugin) (prefix : option string)
  : Outcome (list string) :=
  let url := base_url self +:+ "/api/2.1/unity-catalog/tables" in
  except
    (match get_tables (session self) url (catalog self) with
     | Response _ json =>
         data ← json;
         Py.run (Py.for_each (default [] (tables data)) (list_table prefix))
                [] (fun _ subjects => subjects)
     | HTTPError _ message => Raised (http_error message)
     | NoReply e => Raised e
     end)
    RequestException
    (fun e => Returned []).

Definition list_versions (self : UnityCatalogPlugin) (subject : string)
  : Outcome (list Z) :=
  except (get_latest_schema self subject ;; mret [1%Z])
         KeyError
         (fun _ => Returned []).

Definition new_table : CompatibilityResult :=
  mkCompatibilityResult true ["New table - no compatibility check needed"] BACKWARD [].

Definition check_compatibility (self : UnityCatalogPlugin) (subject schema_content : string)
    (schema_format : SchemaFormat) (version : option Z) : Outcome CompatibilityResult :=
  match
    (current_schema ← get_latest_schema self subject;
     new_schema_json ← json_loads schema_content;
     current_schema_json ← json_loads (Models.schema_content current_schema);
     '(is_compatible, messages) ←
        Iceberg._check_iceberg_evolution unhashable_text shown current_schema_json
          new_schema_json;
     mret (mkCompatibilityResult is_compatible messages BACKWARD
             (if is_compatible then [] else messages)))
  with
  | Returned result => Returned result
  | Raised e =>
      if isinstance e KeyError then Returned new_table
      else Returned (mkCompatibilityResult false [] NONE [str e])
  end.

Definition get_compatibility_mode (subject : option string) : CompatibilityMode :=
  BACKWARD.

Definition set_compatibility_mode (mode : CompatibilityMode) (subject : option string)
  : bool := true.

Definition get_all_compatibility_modes (self : UnityCatalogPlugin)
  : Outcome (gmap string CompatibilityMode) :=
  subjects ← list_subjects self None;
  Py.run (Py.for_each subjects (fun subject =>
            Py.modify (fun modes => <[subject := BACKWARD]> modes)))
         ∅ (fun _ modes => modes).

Definition discover_schemas (self : UnityCatalogPlugin) (namespace : option string)
  : Outcome (list Schema) :=
  match
    (subjects ← list_subjects self namespace;
     Py.run (Py.for_each subjects (fun subject =>
               Py.try_except
                 (schema ← Py.call (get_latest_schema self subject);
                  Py.modify (fun schemas => schemas ++ [schema]))
                 (fun e => mret tt)))
            [] (fun _ schemas => schemas))
  with
  | Returned schemas => Returned schemas
  | Raised e => Returned []
  end.

(** [getattr(e.response, 'status_code', 0) if hasattr(e, 'response') else 0]
    is the status code of an [HTTPError] and 0 for a request that got no
    response.  [start_time] and [end_time] are the two readings of
    [time.time()]. *)
Definition health_check (self : UnityCatalogPlugin) (start_time end_time : float)
  : Outcome HealthStatus :=
  let url := base_url self +:+ "/api/2.1/unity-catalog/catalogs" in
  let response_time := PrimFloat.mul (PrimFloat.sub end_time start_time) 1000%float in
  let failed (status_code : Z) (e : Exc) :=
    mkHealthStatus false status_code ("Health check failed: " +:+ str e) response_time
      {[ "url" := PyStr (base_url self); "error" := PyStr (str e) ]} in
  match get_catalogs (session self) url with
  | Response status_code _ =>
      Returned (mkHealthStatus true status_code "Unity Catalog is healthy" response_time
                  {[ "url" := PyStr (base_url self);
                     "catalog" := PyStr (catalog self);
                     "registry_type" := PyStr (Config.registry_type_value get_registry_type) ]})
  | HTTPError status_code message => Returned (failed status_code (http_error message))
  | NoReply e => if isinstance e RequestException then Returned (failed 0%Z e) else Raised e
  end.

(** The plugin as the orchestrator holds it.  [invoke] is the dynamic call
    of [query_all]. *)
Definition as_registry (self : UnityCatalogPlugin)
    (invoke : string -> Kwargs -> Outcome Data) (start_time end_time : float)
  : @Orchestrator.ISchemaRegistry Kwargs Data :=
  Orchestrator.mkRegistry invoke (get_latest_schema self)
    (health_check self start_time end_time) (list_subjects self) (list_versions self)
    (get_schema_by_subject_version self) (check_compatibility self).

Definition as_backend (self : UnityCatalogPlugin)
    (invoke : string -> Kwargs -> Outcome Data) (start_time end_time : float)
  : @Federation.Backend Kwargs Data :=
  Federation.mkBackend (as_registry self invoke start_time end_time)
    (Returned get_registry_type) (Returned get_supported_formats)
    (fun subject => Returned (get_compatibility_mode subject))
    (fun mode subject => Returned (set_compatibility_mode mode subject))
    (get_all_compatibility_modes self).

(** *** Properties *)

(** The subject of a table of the listing. *)
Definition subject_of (table : TableEntry) : Outcome string :=
  catalog_name ← UnityCatalog.required_key "catalog_name" (catalog_name table);
  schema_name ← UnityCatalog.required_key "schema_name" (schema_name table);
  name ← UnityCatalog.required_key "name" (name table);
  mret (UnityCatalog.full_name catalog_name schema_name name).

Fixpoint subjects_of (tables : list TableEntry) : Outcome (list string) :=
  match tables with
  | [] => Returned []
  | table :: rest =>
      subject ← subject_of table;
      subjects ← subjects_of rest;
      mret (subject :: subjects)
  end.

Definition kept (prefix : option string) (subject : string) : bool :=
  negb (skipped prefix subject).

Lemma list_tables_eq prefix tables (acc : list string) :
  Py.run (Py.for_each tables (list_table prefix)) acc (fun _ subjects => subjects)
  = (subjects ← subjects_of tables; mret (acc ++ List.filter (kept prefix) subjects)).
Proof.
  revert acc. induction tables as [|table tables IH]; intros acc.
  - unfold Py.run. simpl. by rewrite app_nil_r.
  - unfold Py.run in *. simpl. unfold mbind at 1, PyM_bind at 1.
    unfold list_table at 1, subject_of, mbind at 1 2 3, PyM_bind at 1 2 3, Py.call,
      UnityCatalog.required_key.
    destruct (catalog_name table) as [c|]; [|done].
    destruct (schema_name table) as [sn|]; [|done].
    destruct (name table) as [n|]; [|done]. simpl.
    destruct (skipped prefix (UnityCatalog.full_name c sn n)) eqn:Hskip; simpl.
    + rewrite IH. unfold mbind, Outcome_bind, mret, Outcome_ret.
      destruct (subjects_of tables); [|done]. simpl. unfold kept at 2.
      by rewrite Hskip.
    + unfold Py.modify. rewrite IH. unfold mbind, Outcome_bind, mret, Outcome_ret.
      destruct (subjects_of tables); [|done]. simpl. unfold kept at 2.
      rewrite Hskip. simpl. by rewrite <-app_assoc.
Qed.

(** The listing of the catalog, before the handler of [list_subjects]. *)
Definition listed (self : UnityCatalogPlugin) : Outcome (list string) :=
  match get_tables (session self) (base_url self +:+ "/api/2.1/unity-catalog/tables")
          (catalog self) with
  | Response _ json => data ← json; subjects_of (default [] (tables data))
  | HTTPError _ message => Raised (http_error message)
  | NoReply e => Raised e
  end.

Lemma list_subjects_eq self prefix :
  list_subjects self prefix
  = except (subjects ← listed self; mret (List.filter (kept prefix) subjects))
           RequestException (fun _ => Returned []).
Proof.
  unfold list_subjects, listed. f_equal.
  destruct (get_tables _ _ _) as [code [data|e]|code msg|e]; try done.
  unfold mbind at 1 3, Outcome_bind at 1 3.
  by rewrite list_tables_eq.
Qed.

Lemma filter_all {A} (l : list A) : List.filter (fun _ => true) l = l.
Proof. induction l as [|x l IH]; simpl; by rewrite ?IH. Qed.


(** [list_versions] gives [[1]], [[]] or an exception that is no
    [KeyError]. *)
Lemma list_versions_eq self subject :
  list_versions self subject
  = match get_latest_schema self subject with
    | Returned _ => Returned [1%Z]
    | Raised e => if isinstance e KeyError then Returned [] else Raised e
    end.
Proof. unfold list_versions, except. by destruct (get_latest_schema self subject). Qed.

(** X19: The orchestrator's check of one subject of a Unity Catalog backend
    never compares two schemas, as [list_versions] gives at most one
    version: the result is "Single version - no compatibility check needed",
    compatible, when the table can be read and also when the lookup raises
    a [KeyError] (the table does not exist); if the lookup raises anything
    else, the result is incompatible with the text of the exception as its
    only error. *)
Theorem check_single_subject_one_version (self : UnityCatalogPlugin)
    (invoke : string -> Kwargs -> Outcome Data) (start_time end_time : float)
    (subject : string) (target_mode : CompatibilityMode) :
  let registry := as_registry self invoke start_time end_time in
  let single :=
    mkCompatibilityResult true ["Single version - no compatibility check needed"]
      target_mode [] in
  (forall schema,
     get_latest_schema self subject = Returned schema ->
     Orchestrator._check_single_subject registry subject target_mode = Returned single)
  /\ (forall e,
        get_latest_schema self subject = Raised e ->
        Orchestrator._check_single_subject registry subject target_mode
        = Returned (if bool_decide (exc_class e = KeyError) then single
                    else mkCompatibilityResult false [] target_mode [str e])).
Proof.
  intros registry single.
  unfold Orchestrator._check_single_subject, Py.run, Py.try_except, mbind, PyM_bind,
    Py.call.
  unfold registry at 1 3. simpl. rewrite list_versions_eq. unfold isinstance.
  split.
  - intros schema ->. done.
  - intros e ->. by case_bool_decide.
Qed.

(** A verdict of the evolution check has at least one message. *)
Lemma evolution_messages old_schema new_schema is_compatible messages :
  Iceberg._check_iceberg_evolution unhashable_text shown old_schema new_schema
  = Returned (is_compatible, messages) ->
  messages ≠ [].
Proof.
  rewrite Iceberg.check_iceberg_evolution_unfold.
  destruct (Iceberg.by_id _) as [old_fields|e]; [|done].
  destruct (Iceberg.by_id _) as [new_fields|e]; [|done].
  destruct (Iceberg.loops_fault _ _ _) as [e|]; [done|].
  intros [= <- <-]. apply Iceberg.verdict_has_message.
Qed.

(** X20: [check_compatibility] always returns.  Its result is compatible exactly
    when it has no errors; it has no messages exactly when its level is
    NONE, which is the case of an exception other than a [KeyError], and
    then the text of that exception is its only error; at the level
    BACKWARD the errors of an incompatible result are its messages. *)
Theorem check_compatibility_returns (self : UnityCatalogPlugin)
    (subject schema_content : string) (schema_format : SchemaFormat)
    (version : option Z) :
  exists result,
    check_compatibility self subject schema_content schema_format version
    = Returned result
    /\ (is_compatible result = true <-> errors result = [])
    /\ (messages result = [] <-> compatibility_level result = NONE)
    /\ (compatibility_level result = NONE \/ compatibility_level result = BACKWARD)
    /\ (compatibility_level result = NONE -> length (errors result) = 1)
    /\ (compatibility_level result = BACKWARD -> is_compatible result = false ->
        errors result = messages result).
Proof.
  unfold check_compatibility.
  destruct (get_latest_schema self subject) as [current|e]; simpl; last first.
  { destruct (isinstance e KeyError); eexists; (split; [done|]); simpl;
      split_and!; first [done|by left|by right]. }
  destruct (json_loads schema_content) as [new_json|e]; simpl; last first.
  { destruct (isinstance e KeyError); eexists; (split; [done|]); simpl;
      split_and!; first [done|by left|by right]. }
  destruct (json_loads (Models.schema_content current)) as [current_json|e]; simpl;
    last first.
  { destruct (isinstance e KeyError); eexists; (split; [done|]); simpl;
      split_and!; first [done|by left|by right]. }
  destruct (Iceberg._check_iceberg_evolution unhashable_text shown current_json new_json)
    as [[c ms]|e] eqn:Hcheck; simpl; last first.
  { destruct (isinstance e KeyError); eexists; (split; [done|]); simpl;
      split_and!; first [done|by left|by right]. }
  pose proof (evolution_messages _ _ _ _ Hcheck) as Hms.
  eexists. split; [done|]. simpl.
  split_and!; try done; try (by right).
  - by destruct c.
  - by intros _ ->.
Qed.

(** X21: A table that Unity Catalog does not have (the request fails with status
    404) passes the compatibility check as a new table whatever the schema
    text is, valid or not; and so does a table that it has but one of whose
    columns lacks the key "name" or "type_name". *)
Theorem check_compatibility_new_table (self : UnityCatalogPlugin)
    (subject schema_content catalog schema_name table_name : string)
    (schema_format : SchemaFormat) (version : option Z) :
  UnityCatalog._parse_subject subject = Returned (catalog, schema_name, table_name) ->
  let url := base_url self +:+ "/api/2.1/unity-catalog/tables/"
             +:+ UnityCatalog.full_name catalog schema_name table_name in
  (exists message, get_table (session self) url = HTTPError 404 message)
  \/ (exists status_code data table_columns,
        get_table (session self) url = Response status_code (Returned data)
        /\ columns data = Some table_columns
        /\ ¬ Forall UnityCatalog.named table_columns) ->
  check_compatibility self subject schema_content schema_format version
  = Returned new_table.
Proof.
  intros Hparse url Hreply.
  assert (Hlatest : exists e, get_latest_schema self subject = Raised e
                              /\ exc_class e = KeyError).
  { unfold get_latest_schema, get_schema_by_subject_version.
    rewrite Hparse. simpl. fold url.
    destruct Hreply as [[message ->]|(code & data & cols & -> & Hcols & Hnot)].
    - rewrite bool_decide_eq_true_2 by done. by eexists.
    - simpl. rewrite Hcols. simpl.
      destruct (UnityCatalog.uc_columns_to_iceberg_raises cols Hnot) as [key ->].
      by eexists. }
  destruct Hlatest as (e & Hlatest & Hclass).
  unfold check_compatibility. rewrite Hlatest. simpl.
  unfold isinstance. by rewrite bool_decide_eq_true_2.
Qed.

Lemma get_all_compatibility_modes_eq self :
  get_all_compatibility_modes self
  = (subjects ← list_subjects self None;
     mret (foldl (fun modes subject => <[subject := BACKWARD]> modes) ∅ subjects)).
Proof.
  unfold get_all_compatibility_modes. destruct (list_subjects self None); [|done].
  simpl. unfold Py.run.
  by rewrite (for_each_steps _ _ (fun modes subject => <[subject := BACKWARD]> modes)).
Qed.

Lemma lookup_all_backward (subjects : list string) (subject : string) :
  (value <$> foldl (fun modes subject => <[subject := BACKWARD]> modes)
                   (∅ : gmap string CompatibilityMode) subjects) !! subject
  = if bool_decide (subject ∈ subjects) then Some "BACKWARD" else None.
Proof.
  rewrite lookup_fmap.
  rewrite (Federation.foldl_insert_lookup (fun _ => Some BACKWARD) subjects ∅ subject).
  rewrite lookup_empty. by case_bool_decide.
Qed.

Lemma lookup_all_success (registry : @Federation.Backend Kwargs Data) mode
    (subjects : list string) (subject : string) :
  (forall subject, Federation.set_compatibility_mode registry mode (Some subject)
                   = Returned true) ->
  foldl (fun m subject =>
           <[subject := Federation.status_for registry mode (Some subject)]> m)
        (∅ : gmap string string) subjects !! subject
  = if bool_decide (subject ∈ subjects) then Some "success" else None.
Proof.
  intros Hset.
  rewrite (Federation.foldl_insert_lookup
             (fun subject => Some (Federation.status_for registry mode (Some subject)))
             subjects ∅ subject).
  rewrite lookup_empty. unfold Federation.status_for. by rewrite Hset.
Qed.

(** X22: Setting a compatibility mode on a Unity Catalog backend reports success
    and changes nothing.  [bulk_set_compatibility] records "success" under
    "global" without a filter, and with one "success" for every subject
    that the backend lists under it (or the single entry "error" if the
    listing raises); whatever mode was set, [compare_compatibility_modes]
    shows BACKWARD as the backend's global mode and as the mode of each of
    its subjects (or the text of the exception if the listing raises). *)
Theorem set_mode_reports_success (fed : @Federation.Self Kwargs Data)
    (registry_ids : list string) (mode : CompatibilityMode)
    (subject_filter : option string) (registry_id : string)
    (self : UnityCatalogPlugin) (invoke : string -> Kwargs -> Outcome Data)
    (start_time end_time : float) :
  Federation.active_registries fed !! registry_id
  = Some (as_backend self invoke start_time end_time) ->
  registry_id ∈ registry_ids ->
  exists results entry comparison,
    Federation.bulk_set_compatibility fed registry_ids mode subject_filter
    = Returned results
    /\ results !! registry_id = Some entry
    /\ (Federation.given subject_filter = false -> entry = {[ "global" := "success" ]})
    /\ (Federation.given subject_filter = true ->
        (forall subjects,
           list_subjects self subject_filter = Returned subjects ->
           forall subject,
             entry !! subject
             = if bool_decide (subject ∈ subjects) then Some "success" else None)
        /\ (forall e,
              list_subjects self subject_filter = Raised e ->
              entry = {[ "error" := str e ]}))
    /\ Federation.compare_compatibility_modes fed = Returned comparison
    /\ (forall subjects,
          list_subjects self None = Returned subjects ->
          exists subject_modes,
            comparison !! registry_id = Some (Federation.modes "BACKWARD" subject_modes)
            /\ forall subject,
                 subject_modes !! subject
                 = if bool_decide (subject ∈ subjects) then Some "BACKWARD" else None)
    /\ (forall e,
          list_subjects self None = Raised e ->
          comparison !! registry_id = Some (Federation.modes_error (str e))).
Proof.
  intros Hlive Hin. eexists _, _, _.
  split; [apply Federation.bulk_set_compatibility_eq|].
  split.
  { rewrite Federation.foldl_insert_lookup, lookup_empty, bool_decide_eq_true_2, Hlive
      by done. done. }
  unfold Federation.set_entry. simpl. split_and!.
  - by intros ->.
  - intros ->. split.
    + intros subjects -> subject. by apply lookup_all_success.
    + by intros e ->.
  - apply Federation.compare_compatibility_modes_eq.
  - intros subjects Hlist. rewrite map_lookup_imap, Hlive. simpl.
    unfold Federation.modes_entry. simpl.
    rewrite get_all_compatibility_modes_eq, Hlist. simpl.
    eexists. split; [done|]. apply lookup_all_backward.
  - intros e Hlist. rewrite map_lookup_imap, Hlive. simpl.
    unfold Federation.modes_entry. simpl.
    by rewrite get_all_compatibility_modes_eq, Hlist.
Qed.

(** What a returned schema is. *)
Lemma get_schema_returned self subject version schema :
  get_schema_by_subject_version self subject version = Returned schema ->
  Models.subject schema = subject /\ Models.version schema = version
  /\ schema_format schema = ICEBERG /\ registry_type schema = UNITY_CATALOG
  /\ Models.id schema = None.
Proof.
  unfold get_schema_by_subject_version.
  destruct (UnityCatalog._parse_subject subject) as [[[c sn] n]|e]; [|done]. simpl.
  destruct (get_table _ _) as [code [data|e]|code msg|e]; try done.
  - simpl. destruct (UnityCatalog._uc_columns_to_iceberg _); [|done].
    simpl. by intros [= <-].
  - by case_bool_decide.
Qed.

(** The schemas that the loop of [discover_schemas] collects. *)
Definition found (self : UnityCatalogPlugin) (subject : string) : list Schema :=
  match get_latest_schema self subject with
  | Returned schema => [schema]
  | Raised _ => []
  end.

Lemma foldl_app_concat {A B} (f : A -> list B) (xs : list A) (acc : list B) :
  foldl (fun acc x => acc ++ f x) acc xs = acc ++ concat (f <$> xs).
Proof.
  revert acc. induction xs as [|x xs IH]; intros acc; simpl.
  - by rewrite app_nil_r.
  - by rewrite IH, app_assoc.
Qed.

Lemma elem_of_concat {A} (x : A) (ls : list (list A)) :
  x ∈ concat ls <-> exists l, x ∈ l /\ l ∈ ls.
Proof.
  induction ls as [|l ls IH]; simpl.
  - split; [by intros ?%elem_of_nil|]. by intros (l & _ & ?%elem_of_nil).
  - rewrite elem_of_app, IH. split.
    + intros [Hx|(l' & Hx & Hl')]; [exists l|exists l']; split; try done;
        [by left|by right].
    + intros (l' & Hx & [->|Hl']%elem_of_cons); [by left|right; by exists l'].
Qed.

Lemma discover_schemas_eq self namespace :
  discover_schemas self namespace
  = Returned match list_subjects self namespace with
             | Returned subjects => concat (found self <$> subjects)
             | Raised _ => []
             end.
Proof.
  unfold discover_schemas. destruct (list_subjects self namespace) as [subjects|e];
    [|done].
  simpl. unfold Py.run.
  rewrite (for_each_steps _ _ (fun schemas subject => schemas ++ found self subject)).
  - by rewrite foldl_app_concat.
  - intros subject _ schemas.
    unfold Py.try_except, mbind, PyM_bind, Py.call, Py.modify, found.
    destruct (get_latest_schema self subject); [done|]. by rewrite app_nil_r.
Qed.

Lemma found_subjects self (subjects : list string) :
  Models.subject <$> concat (found self <$> subjects) `sublist_of` subjects.
Proof.
  induction subjects as [|subject subjects IH]; [done|].
  rewrite fmap_cons, concat_cons, fmap_app. unfold found at 1.
  destruct (get_latest_schema self subject) as [schema|e] eqn:Hlatest; simpl.
  - apply get_schema_returned in Hlatest as (-> & _). by apply sublist_skip.
  - by apply sublist_cons.
Qed.

(** X23: [discover_schemas] always returns: nothing if the listing raises, and
    otherwise the tables of the listing that can be read, in the order of
    the listing and without the others; each schema is the one that
    [get_latest_schema] gives for its subject, in the format ICEBERG, with
    version 1, the registry type UNITY_CATALOG and no id. *)
Theorem discover_schemas_returns (self : UnityCatalogPlugin) (namespace : option string) :
  exists schemas,
    discover_schemas self namespace = Returned schemas
    /\ (forall e, list_subjects self namespace = Raised e -> schemas = [])
    /\ (forall subjects,
          list_subjects self namespace = Returned subjects ->
          Models.subject <$> schemas `sublist_of` subjects
          /\ forall subject,
               subject ∈ subjects ->
               (subject ∈ Models.subject <$> schemas
                <-> exists schema, get_latest_schema self subject = Returned schema))
    /\ Forall (fun schema =>
                get_latest_schema self (Models.subject schema) = Returned schema
                /\ schema_format schema = ICEBERG /\ Models.version schema = 1%Z
                /\ registry_type schema = UNITY_CATALOG /\ Models.id schema = None)
              schemas.
Proof.
  eexists. split; [apply discover_schemas_eq|].
  destruct (list_subjects self namespace) as [subjects|e]; split_and!; try done.
  - intros ? [= <-]. split; [apply found_subjects|].
    intros subject Hin. rewrite list_elem_of_fmap. split.
    + intros (schema & -> & Hs). apply elem_of_concat in Hs as (l & Hs & Hl).
      apply list_elem_of_fmap in Hl as (subject' & -> & _). unfold found in Hs.
      destruct (get_latest_schema self subject') as [schema'|] eqn:Hlatest;
        [|by apply elem_of_nil in Hs].
      apply list_elem_of_singleton in Hs as ->.
      pose proof (get_schema_returned _ _ _ _ Hlatest) as (-> & _). by exists schema'.
    + intros [schema Hlatest]. exists schema.
      pose proof (get_schema_returned _ _ _ _ Hlatest) as (Hsub & _). split; [done|].
      apply elem_of_concat. exists [schema]. split; [by left|].
      apply list_elem_of_fmap. exists subject. split; [|done].
      unfold found. by rewrite Hlatest.
  - apply Forall_forall. intros schema Hs.
    apply elem_of_concat in Hs as (l & Hs & Hl).
    apply list_elem_of_fmap in Hl as (subject' & -> & _). unfold found in Hs.
    destruct (get_latest_schema self subject') as [schema'|] eqn:Hlatest;
      [|by apply elem_of_nil in Hs].
    apply list_elem_of_singleton in Hs as ->.
    pose proof (get_schema_returned _ _ _ _ Hlatest) as (Hsub & Hv & Hf & Hr & Hi).
    by rewrite Hsub.
Qed.

End UnityPlugin.

(** *** A concrete catalog *)

(** [repr] of a string without quotes or escapes. *)
Definition quoted (s : string) : string := "'" +:+ s +:+ "'".

(** A [json.loads] for which no text is JSON. *)
Definition no_json (s : string) : Outcome (@Iceberg.IcebergSchema string) :=
  Raised (mkExc ValueError "Expecting value: line 1 column 1 (char 0)").

(** A catalog with the table "main.sales.orders" and nothing else; the
    listing names a second table, "main.sales.items", that is gone. *)
Definition sales : Session :=
  mkSession
    (fun url =>
       if bool_decide (url = "https://dbc.example/api/2.1/unity-catalog/tables/main.sales.orders")
       then Response 200
              (Returned (mkTable
                 (Some [UnityCatalog.mkColumn (Some "id") (Some "BIGINT") (Some "LONG")
                          (Some 1%Z) (Some false) None])
                 (Some "t-1") (Some "MANAGED") (Some "DELTA") None))
       else HTTPError 404 "404 Client Error: Not Found")
    (fun _ _ =>
       Response 200
         (Returned (mkListing
            (Some [mkTableEntry (Some "main") (Some "sales") (Some "orders");
                   mkTableEntry (Some "main") (Some "sales") (Some "items")]))))
    (fun _ => Response 200 (Returned tt)).

Definition unity : UnityCatalogPlugin := mkPlugin "https://dbc.example" "main" sales.

Definition names (fields : list UnityCatalog.BuiltField) : string :=
  String.concat "," (UnityCatalog.bf_name <$> fields).

Lemma check_compatibility_new_table_witness :
  check_compatibility quoted names no_json Iceberg.dict_unhashable Iceberg.as_shown unity
    "main.sales.items" "not json" ICEBERG None
  = Returned new_table.
Proof.
  apply (check_compatibility_new_table quoted names no_json Iceberg.dict_unhashable
           Iceberg.as_shown unity "main.sales.items"
           "not json" "main" "sales" "items"); [by vm_compute|].
  left. by eexists.
Defined.

(** An orchestrator whose only instance is the catalog. *)
Definition lakehouse : @Federation.Self unit string :=
  Federation.mkSelf (PluginRegistry.mkPluginRegistry [] [])
    {[ "uc1" := as_backend quoted names no_json Iceberg.dict_unhashable Iceberg.as_shown
                  unity (fun _ _ => Returned "ok")
                  PrimFloat.zero PrimFloat.one ]}
    Orchestrator.reversing_pool.

Lemma set_mode_reports_success_witness :
  exists results comparison,
    Federation.bulk_set_compatibility lakehouse ["uc1"] FULL None = Returned results
    /\ results !! "uc1" = Some {[ "global" := "success" ]}
    /\ Federation.compare_compatibility_modes lakehouse = Returned comparison
    /\ exists subject_modes,
         comparison !! "uc1" = Some (Federation.modes "BACKWARD" subject_modes)
         /\ subject_modes !! "main.sales.orders" = Some "BACKWARD".
Proof.
  assert (Hlive : Federation.active_registries lakehouse !! "uc1"
                  = Some (as_backend quoted names no_json Iceberg.dict_unhashable
                            Iceberg.as_shown unity
                            (fun _ _ => Returned "ok") PrimFloat.zero PrimFloat.one))
    by apply lookup_singleton_eq.
  assert (Hin : "uc1" ∈ ["uc1"]) by compute_done.
  assert (Hlist : list_subjects unity None
                  = Returned ["main.sales.orders"; "main.sales.items"])
    by (by vm_compute).
  pose proof (set_mode_reports_success quoted names no_json Iceberg.dict_unhashable
                Iceberg.as_shown lakehouse ["uc1"] FULL None
                "uc1" unity (fun _ _ => Returned "ok") PrimFloat.zero PrimFloat.one
                Hlive Hin)
    as (results & entry & comparison & Hset & Hentry & Hglobal & _ & Hcmp & Hmodes & _).
  rewrite (Hglobal eq_refl) in Hentry.
  destruct (Hmodes _ Hlist) as (subject_modes & Hc & Hs).
  exists results, comparison. split; [exact Hset|]. split; [exact Hentry|].
  split; [exact Hcmp|]. exists subject_modes. split; [exact Hc|].
  exact (Hs "main.sales.orders").
Defined.

End UnityPlugin.

(** ** [src/plugins/confluent/plugin.py] *)

Module ConfluentPlugin.

Section ConfluentPlugin.

Context {Kwargs Data : Type}.

(** [repr] of a string, which is what [str] of a [KeyError] shows. *)
Variable repr : string -> string.

(** The JSON object of a schema version, of a compatibility check and of a
    configuration, with the keys that the plugin reads. *)
Record VersionData := mkVersionData {
  vd_id : option Z;
  vd_subject : option string;
  vd_version : option Z;
  vd_schemaType : option string;
  vd_schema : option string
}.

Record CheckData := mkCheckData {
  cd_is_compatible : option bool;
  cd_messages : option (list string)
}.

Record ConfigData := mkConfigData { compatibilityLevel : option string }.

(** The server behind [self.session], during one call of a method: what it
    answers to a GET of the URL of a schema version, of the subjects, of the
    versions of a subject and of a configuration, to a POST of a schema text
    and a schema type to a compatibility URL, and to a PUT of a
    compatibility level to a configuration URL. *)
Record Session := mkSession {
  get_version : string -> Reply VersionData;
  get_subjects : string -> Reply (list string);
  get_versions : string -> Reply (list Z);
  post_compatibility : string -> string -> string -> Reply CheckData;
  get_config : string -> Reply ConfigData;
  put_config : string -> string -> Reply unit
}.

Record ConfluentSchemaRegistryPlugin := mkPlugin {
  base_url : string;
  session : Session
}.

Definition get_registry_type : RegistryType := CONFLUENT.

Definition get_supported_formats : list SchemaFormat := [AVRO; PROTOBUF; JSON_SCHEMA].

Definition _map_format_to_confluent (format : SchemaFormat) : string :=
  match format with
  | AVRO => "AVRO"
  | PROTOBUF => "PROTOBUF"
  | JSON_SCHEMA => "JSON"
  | _ => "AVRO"
  end.

Definition _map_confluent_to_format (confluent_type : string) : SchemaFormat :=
  if String.eqb confluent_type "AVRO" then AVRO
  else if String.eqb confluent_type "PROTOBUF" then PROTOBUF
  else if String.eqb confluent_type "JSON" then JSON_SCHEMA
  else AVRO.

(** [if subject:] and [if prefix:] *)
Definition given (text : option string) : bool :=
  match text with
  | Some (String _ _) => true
  | _ => false
  end.

(** The [except HTTPError] clause of the lookups: a 404 becomes the
    [KeyError] with the given text, any other status is raised again. *)
Definition not_found (status_code : Z) (message text : string) : Exc :=
  if bool_decide (status_code = 404%Z) then mkExc KeyError (repr text)
  else http_error message.

Definition get_schema_by_subject_version (self : ConfluentSchemaRegistryPlugin)
    (subject : string) (version : Z) : Outcome Schema :=
  let url := base_url self +:+ "/subjects/" +:+ subject +:+ "/versions/"
             +:+ pretty version in
  match get_version (session self) url with
  | Response _ json =>
      data ← json;
      schema_content ← UnityCatalog.required_key "schema" (vd_schema data);
      mret (mkSchema (default subject (vd_subject data))
                     (default version (vd_version data))
                     (_map_confluent_to_format (default "AVRO" (vd_schemaType data)))
                     schema_content get_registry_type (vd_id data) ∅ None None)
  | HTTPError status_code message =>
      Raised (not_found status_code message
                ("Subject " +:+ subject +:+ " version " +:+ pretty version
                 +:+ " not found"))
  | NoReply e => Raised e
  end.

(** The handler of [list_subjects] raises again what it catches. *)
Definition list_subjects (self : ConfluentSchemaRegistryPlugin) (prefix : option string)
  : Outcome (list string) :=
  let url := base_url self +:+ "/subjects" in
  match get_subjects (session self) url with
  | Response _ json =>
      subjects ← json;
      mret (match prefix with
            | Some (String c rest) =>
                List.filter (fun s => Text.startswith s (String c rest)) subjects
            | _ => subjects
            end)
  | HTTPError _ message => Raised (http_error message)
  | NoReply e => Raised e
  end.

Definition list_versions (self : ConfluentSchemaRegistryPlugin) (subject : string)
  : Outcome (list Z) :=
  let url := base_url self +:+ "/subjects/" +:+ subject +:+ "/versions" in
  match get_versions (session self) url with
  | Response _ json => json
  | HTTPError status_code message =>
      Raised (not_found status_code message ("Subject " +:+ subject +:+ " not found"))
  | NoReply e => Raised e
  end.

(** [CompatibilityMode[mode_str]]: the member of that name; every member's
    name is its value. *)
Definition all_modes : list CompatibilityMode :=
  [NONE; BACKWARD; BACKWARD_TRANSITIVE; FORWARD; FORWARD_TRANSITIVE; FORWARD_FULL;
   FULL; FULL_TRANSITIVE].

Definition member (mode_str : string) : Outcome CompatibilityMode :=
  match List.find (fun mode => String.eqb (value mode) mode_str) all_modes with
  | Some mode => Returned mode
  | None => Raised (mkExc KeyError (repr mode_str))
  end.

(** The body of [get_compatibility_mode] for one URL; [on_missing] is what
    the handler does on the status 404. *)
Definition query_mode (self : ConfluentSchemaRegistryPlugin) (url : string)
    (on_missing : Exc -> Outcome CompatibilityMode) : Outcome CompatibilityMode :=
  match get_config (session self) url with
  | Response _ json =>
      data ← json;
      member (default "BACKWARD" (compatibilityLevel data))
  | HTTPError status_code message =>
      if bool_decide (status_code = 404%Z) then on_missing (http_error message)
      else Raised (http_error message)
  | NoReply e => Raised e
  end.

(** With a subject, a 404 leads to the call without one, where a 404 is
    raised again. *)
Definition get_compatibility_mode (self : ConfluentSchemaRegistryPlugin)
    (subject : option string) : Outcome CompatibilityMode :=
  match subject with
  | Some (String c rest) =>
      query_mode self (base_url self +:+ "/config/" +:+ String c rest)
        (fun _ => query_mode self (base_url self +:+ "/config") Raised)
  | _ => query_mode self (base_url self +:+ "/config") Raised
  end.

(** [f"/{version}" if version else "/latest"] *)
Definition version_path (version : option Z) : string :=
  match version with
  | Some v => if bool_decide (v = 0%Z) then "/latest" else "/" +:+ pretty v
  | None => "/latest"
  end.

Definition request_failed (e : Exc) : CompatibilityResult :=
  mkCompatibilityResult false [] NONE [str e].

Definition check_compatibility (self : ConfluentSchemaRegistryPlugin)
    (subject schema_content : string) (schema_format : SchemaFormat) (version : option Z)
  : Outcome CompatibilityResult :=
  let url := base_url self +:+ "/compatibility/subjects/" +:+ subject +:+ "/versions"
             +:+ version_path version in
  except
    (match post_compatibility (session self) url schema_content
             (_map_format_to_confluent schema_format) with
     | Response _ json =>
         data ← json;
         compatibility_level ← get_compatibility_mode self (Some subject);
         mret (mkCompatibilityResult (default false (cd_is_compatible data))
                 (default [] (cd_messages data)) compatibility_level [])
     | HTTPError _ message => Raised (http_error message)
     | NoReply e => Raised e
     end)
    RequestException
    (fun e => Returned (request_failed e)).

Definition set_compatibility_mode (self : ConfluentSchemaRegistryPlugin)
    (mode : CompatibilityMode) (subject : option string) : Outcome bool :=
  let url := match subject with
             | Some (String c rest) => base_url self +:+ "/config/" +:+ String c rest
             | _ => base_url self +:+ "/config"
             end in
  except
    (match put_config (session self) url (value mode) with
     | Response _ _ => Returned true
     | HTTPError _ message => Raised (http_error message)
     | NoReply e => Raised e
     end)
    RequestException
    (fun _ => Returned false).

Definition get_all_compatibility_modes (self : ConfluentSchemaRegistryPlugin)
  : Outcome (gmap string CompatibilityMode) :=
  match
    (subjects ← list_subjects self None;
     Py.run (Py.for_each subjects (fun subject =>
               Py.try_except
                 (mode ← Py.call (get_compatibility_mode self (Some subject));
                  Py.modify (fun modes => <[subject := mode]> modes))
                 (fun _ => mret tt)))
            ∅ (fun _ modes => modes))
  with
  | Returned modes => Returned modes
  | Raised _ => Returned ∅
  end.

(** The plugin as the orchestrator holds it.  [invoke] is the dynamic call
    of [query_all]; [latest] and [health] are [get_latest_schema] and
    [health_check], which the properties below do not look at. *)
Definition as_registry (self : ConfluentSchemaRegistryPlugin)
    (invoke : string -> Kwargs -> Outcome Data) (latest : string -> Outcome Schema)
    (health : Outcome HealthStatus)
  : @Orchestrator.ISchemaRegistry Kwargs Data :=
  Orchestrator.mkRegistry invoke latest health (list_subjects self) (list_versions self)
    (get_schema_by_subject_version self) (check_compatibility self).

(** *** Properties *)

(** X24: Schema format -> Confluent schema type -> schema format gives back each
    of the three supported formats and turns every other format into AVRO;
    whatever schema type the registry reports, the format is a supported
    one. *)
Theorem format_round_trip :
  (forall format,
     _map_confluent_to_format (_map_format_to_confluent format)
     = if bool_decide (format ∈ get_supported_formats) then format else AVRO)
  /\ (forall confluent_type,
        _map_confluent_to_format confluent_type ∈ get_supported_formats).
Proof.
  split.
  - intros format. by destruct format; vm_compute.
  - intros t. unfold _map_confluent_to_format, get_supported_formats.
    repeat (match goal with
            | |- context [if String.eqb ?a ?b then _ else _] => destruct (String.eqb a b)
            end); set_solver.
Qed.

(** X25: [check_compatibility] does not tell version 0 from no version: both are
    checked against the latest version; and it does not reject a format that
    the plugin does not support: the schema is posted as an AVRO schema. *)
Theorem check_compatibility_defaults (self : ConfluentSchemaRegistryPlugin)
    (subject schema_content : string) (schema_format : SchemaFormat)
    (version : option Z) :
  check_compatibility self subject schema_content schema_format (Some 0%Z)
  = check_compatibility self subject schema_content schema_format None
  /\ (schema_format ∉ get_supported_formats ->
      check_compatibility self subject schema_content schema_format version
      = check_compatibility self subject schema_content AVRO version).
Proof.
  split; [done|]. intros Hnot. unfold check_compatibility.
  destruct schema_format; try done; exfalso; apply Hnot; set_solver.
Qed.

(** The exceptions that the handlers for [RequestException] catch. *)
Definition caught (e : Exc) : Prop := exc_class e = RequestException.

(** X26: [check_compatibility] raises no [RequestException]; a result with an
    error is incompatible, without messages and at the level NONE, its only
    error the text of the exception.  That is the result also when the
    registry answers the check and then fails to tell the compatibility
    level of the subject: if that lookup raises a [RequestException], no
    schema is reported compatible, whatever the registry answered. *)
Theorem check_compatibility_outcomes (self : ConfluentSchemaRegistryPlugin)
    (subject schema_content : string) (schema_format : SchemaFormat)
    (version : option Z) :
  let outcome := check_compatibility self subject schema_content schema_format version in
  (forall e, outcome = Raised e -> ¬ caught e)
  /\ (forall result, outcome = Returned result -> errors result ≠ [] ->
        exists e, caught e /\ result = request_failed e)
  /\ (forall e, get_compatibility_mode self (Some subject) = Raised e -> caught e ->
        forall result, outcome = Returned result ->
          exists e', caught e' /\ result = request_failed e').
Proof.
  cbv zeta. unfold check_compatibility, except, isinstance, caught.
  generalize (get_compatibility_mode self (Some subject)). intros level_outcome.
  destruct (post_compatibility _ _ _ _) as [code [data|e]|code msg|e]; simpl.
  - destruct level_outcome as [level|e]; simpl.
    + split_and!; try done. by intros result [= <-].
    + case_bool_decide as Hclass; split_and!; try done.
      * intros result [= <-] _. by exists e.
      * intros e' [= <-] _ result [= <-]. by exists e.
      * by intros e' [= <-].
  - case_bool_decide as Hclass; split_and!; try done.
    + intros result [= <-] _. by exists e.
    + intros e' _ _ result [= <-]. by exists e.
    + by intros e' [= <-].
  - split_and!; try done.
    + intros result [= <-] _. by exists (http_error msg).
    + intros e' _ _ result [= <-]. by exists (http_error msg).
  - case_bool_decide as Hclass; split_and!; try done.
    + intros result [= <-] _. by exists e.
    + intros e' _ _ result [= <-]. by exists e.
    + by intros e' [= <-].
Qed.

(** A request that ends in an exception that the handlers for
    [RequestException] catch: an HTTP error status, no response, or a
    response whose body is no JSON. *)
Definition unanswered {Body} (reply : Reply Body) : Prop :=
  match reply with
  | Response _ (Returned _) => False
  | Response _ (Raised e) => caught e
  | HTTPError _ _ => True
  | NoReply e => caught e
  end.

Lemma check_compatibility_unanswered self subject schema_content schema_format version :
  unanswered (post_compatibility (session self)
                (base_url self +:+ "/compatibility/subjects/" +:+ subject +:+ "/versions"
                 +:+ version_path version)
                schema_content (_map_format_to_confluent schema_format)) ->
  exists e, check_compatibility self subject schema_content schema_format version
            = Returned (request_failed e).
Proof.
  unfold check_compatibility, unanswered, caught, except, isinstance.
  destruct (post_compatibility _ _ _ _) as [code [data|e]|code msg|e]; simpl;
    try done.
  - intros ->. rewrite bool_decide_eq_true_2 by done. by eexists.
  - intros _. by eexists.
  - intros ->. rewrite bool_decide_eq_true_2 by done. by eexists.
Qed.

(** X27: While the compatibility endpoint of a Confluent registry is out of
    order, the orchestrator's check of a subject with two or more versions,
    the latest of which can be fetched, says that the subject is
    incompatible and gives "All versions compatible" as its only message:
    the plugin turns each failed request into an incompatible result
    without a message, and the orchestrator reads the absence of messages
    as the absence of problems. *)
Theorem check_single_subject_endpoint_down (self : ConfluentSchemaRegistryPlugin)
    (invoke : string -> Kwargs -> Outcome Data) (latest : string -> Outcome Schema)
    (health : Outcome HealthStatus) (subject : string) (target_mode : CompatibilityMode)
    (versions : list Z) (latest_version : Z) (schema : Schema) :
  list_versions self subject = Returned versions ->
  2 <= length versions ->
  last versions = Some latest_version ->
  get_schema_by_subject_version self subject latest_version = Returned schema ->
  (forall url text type, unanswered (post_compatibility (session self) url text type)) ->
  Orchestrator._check_single_subject (as_registry self invoke latest health) subject
    target_mode
  = Returned (mkCompatibilityResult false ["All versions compatible"] target_mode []).
Proof.
  intros Hversions Hlen Hlast Hschema Hdown.
  rewrite (Orchestrator.check_single_subject_history _ subject target_mode versions
             latest_version schema) by done.
  unfold Orchestrator.history_result. f_equal.
  assert (Hfailed : forall version,
            exists e, check_compatibility self subject (schema_content schema)
                        (schema_format schema) (Some version)
                      = Returned (request_failed e)).
  { intros version. apply check_compatibility_unanswered, Hdown. }
  assert (Hmsgs : forall prior : list Z,
            concat (Orchestrator.version_messages (as_registry self invoke latest health)
                      subject schema <$> prior) = []).
  { induction prior as [|v prior IH]; [done|]. rewrite fmap_cons, concat_cons, IH.
    unfold Orchestrator.version_messages. simpl.
    destruct (Hfailed v) as [e ->]. done. }
  f_equal.
  - destruct (removelast versions) as [|v prior] eqn:Hprior.
    + destruct versions as [|a [|b rest]]; simpl in *; try lia. done.
    + simpl. unfold Orchestrator.version_compatible at 1. simpl.
      destruct (Hfailed v) as [e ->]. done.
  - by rewrite Hmsgs.
Qed.

(** The entry of a subject in the result of [get_all_compatibility_modes]. *)
Definition mode_entry (self : ConfluentSchemaRegistryPlugin) (subject : string)
  : option CompatibilityMode :=
  match get_compatibility_mode self (Some subject) with
  | Returned mode => Some mode
  | Raised _ => None
  end.

Lemma all_modes_eq self :
  get_all_compatibility_modes self
  = Returned match list_subjects self None with
             | Returned subjects =>
                 foldl (fun modes subject =>
                          match mode_entry self subject with
                          | Some mode => <[subject := mode]> modes
                          | None => modes
                          end) ∅ subjects
             | Raised _ => ∅
             end.
Proof.
  unfold get_all_compatibility_modes.
  destruct (list_subjects self None) as [subjects|e]; [|done]. simpl. unfold Py.run.
  rewrite (for_each_steps _ _
             (fun modes subject =>
                match mode_entry self subject with
                | Some mode => <[subject := mode]> modes
                | None => modes
                end)); [done|].
  intros subject _ modes. unfold mode_entry, get_compatibility_mode.
  destruct subject as [|c rest];
    repeat (match goal with
            | |- context [query_mode ?a ?b ?c] => generalize (query_mode a b c); intros ?
            end);
    unfold Py.try_except, mbind, PyM_bind, Py.call, Py.modify;
    by repeat (match goal with o : Outcome _ |- _ => destruct o end).
Qed.

(** X28: [get_all_compatibility_modes] always returns: the empty dictionary if
    the subjects cannot be listed, and otherwise an entry for each listed
    subject whose mode can be read.  A subject without a configuration of
    its own (the registry answers 404) is not left out: it has the global
    mode as its entry whenever the global mode can be read. *)
Theorem all_modes_include_global (self : ConfluentSchemaRegistryPlugin) :
  exists modes,
    get_all_compatibility_modes self = Returned modes
    /\ (forall e, list_subjects self None = Raised e -> modes = ∅)
    /\ (forall subjects,
          list_subjects self None = Returned subjects ->
          (forall subject,
             modes !! subject
             = if bool_decide (subject ∈ subjects) then mode_entry self subject else None)
          /\ (forall subject message global_mode,
                subject ∈ subjects -> subject ≠ "" ->
                get_config (session self) (base_url self +:+ "/config/" +:+ subject)
                = HTTPError 404 message ->
                get_compatibility_mode self None = Returned global_mode ->
                modes !! subject = Some global_mode)).
Proof.
  eexists. split; [apply all_modes_eq|].
  destruct (list_subjects self None) as [subjects|e]; split; try done.
  - intros ? [= <-].
    assert (Hlookup : forall subject,
              foldl (fun modes subject =>
                       match mode_entry self subject with
                       | Some mode => <[subject := mode]> modes
                       | None => modes
                       end) (∅ : gmap string CompatibilityMode) subjects !! subject
              = if bool_decide (subject ∈ subjects) then mode_entry self subject
                else None).
    { intros subject. rewrite (Federation.foldl_insert_lookup (mode_entry self)).
      rewrite lookup_empty. case_bool_decide; [|done]. by destruct (mode_entry self subject). }
    split; [done|].
    intros subject message global_mode Hin Hne Hconfig Hglobal.
    rewrite Hlookup, bool_decide_eq_true_2 by done.
    unfold mode_entry, get_compatibility_mode in *.
    destruct subject as [|c rest]; [done|].
    unfold query_mode at 1. rewrite Hconfig, bool_decide_eq_true_2 by done.
    by rewrite Hglobal.
Qed.

End ConfluentPlugin.

(** *** A concrete registry *)

(** [repr] of a string without quotes or escapes. *)
Definition quoted (s : string) : string := "'" +:+ s +:+ "'".

(** A registry with the two versions of "orders-value" whose compatibility
    endpoint answers 500 and whose configuration endpoint knows the global
    level only. *)
Definition broken : Session :=
  mkSession
    (fun _ => Response 200
       (Returned (mkVersionData (Some 7%Z) (Some "orders-value") (Some 2%Z) (Some "PROTOBUF")
                    (Some "message Order { required int64 id = 1; }"))))
    (fun _ => Response 200 (Returned ["orders-value"]))
    (fun _ => Response 200 (Returned [1%Z; 2%Z]))
    (fun _ _ _ => HTTPError 500 "500 Server Error: Internal Server Error")
    (fun url => if bool_decide (url = "http://localhost:8081/config")
                then Response 200 (Returned (mkConfigData (Some "FULL")))
                else HTTPError 404 "404 Client Error: Not Found")
    (fun _ _ => Response 200 (Returned tt)).

Definition registry : ConfluentSchemaRegistryPlugin :=
  mkPlugin "http://localhost:8081" broken.

Lemma check_single_subject_endpoint_down_witness :
  Orchestrator._check_single_subject
    (as_registry quoted registry (fun (_ : string) (_ : unit) => Returned "ok")
       (fun _ => Raised Orchestrator.timeout) (Raised Orchestrator.timeout))
    "orders-value" BACKWARD
  = Returned (mkCompatibilityResult false ["All versions compatible"] BACKWARD []).
Proof.
  assert (Hversions : list_versions quoted registry "orders-value"
                      = Returned [1%Z; 2%Z]) by done.
  assert (Hlen : 2 <= length [1%Z; 2%Z]) by (simpl; lia).
  assert (Hlast : last [1%Z; 2%Z] = Some 2%Z) by done.
  assert (Hdown : forall url text type,
            unanswered (post_compatibility (session registry) url text type)) by done.
  exact (check_single_subject_endpoint_down quoted registry _ _ _ "orders-value" BACKWARD
           [1%Z; 2%Z] 2%Z _ Hversions Hlen Hlast eq_refl Hdown).
Defined.

End ConfluentPlugin.

(** ** [scripts/generate_test_report.py]: the statistics of the JSON report *)

Module Report.

Import Transitions.

(** The dictionary that [_calculate_statistics] returns. *)
Record Statistics := mkStatistics {
  total : nat;
  by_risk_level : gmap string nat;
  requiring_validation : nat
}.

(** One iteration of the loop, for the row [t]:
    [stats["by_risk_level"][risk_level] = stats["by_risk_level"].get(risk_level, 0) + 1]
    and the count of the rows that require validation. *)
Definition count_row (stats : Statistics) (t : Transition) : Statistics :=
  mkStatistics
    (total stats)
    (<[risk_level t := default 0 (by_risk_level stats !! risk_level t) + 1]>
       (by_risk_level stats))
    (if requires_validation t then requiring_validation stats + 1
     else requiring_validation stats).

Definition _calculate_statistics (compatibility_data : list Transition) : Statistics :=
  foldl count_row
    (mkStatistics (length compatibility_data)
                  {[ "SAFE" := 0; "RISKY" := 0; "DANGEROUS" := 0 ]} 0)
    compatibility_data.

(** *** Properties *)

(** The number of rows with a given risk level, and of those that require
    validation. *)
Definition rows_at (risk : string) (data : list Transition) : nat :=
  length (List.filter (fun t => String.eqb (risk_level t) risk) data).

Definition rows_requiring (data : list Transition) : nat :=
  length (List.filter requires_validation data).

(** The sum of the counts of a dictionary. *)
Definition sum_counts (counts : gmap string nat) : nat :=
  map_fold (fun _ n acc => n + acc) 0 counts.

Lemma sum_counts_fresh (counts : gmap string nat) (k : string) (n : nat) :
  counts !! k = None -> sum_counts (<[k := n]> counts) = n + sum_counts counts.
Proof.
  intros Hk. unfold sum_counts.
  rewrite (map_fold_insert_L (fun (_ : string) (n acc : nat) => n + acc) 0 k n counts);
    [done| |done].
  intros. lia.
Qed.

Lemma sum_counts_insert (counts : gmap string nat) (k : string) (n : nat) :
  sum_counts (<[k := n]> counts) + default 0 (counts !! k) = sum_counts counts + n.
Proof.
  destruct (counts !! k) as [m|] eqn:Hk; simpl.
  - rewrite <-(insert_delete_id counts k m) at 2 by done.
    rewrite <-(insert_delete_eq counts).
    rewrite !sum_counts_fresh by apply lookup_delete_eq. lia.
  - rewrite sum_counts_fresh by done. lia.
Qed.

Lemma foldl_count_row (data : list Transition) (stats : Statistics) :
  let stats' := foldl count_row stats data in
  total stats' = total stats
  /\ (forall risk,
        default 0 (by_risk_level stats' !! risk)
        = default 0 (by_risk_level stats !! risk) + rows_at risk data)
  /\ dom (by_risk_level stats')
     = dom (by_risk_level stats) ∪ list_to_set (risk_level <$> data)
  /\ sum_counts (by_risk_level stats') = sum_counts (by_risk_level stats) + length data
  /\ requiring_validation stats' = requiring_validation stats + rows_requiring data.
Proof.
  revert stats. induction data as [|t data IH]; intros stats; simpl.
  - split_and!; try done; try lia. by rewrite union_empty_r_L.
  - destruct (IH (count_row stats t)) as (Ht & Hr & Hd & Hs & Hv). split_and!.
    + by rewrite Ht.
    + intros risk. rewrite Hr. unfold rows_at. simpl.
      destruct (String.eqb_spec (risk_level t) risk) as [<-|Hne]; simpl.
      * rewrite lookup_insert_eq. simpl. lia.
      * by rewrite lookup_insert_ne.
    + rewrite Hd. simpl. rewrite dom_insert_L.
      by rewrite (comm_L (∪) {[risk_level t]}), <-(assoc_L (∪)).
    + rewrite Hs. simpl.
      pose proof (sum_counts_insert (by_risk_level stats) (risk_level t)
                    (default 0 (by_risk_level stats !! risk_level t) + 1)).
      lia.
    + rewrite Hv. unfold rows_requiring. simpl.
      destruct (requires_validation t); simpl; lia.
Qed.

(** X29: The statistics of any table: "total" is the number of rows; the count
    of a risk level is the number of rows with it, the three standard
    levels being counted also when no row has them and any other level
    only when a row has it; the counts add up to the total; the rows that
    require validation are counted, and are no more than the total. *)
Theorem statistics_add_up (compatibility_data : list Transition) :
  let stats := _calculate_statistics compatibility_data in
  total stats = length compatibility_data
  /\ (forall risk,
        by_risk_level stats !! risk
        = if bool_decide (risk ∈ risk_levels \/ risk ∈ risk_level <$> compatibility_data)
          then Some (rows_at risk compatibility_data) else None)
  /\ sum_counts (by_risk_level stats) = total stats
  /\ requiring_validation stats = rows_requiring compatibility_data
  /\ requiring_validation stats <= total stats.
Proof.
  cbv zeta. unfold _calculate_statistics.
  destruct (foldl_count_row compatibility_data
              (mkStatistics (length compatibility_data)
                 {[ "SAFE" := 0; "RISKY" := 0; "DANGEROUS" := 0 ]} 0))
    as (Ht & Hr & Hd & Hs & Hv).
  simpl in *. split_and!.
  - done.
  - intros risk. specialize (Hr risk).
    assert (Hdom : risk ∈ dom (by_risk_level
                     (foldl count_row
                        (mkStatistics (length compatibility_data)
                           {[ "SAFE" := 0; "RISKY" := 0; "DANGEROUS" := 0 ]} 0)
                        compatibility_data))
                   <-> risk ∈ risk_levels \/ risk ∈ risk_level <$> compatibility_data).
    { rewrite Hd. unfold risk_levels.
      rewrite elem_of_union, elem_of_list_to_set, !dom_insert_L, dom_singleton_L.
      rewrite !elem_of_union, !elem_of_singleton.
      rewrite !elem_of_cons, elem_of_nil. tauto. }
    case_bool_decide as Hin.
    + apply Hdom, elem_of_dom in Hin as [n Hn]. rewrite Hn in *. simpl in Hr.
      f_equal. rewrite Hr.
      assert (Hzero : default 0 (({[ "SAFE" := 0; "RISKY" := 0; "DANGEROUS" := 0 ]}
                                   : gmap string nat) !! risk) = 0).
      { destruct (decide (risk = "SAFE")) as [->|?]; [done|].
        destruct (decide (risk = "RISKY")) as [->|?]; [done|].
        destruct (decide (risk = "DANGEROUS")) as [->|?]; [done|].
        by rewrite !lookup_insert_ne, lookup_singleton_ne by done. }
      lia.
    + apply not_elem_of_dom. by rewrite Hdom.
  - rewrite Hs, Ht. by vm_compute.
  - rewrite Hv. done.
  - rewrite Hv, Ht. unfold rows_requiring. simpl. apply List.filter_length_le.
Qed.

End Report.
